(** * Med-Vis: bipartite flow aggregation and highlight sequencer

    A shallow embedding of the aggregation code of
    [src/components/DataVisualization/AlluvialDiagram.tsx], of the
    field-pair guard of [ChordDiagram.tsx] and of the timer-driven
    highlight sequencer, with the properties of the specification
    stated and settled against it. *)

From Stdlib Require Import Bool List String Ascii ZArith QArith Lia Permutation Sorted.
Import ListNotations.
Local Open Scope string_scope.

(** ** JavaScript values

    Only what the aggregation touches: [undefined], [null], booleans,
    numbers and strings.  A number is NaN, an infinity or a finite value;
    the finite values are rationals, which is exact for every comparison
    against the integer thresholds used by the code.  Strings are byte
    strings (the UTF-8 encoding of the text), so string equality is the
    equality of the source; the order of strings is that of the UTF-16
    code units of the same text, see [str_leb].  (A string with an
    unpaired surrogate has no UTF-8 encoding and is outside the model.) *)
Module JS.

Inductive jsnum : Type :=
| NaN
| NegInfinity
| PosInfinity
| Fin (q : Q).

Inductive jsval : Type :=
| VUndefined
| VNull
| VBool (b : bool)
| VNum (n : jsnum)
| VStr (s : string).

Definition num (z : Z) : jsval := VNum (Fin (inject_Z z)).

Definition isNaN (n : jsnum) : bool :=
  match n with NaN => true | _ => false end.

(** [a < b] and [a <= b] on numbers; any comparison with NaN is false. *)
Definition num_lt (a b : jsnum) : bool :=
  match a, b with
  | NaN, _ | _, NaN => false
  | _, NegInfinity => false
  | NegInfinity, _ => true
  | PosInfinity, _ => false
  | Fin _, PosInfinity => true
  | Fin x, Fin y => negb (Qle_bool y x)
  end.

Definition num_le (a b : jsnum) : bool :=
  match a, b with
  | NaN, _ | _, NaN => false
  | NegInfinity, _ => true
  | _, PosInfinity => true
  | PosInfinity, _ => false
  | Fin _, NegInfinity => false
  | Fin x, Fin y => Qle_bool x y
  end.

(** Truthiness, as used by [x || 0], [!x] and [filter(Boolean)]. *)
Definition truthy (v : jsval) : bool :=
  match v with
  | VUndefined | VNull => false
  | VBool b => b
  | VNum NaN => false
  | VNum (Fin q) => negb (Qeq_bool q 0)
  | VNum _ => true
  | VStr s => negb (s =? "")
  end.

(** [a || b]. *)
Definition or_else (a b : jsval) : jsval := if truthy a then a else b.

(** [v !== null]. *)
Definition is_not_null (v : jsval) : bool :=
  match v with VNull => false | _ => true end.

(** [v == null]: the value is [null] or [undefined]. *)
Definition is_nullish (v : jsval) : bool :=
  match v with VNull | VUndefined => true | _ => false end.

(** SameValueZero, the equality of [Set] and of [Array.prototype.includes]. *)
Definition same_value_zero (a b : jsval) : bool :=
  match a, b with
  | VUndefined, VUndefined | VNull, VNull => true
  | VBool x, VBool y => Bool.eqb x y
  | VNum NaN, VNum NaN => true
  | VNum NegInfinity, VNum NegInfinity => true
  | VNum PosInfinity, VNum PosInfinity => true
  | VNum (Fin x), VNum (Fin y) => Qeq_bool x y
  | VStr x, VStr y => x =? y
  | _, _ => false
  end.

(** [Array.from(new Set(l))]: the distinct values in the order of their
    first occurrence. *)
Fixpoint set_add (v : jsval) (seen : list jsval) : list jsval :=
  match seen with
  | [] => [v]
  | w :: rest => if same_value_zero w v then seen else w :: set_add v rest
  end.

Definition set_from (l : list jsval) : list jsval :=
  fold_left (fun seen v => set_add v seen) l [].

(** [arr.includes(v)] for an array of strings. *)
Definition includes (arr : list string) (v : jsval) : bool :=
  match v with
  | VStr s => existsb (String.eqb s) arr
  | _ => false
  end.

(** [arr.indexOf(s)], -1 when absent. *)
Fixpoint indexOf_from (i : Z) (arr : list string) (s : string) : Z :=
  match arr with
  | [] => (-1)%Z
  | x :: rest => if x =? s then i else indexOf_from (i + 1)%Z rest s
  end.

Definition indexOf (arr : list string) (s : string) : Z := indexOf_from 0 arr s.

(** [Array.prototype.sort] without a comparator orders strings by their
    UTF-16 code units.  The strings of the model are the UTF-8 bytes of
    the same text, and byte order is code-point order: the two differ
    where a character beyond U+FFFF meets one of U+E000..U+FFFF.  In
    UTF-16 the former is a surrogate pair led by a unit of D800..DBFF
    and sorts first; in UTF-8 it is led by a byte of F0..F4, the latter
    by EE or EF.  [unit_rank] gives each byte its place in the order of
    the code units: EE and EF move above every other byte (they change
    places with FE and FF, which occur in no UTF-8 text) and the other
    bytes keep theirs.  Two well-formed texts first differ either in the
    lead bytes of a character or in continuation bytes under one lead
    byte, so comparing the ranks of the first differing bytes is the
    comparison of the first differing code units. *)
Definition unit_rank (c : ascii) : N :=
  let b := N_of_ascii c in
  if ((b =? 238) || (b =? 239))%N then (b + 16)%N
  else if ((b =? 254) || (b =? 255))%N then (b - 16)%N
  else b.

Fixpoint str_leb (a b : string) : bool :=
  match a, b with
  | EmptyString, _ => true
  | String _ _, EmptyString => false
  | String x a', String y b' =>
      if (unit_rank x <? unit_rank y)%N then true
      else if (unit_rank x =? unit_rank y)%N then str_leb a' b'
      else false
  end.

(** [arr.sort(cmp)]: a stable sort; [leb a b] stands for [cmp(a, b) <= 0]. *)
Section Sort.
Context {A : Type} (leb : A -> A -> bool).

Fixpoint insert_sorted (x : A) (l : list A) : list A :=
  match l with
  | [] => [x]
  | y :: rest => if leb x y then x :: l else y :: insert_sorted x rest
  end.

Fixpoint sort_by (l : list A) : list A :=
  match l with
  | [] => []
  | x :: rest => insert_sorted x (sort_by rest)
  end.
End Sort.

(** [arr.sort()] on strings. *)
Definition sort_strings (l : list string) : list string := sort_by str_leb l.

End JS.
Import JS.

(** ** Category normalizer *)

Definition YEARS_CATEGORIES : list string := ["0-5"; "6-10"; "11-15"; "16-20"; "20+"].

Definition getValidYearsCategory (years : jsval) : string :=
  match years with
  | VNum n =>
      if isNaN n || num_lt n (Fin 0) then "0-5"
      else if num_le n (Fin 5) then "0-5"
      else if num_le n (Fin 10) then "6-10"
      else if num_le n (Fin 15) then "11-15"
      else if num_le n (Fin 20) then "16-20"
      else "20+"
  | _ => "0-5"
  end.

(** The years-bucketing rule in the words of the specification: buckets
    0-5, 6-10, 11-15, 16-20 and 20+, each entered at its lower bound;
    values below 0 and non-numeric values go to the first bucket. *)
Definition years_bucket_rule (years : jsval) : string :=
  match years with
  | VNum (Fin q) =>
      if Qle_bool 21 q then "20+"
      else if Qle_bool 16 q then "16-20"
      else if Qle_bool 11 q then "11-15"
      else if Qle_bool 6 q then "6-10"
      else "0-5"
  | VNum PosInfinity => "20+"
  | _ => "0-5"
  end.

(** ** Response records *)

(** A row of [survey_responses]: the five survey dimensions offered by
    [availableFields] and the [test_data] flag.  Every column may hold
    [null] (or be missing), so each field is a JavaScript value. *)
Record SurveyResponse : Type := mkResponse {
  years_at_medtronic : jsval;
  learning_style : jsval;
  shaped_by : jsval;
  peak_performance : jsval;
  motivation : jsval;
  test_data : jsval
}.

Definition availableFields : list string :=
  ["years_at_medtronic"; "learning_style"; "shaped_by"; "peak_performance"; "motivation"].

(** [d[field]]. *)
Definition getField (d : SurveyResponse) (field : string) : jsval :=
  if field =? "years_at_medtronic" then years_at_medtronic d
  else if field =? "learning_style" then learning_style d
  else if field =? "shaped_by" then shaped_by d
  else if field =? "peak_performance" then peak_performance d
  else if field =? "motivation" then motivation d
  else if field =? "test_data" then test_data d
  else VUndefined.

(** ** Flow aggregator (AlluvialDiagram.tsx) *)
Module Alluvial.

(** [filteredData]: the test-data filter. *)
Definition filteredData (data : list SurveyResponse) (useTestData : bool)
  : list SurveyResponse :=
  if (List.length data =? 0)%nat then []
  else if useTestData then data
  else filter (fun item => negb (truthy (test_data item))) data.

(** [typeof value === 'string' && value.length > 0]. *)
Definition is_label (v : jsval) : bool :=
  match v with
  | VStr s => (0 <? String.length s)%nat
  | _ => false
  end.

(** The type guard [value is string] of the filter above. *)
Definition as_string (v : jsval) : string :=
  match v with VStr s => s | _ => "" end.

(** The label of the years field used for the node lists. *)
Definition validYears (d : SurveyResponse) : string :=
  getValidYearsCategory (or_else (years_at_medtronic d) (num 0)).

(** [sources]: the labels of the source axis. *)
Definition sources (filtered : list SurveyResponse) (currentSource : string)
  : list string :=
  if (List.length filtered =? 0)%nat then []
  else if currentSource =? "years_at_medtronic" then
    filter (fun cat => existsb (fun d => validYears d =? cat) filtered)
           YEARS_CATEGORIES
  else
    map as_string
        (filter is_label
                (set_from (map (fun d => getField d currentSource) filtered))).

(** [targets]: the labels of the target axis; categorical labels are sorted. *)
Definition targets (filtered : list SurveyResponse) (currentTarget : string)
  : list string :=
  if (List.length filtered =? 0)%nat then []
  else if currentTarget =? "years_at_medtronic" then
    filter (fun cat => existsb (fun d => validYears d =? cat) filtered)
           YEARS_CATEGORIES
  else
    sort_strings
      (map as_string
           (filter is_label
                   (set_from
                      (map (fun d =>
                              if currentTarget =? "years_at_medtronic"
                              then VStr (validYears d)
                              else getField d currentTarget)
                           filtered)))).

(** The comparator [(a, b) => YEARS_CATEGORIES.indexOf(a) - YEARS_CATEGORIES.indexOf(b)],
    as the test [cmp(a, b) <= 0]. *)
Definition years_leb (a b : string) : bool :=
  (indexOf YEARS_CATEGORIES a - indexOf YEARS_CATEGORIES b <=? 0)%Z.

(** [sortedSources] / [sortedTargets] of the render effect: a sorted copy. *)
Definition sortedLabels (field : string) (labels : list string) : list string :=
  if field =? "years_at_medtronic" then sort_by years_leb labels
  else sort_strings labels.

Record Node : Type := mkNode {
  id : string;
  name : string;
  category : string
}.

Record Link : Type := mkLink {
  source : string;
  target : string;
  value : Q;
  isDummy : bool
}.

(** [`${field}:${label}`]. *)
Definition nodeId (field label : string) : string := field ++ ":" ++ label.

(** [`${sourceId}→${targetId}`]. *)
Definition linkKey (sourceId targetId : string) : string :=
  sourceId ++ "→" ++ targetId.

(** [linksMap]: a [Map] from key to link.  A [Map] keeps its entries in
    insertion order and [set] on a present key replaces the value in place. *)
Definition LinksMap : Type := list (string * Link).

Fixpoint map_get (k : string) (m : LinksMap) : option Link :=
  match m with
  | [] => None
  | (k', l) :: rest => if k' =? k then Some l else map_get k rest
  end.

Fixpoint map_set (k : string) (l : Link) (m : LinksMap) : LinksMap :=
  match m with
  | [] => [(k, l)]
  | (k', l') :: rest =>
      if k' =? k then (k, l) :: rest else (k', l') :: map_set k l rest
  end.

(** [Array.from(linksMap.values())]. *)
Definition map_values (m : LinksMap) : list Link := map snd m.

Section Render.
(** [getYearsCategory] is imported from [./shared/colorUtils], which is
    not part of the sources at hand: the render effect is parametrised
    by it. *)
Variable getYearsCategory : jsval -> string.
Variables currentSource currentTarget : string.

Definition sourceAccessor (d : SurveyResponse) : jsval :=
  if currentSource =? "years_at_medtronic"
  then VStr (getYearsCategory (or_else (years_at_medtronic d) (num 0)))
  else getField d currentSource.

Definition targetAccessor (d : SurveyResponse) : jsval :=
  if currentTarget =? "years_at_medtronic"
  then VStr (getYearsCategory (or_else (years_at_medtronic d) (num 0)))
  else getField d currentTarget.

(** [validData]: rows with a [null] years value are dropped when the
    years field is on either axis. *)
Definition validData (filtered : list SurveyResponse) : list SurveyResponse :=
  filter (fun d =>
            (negb (currentSource =? "years_at_medtronic")
             || is_not_null (years_at_medtronic d))
            && (negb (currentTarget =? "years_at_medtronic")
                || is_not_null (years_at_medtronic d)))
         filtered.

Definition buildNodes (sortedSources sortedTargets : list string) : list Node :=
  map (fun name => mkNode (nodeId currentSource name) name currentSource)
      sortedSources
  ++ map (fun name => mkNode (nodeId currentTarget name) name currentTarget)
         sortedTargets.

(** Step 1: a dummy link for every source-target pair. *)
Definition initLinks (sortedSources sortedTargets : list string) : LinksMap :=
  fold_left
    (fun m src =>
       fold_left
         (fun m tgt =>
            let sourceId := nodeId currentSource src in
            let targetId := nodeId currentTarget tgt in
            let key := linkKey sourceId targetId in
            map_set key (mkLink sourceId targetId 0 true) m)
         sortedTargets m)
    sortedSources [].

(** Step 2, one row.  [includes] is false for every value that is not a
    string, so only string labels reach the template strings.  The test
    [linksMap.has(key)] is the test that [get] finds a link; the link found
    is updated in place. *)
Definition fillLink (sortedSources sortedTargets : list string)
           (m : LinksMap) (d : SurveyResponse) : LinksMap :=
  let src := sourceAccessor d in
  let tgt := targetAccessor d in
  if negb (includes sortedSources src) || negb (includes sortedTargets tgt)
  then m
  else
    let sourceId := nodeId currentSource (as_string src) in
    let targetId := nodeId currentTarget (as_string tgt) in
    let key := linkKey sourceId targetId in
    match map_get key m with
    | None => map_set key (mkLink sourceId targetId 1 false) m
    | Some link =>
        map_set key (mkLink (source link) (target link) (value link + 1) false) m
    end.

(** Step 3: a link that is still a dummy gets a very small value. *)
Definition finishLink (link : Link) : Link :=
  if isDummy link
  then mkLink (source link) (target link) 0.0001 (isDummy link)
  else link.

Definition buildLinksMap (sortedSources sortedTargets : list string)
           (valid : list SurveyResponse) : LinksMap :=
  map (fun kl => (fst kl, finishLink (snd kl)))
      (fold_left (fillLink sortedSources sortedTargets) valid
                 (initLinks sortedSources sortedTargets)).

(** The node and link arrays handed to the Sankey layout by the render
    effect, for the rows [data] delivered by the data hook.  (Without
    filtered rows the effect returns before it draws; the arrays are then
    empty.) *)
Definition renderSources (data : list SurveyResponse) (useTestData : bool) :=
  sortedLabels currentSource (sources (filteredData data useTestData) currentSource).

Definition renderTargets (data : list SurveyResponse) (useTestData : bool) :=
  sortedLabels currentTarget (targets (filteredData data useTestData) currentTarget).

Definition renderNodes (data : list SurveyResponse) (useTestData : bool) : list Node :=
  buildNodes (renderSources data useTestData) (renderTargets data useTestData).

Definition renderLinksMap (data : list SurveyResponse) (useTestData : bool) : LinksMap :=
  buildLinksMap (renderSources data useTestData) (renderTargets data useTestData)
                (validData (filteredData data useTestData)).

Definition renderLinks (data : list SurveyResponse) (useTestData : bool) : list Link :=
  map_values (renderLinksMap data useTestData).

(** The rows that step 2 counts. *)
Definition counted (sortedSources sortedTargets : list string)
           (d : SurveyResponse) : bool :=
  includes sortedSources (sourceAccessor d)
  && includes sortedTargets (targetAccessor d).

Definition countedRows (data : list SurveyResponse) (useTestData : bool)
  : list SurveyResponse :=
  filter (counted (renderSources data useTestData) (renderTargets data useTestData))
         (validData (filteredData data useTestData)).

(** The counted rows that carry the source label [src], and those that
    carry the target label [tgt]. *)
Definition countedFrom (sortedSources sortedTargets : list string) (src : string)
           (d : SurveyResponse) : bool :=
  counted sortedSources sortedTargets d
  && same_value_zero (sourceAccessor d) (VStr src).

Definition countedTo (sortedSources sortedTargets : list string) (tgt : string)
           (d : SurveyResponse) : bool :=
  counted sortedSources sortedTargets d
  && same_value_zero (targetAccessor d) (VStr tgt).

(** The key under which step 2 counts a row. *)
Definition rowKey (d : SurveyResponse) : string :=
  linkKey (nodeId currentSource (as_string (sourceAccessor d)))
          (nodeId currentTarget (as_string (targetAccessor d))).

Definition hits (sortedSources sortedTargets : list string) (k : string)
           (d : SurveyResponse) : bool :=
  counted sortedSources sortedTargets d && (rowKey d =? k).

(** The rows counted for the pair [(src, tgt)]. *)
Definition matches (src tgt : string) (d : SurveyResponse) : bool :=
  same_value_zero (sourceAccessor d) (VStr src)
  && same_value_zero (targetAccessor d) (VStr tgt).
End Render.

Definition map_keys (m : LinksMap) : list string := map fst m.

(** [link.value += 1; link.isDummy = false]. *)
Definition increment (link : Link) : Link :=
  mkLink (source link) (target link) (value link + 1) false.

(** [c] increments of a link. *)
Fixpoint bump (c : nat) (link : Link) : Link :=
  match c with
  | O => link
  | S c' => increment (bump c' link)
  end.

Definition pairKey (currentSource currentTarget : string) (p : string * string) : string :=
  linkKey (nodeId currentSource (fst p)) (nodeId currentTarget (snd p)).

Definition dummyLink (currentSource currentTarget : string) (p : string * string) : Link :=
  mkLink (nodeId currentSource (fst p)) (nodeId currentTarget (snd p)) 0 true.

(** The keys of step 1, in the order of the nested loops. *)
Definition linkKeys (currentSource currentTarget : string)
           (sortedSources sortedTargets : list string) : list string :=
  map (pairKey currentSource currentTarget) (list_prod sortedSources sortedTargets).

(** No string occurs twice. *)
Fixpoint distinct (l : list string) : bool :=
  match l with
  | [] => true
  | x :: rest => negb (existsb (String.eqb x) rest) && distinct rest
  end.

(** Distinct label pairs have distinct keys.  The key is a concatenation,
    so this can only fail for labels that contain the separator
    ["→" ++ currentTarget ++ ":"] themselves. *)
Definition distinctKeys (currentSource currentTarget : string)
           (sortedSources sortedTargets : list string) : bool :=
  distinct (linkKeys currentSource currentTarget sortedSources sortedTargets).

Definition count {A : Type} (f : A -> bool) (l : list A) : nat :=
  List.length (filter f l).

(** The link described by the aggregation contract for a pair that is
    matched by [c] rows: a dummy of value 0.0001 when [c = 0], a real link
    of value [c] otherwise. *)
Definition expectedLink (currentSource currentTarget : string)
           (p : string * string) (c : nat) : Link :=
  if (c =? 0)%nat
  then mkLink (nodeId currentSource (fst p)) (nodeId currentTarget (snd p)) 0.0001 true
  else mkLink (nodeId currentSource (fst p)) (nodeId currentTarget (snd p))
              (inject_Z (Z.of_nat c)) false.

Definition sumOver {A : Type} (f : A -> nat) (l : list A) : nat :=
  fold_right (fun x acc => (f x + acc)%nat) 0%nat l.

(** The sum of the values of a list of links. *)
Definition sumValues (links : list Link) : Q :=
  fold_right (fun l acc => value l + acc) 0 links.

Definition realLinks (links : list Link) : list Link :=
  filter (fun l => negb (isDummy l)) links.

(** The real links that leave the source node [sourceId], and those that
    reach the target node [targetId]. *)
Definition realLinksFrom (sourceId : string) (links : list Link) : list Link :=
  filter (fun l => negb (isDummy l) && (source l =? sourceId)) links.

Definition realLinksTo (targetId : string) (links : list Link) : list Link :=
  filter (fun l => negb (isDummy l) && (target l =? targetId)) links.

End Alluvial.

(** ** Field-pair selection (ChordDiagram.tsx) *)
Module Chord.

Definition availableFields : list string :=
  ["years_at_medtronic"; "peak_performance"; "learning_style"; "motivation"; "shaped_by"].

(** [ensureDifferentCategories]: the pair as a (source, target) couple. *)
Definition ensureDifferentCategories (source target : string) : string * string :=
  if source =? target then
    match find (fun field => negb (field =? source)) availableFields with
    | Some differentOption => (source, differentOption)
    | None => (source, "learning_style")
    end
  else (source, target).

Record Mode : Type := mkMode {
  mode_source : string;
  mode_target : string
}.

Record CycleState : Type := mkCycle {
  currentModeIndex : nat;
  currentSource : string;
  currentTarget : string
}.

(** [cyclingModes.findIndex(mode => mode.source === s && mode.target === t)]. *)
Fixpoint findIndex_from (i : nat) (modes : list Mode) (s t : string) : option nat :=
  match modes with
  | [] => None
  | m :: rest =>
      if (mode_source m =? s) && (mode_target m =? t) then Some i
      else findIndex_from (S i) rest s t
  end.

Section Cycling.
(** [cyclingModes] is imported from [./shared/chordUtils], which is not
    part of the sources at hand. *)
Variable cyclingModes : list Mode.

(** The effect that follows a change of the pair: the mode index is
    moved to the first mode that equals the pair, when there is one. *)
Definition syncModeIndex (st : CycleState) : CycleState :=
  match findIndex_from 0 cyclingModes (currentSource st) (currentTarget st) with
  | Some i => mkCycle i (currentSource st) (currentTarget st)
  | None => st
  end.

(** One expiry of the auto-cycling interval.  With an empty mode list
    the index is NaN and reading [nextMode.source] throws: [None]. *)
Definition cycleTick (st : CycleState) : option CycleState :=
  match cyclingModes with
  | [] => None
  | _ =>
      let nextModeIndex := (currentModeIndex st + 1) mod List.length cyclingModes in
      match nth_error cyclingModes nextModeIndex with
      | None => None
      | Some nextMode =>
          if mode_source nextMode =? mode_target nextMode then Some st
          else
            let st' := mkCycle nextModeIndex (mode_source nextMode) (mode_target nextMode) in
            if (mode_source nextMode =? currentSource st)
               && (mode_target nextMode =? currentTarget st)
            then Some st'
            else Some (syncModeIndex st')
      end
  end.

(** [n] expiries in a row; a throwing callback leaves the state as it was. *)
Fixpoint cycleTicks (n : nat) (st : CycleState) : CycleState :=
  match n with
  | O => st
  | S n' =>
      cycleTicks n' (match cycleTick st with Some st' => st' | None => st end)
  end.
End Cycling.

(** The selector's [onChange] handler. *)
Definition selectPair (source target : string) (st : CycleState) : CycleState :=
  let corrected := ensureDifferentCategories source target in
  mkCycle (currentModeIndex st) (fst corrected) (snd corrected).

(** The unknown-label fallback of the chord's category sets:
    [d[field] || 'Unknown']. *)
Definition categoryOrUnknown (d : SurveyResponse) (field : string) : jsval :=
  or_else (getField d field) (VStr "Unknown").

(** [sourceArray] for a categorical field: the sorted distinct categories. *)
Definition categoryArray (filtered : list SurveyResponse) (field : string) : list string :=
  sort_strings
    (map Alluvial.as_string (set_from (map (fun d => categoryOrUnknown d field) filtered))).

(** [leftTotals] / [rightTotals] for a categorical field: the rows whose
    raw value is the category. *)
Definition categoryTotal (filtered : list SurveyResponse) (field cat : string) : nat :=
  List.length (filter (fun d => same_value_zero (getField d field) (VStr cat)) filtered).

End Chord.

(** ** Highlight sequencer (AlluvialDiagram.tsx)

    The sequencer is a chain of [setTimeout] callbacks over the mutable
    [animationRef].  The model keeps the pending timers of the event loop
    explicitly: [setTimeout] adds a callback under a fresh id, [clearTimeout]
    removes it, and an event fires one pending callback.  Wall-clock delays
    are abstracted: any pending timer may be the next to expire. *)
Module Sequencer.

Inductive Phase : Type := full | highlighting | transitioning.

(** The callbacks handed to [setTimeout].  Each one belongs to the
    [animate] closure that created it and so remembers that closure's
    [sortedSources.length]. *)
Inductive Callback : Type :=
| StepTimer (n : nat)
| TargetTimer (n : nat) (targetOptions : list string)
| SourceTimer (n : nat)
| ContinueTimer (n : nat).

(** [animationRef.current] ([pausedAt] and [resumeFrom] are written but
    never read and are left out). *)
Record Anim : Type := mkAnim {
  timer : option nat;
  running : bool;
  currentSourceIndex : nat;
  currentTargetIndex : nat;
  isPaused : bool;
  cycleCount : nat
}.

(** The component state the sequencer writes, and the autoplay switch
    ([autoPlay && settings.isAutoPlayEnabled]). *)
Record View : Type := mkView {
  autoPlayOn : bool;
  currentSource : string;
  currentTarget : string;
  hoveredSourceIndex : option nat;
  animationPhase : Phase;
  isInFullOpacityState : bool
}.

Record State : Type := mkState {
  anim : Anim;
  view : View;
  pending : list (nat * Callback);
  nextTimerId : nat;
  (** the indices passed to [setHoveredSourceIndex] by [animate], oldest first *)
  highlights : list nat
}.

Definition initialAnim : Anim := mkAnim None false 0 0 false 0.

Definition initialState (autoPlay : bool) : State :=
  mkState initialAnim
          (mkView autoPlay "years_at_medtronic" "learning_style" None full false)
          [] 1 [].

Definition withAnim (f : Anim -> Anim) (st : State) : State :=
  mkState (f (anim st)) (view st) (pending st) (nextTimerId st) (highlights st).

Definition withView (f : View -> View) (st : State) : State :=
  mkState (anim st) (f (view st)) (pending st) (nextTimerId st) (highlights st).

Definition setTimer (t : option nat) (a : Anim) : Anim :=
  mkAnim t (running a) (currentSourceIndex a) (currentTargetIndex a) (isPaused a) (cycleCount a).
Definition setRunning (b : bool) (a : Anim) : Anim :=
  mkAnim (timer a) b (currentSourceIndex a) (currentTargetIndex a) (isPaused a) (cycleCount a).
Definition setSourceIndex (i : nat) (a : Anim) : Anim :=
  mkAnim (timer a) (running a) i (currentTargetIndex a) (isPaused a) (cycleCount a).
Definition setTargetIndex (i : nat) (a : Anim) : Anim :=
  mkAnim (timer a) (running a) (currentSourceIndex a) i (isPaused a) (cycleCount a).
Definition setPaused (b : bool) (a : Anim) : Anim :=
  mkAnim (timer a) (running a) (currentSourceIndex a) (currentTargetIndex a) b (cycleCount a).
Definition setCycleCount (c : nat) (a : Anim) : Anim :=
  mkAnim (timer a) (running a) (currentSourceIndex a) (currentTargetIndex a) (isPaused a) c.

Definition setCurrentSource (s : string) (v : View) : View :=
  mkView (autoPlayOn v) s (currentTarget v) (hoveredSourceIndex v) (animationPhase v)
         (isInFullOpacityState v).
Definition setCurrentTarget (t : string) (v : View) : View :=
  mkView (autoPlayOn v) (currentSource v) t (hoveredSourceIndex v) (animationPhase v)
         (isInFullOpacityState v).
Definition setHoveredSourceIndex (i : option nat) (v : View) : View :=
  mkView (autoPlayOn v) (currentSource v) (currentTarget v) i (animationPhase v)
         (isInFullOpacityState v).
Definition setAnimationPhase (p : Phase) (v : View) : View :=
  mkView (autoPlayOn v) (currentSource v) (currentTarget v) (hoveredSourceIndex v) p
         (isInFullOpacityState v).
Definition setIsInFullOpacityState (b : bool) (v : View) : View :=
  mkView (autoPlayOn v) (currentSource v) (currentTarget v) (hoveredSourceIndex v)
         (animationPhase v) b.
Definition setAutoPlayOn (b : bool) (v : View) : View :=
  mkView b (currentSource v) (currentTarget v) (hoveredSourceIndex v) (animationPhase v)
         (isInFullOpacityState v).

(** [animationRef.current.timer = setTimeout(cb, ...)]. *)
Definition scheduleTracked (cb : Callback) (st : State) : State :=
  mkState (setTimer (Some (nextTimerId st)) (anim st)) (view st)
          (pending st ++ [(nextTimerId st, cb)]) (S (nextTimerId st)) (highlights st).

(** A [setTimeout] whose id is dropped. *)
Definition scheduleUntracked (cb : Callback) (st : State) : State :=
  mkState (anim st) (view st)
          (pending st ++ [(nextTimerId st, cb)]) (S (nextTimerId st)) (highlights st).

Definition clearTimeout (id : nat) (st : State) : State :=
  mkState (anim st) (view st)
          (filter (fun p => negb (fst p =? id)%nat) (pending st))
          (nextTimerId st) (highlights st).

(** [if (ref.timer) { clearTimeout(ref.timer); ref.timer = null; }]. *)
Definition clearTracked (st : State) : State :=
  match timer (anim st) with
  | Some id => withAnim (setTimer None) (clearTimeout id st)
  | None => st
  end.

(** [availableFields.filter(f => f.value !== source).map(f => f.value)]. *)
Definition targetOptionsFor (source : string) : list string :=
  filter (fun f => negb (f =? source)) availableFields.

Section Machine.
(** [sortedSources.length] for each source field, and
    [filteredData.length]; both are fixed by the data on display. *)
Variable sourceCount : string -> nat.
Variable dataLength : nat.

(** [animate] of a closure with [n] source nodes. *)
Definition animate (n : nat) (st : State) : State :=
  if isPaused (anim st) then st
  else if negb (running (anim st)) || (dataLength =? 0)%nat then st
  else
    let st1 :=
      if (1000 <? cycleCount (anim st))%nat
      then withAnim (fun a => setTargetIndex 0 (setSourceIndex 0 (setCycleCount 0 a))) st
      else st in
    let st2 := withAnim (fun a => setCycleCount (S (cycleCount a)) a) st1 in
    let st3 :=
      withView (fun v => setIsInFullOpacityState false (setAnimationPhase highlighting v))
               st2 in
    let i := currentSourceIndex (anim st3) in
    let st4 :=
      mkState (anim st3) (setHoveredSourceIndex (Some i) (view st3))
              (pending st3) (nextTimerId st3) (highlights st3 ++ [i]) in
    let targetOptions := targetOptionsFor (currentSource (view st4)) in
    if (Z.of_nat i <? Z.of_nat n - 1)%Z
    then scheduleTracked (StepTimer n) st4
    else if (Z.of_nat (currentTargetIndex (anim st4))
             <? Z.of_nat (List.length targetOptions) - 1)%Z
    then scheduleTracked (TargetTimer n targetOptions) (clearTracked st4)
    else scheduleTracked (SourceTimer n) (clearTracked st4).

(** The cleanup of the animation effect. *)
Definition cleanup (st : State) : State :=
  withView (fun v => setIsInFullOpacityState true (setAnimationPhase full v))
           (withAnim (setRunning false) (clearTracked st)).

(** The body of the animation effect (the SVG element is mounted). *)
Definition effectBody (st : State) : State :=
  if negb (autoPlayOn (view st)) then
    withView (fun v => setIsInFullOpacityState true (setAnimationPhase full v))
             (withAnim (setRunning false) (clearTracked st))
  else if (dataLength =? 0)%nat then st
  else
    let st1 :=
      if running (anim st)
      then withAnim (setRunning false) (clearTracked st)
      else st in
    let st2 :=
      withAnim (fun a => setCycleCount 0 (setTargetIndex 0 (setSourceIndex 0 (setRunning true a))))
               st1 in
    animate (sourceCount (currentSource (view st2))) st2.

(** A change of one of the effect's dependencies: the previous cleanup
    runs, then the body. *)
Definition effectRerun (st : State) : State := effectBody (cleanup st).

(** The body of a timer callback. *)
Definition runCallback (cb : Callback) (st : State) : State :=
  match cb with
  | StepTimer n =>
      if negb (running (anim st)) || isPaused (anim st) then st
      else animate n (withAnim (fun a => setSourceIndex (S (currentSourceIndex a)) a) st)
  | TargetTimer n targetOptions =>
      if negb (running (anim st)) || isPaused (anim st) then st
      else
        let st1 := withView (setAnimationPhase transitioning) st in
        let st2 := withAnim (fun a => setTargetIndex (S (currentTargetIndex a)) a) st1 in
        let nextTarget :=
          nth (currentTargetIndex (anim st2)) targetOptions "undefined" in
        let st3 := withView (setCurrentTarget nextTarget) st2 in
        let st4 := withAnim (setSourceIndex 0) st3 in
        scheduleUntracked (ContinueTimer n) st4
  | SourceTimer n =>
      if negb (running (anim st)) || isPaused (anim st) then st
      else
        let st1 := withView (setAnimationPhase transitioning) st in
        let sourceOptions := availableFields in
        let currentSourceIndex := indexOf sourceOptions (currentSource (view st1)) in
        let nextSourceIndex :=
          ((currentSourceIndex + 1) mod Z.of_nat (List.length sourceOptions))%Z in
        let nextSource := nth (Z.to_nat nextSourceIndex) sourceOptions "undefined" in
        let newTargetOptions := targetOptionsFor nextSource in
        let st2 := withView (setCurrentSource nextSource) st1 in
        let st3 := withAnim (fun a => setTargetIndex 0 (setSourceIndex 0 a)) st2 in
        let firstTarget := nth 0 newTargetOptions "undefined" in
        let st4 := withView (setCurrentTarget firstTarget) st3 in
        let st5 := scheduleUntracked (ContinueTimer n) st4 in
        (* [currentSource] is a dependency of the animation effect *)
        if nextSource =? currentSource (view st) then st5 else effectRerun st5
  | ContinueTimer n =>
      if running (anim st) && negb (isPaused (anim st)) then animate n st else st
  end.

(** [pauseAnimation] and [resumeAnimation]. *)
Definition pauseAnimation (st : State) : State :=
  if running (anim st) && negb (isPaused (anim st))
  then clearTracked (withAnim (setPaused true) st)
  else st.

Definition resumeAnimation (st : State) : State :=
  if running (anim st) && isPaused (anim st)
  then scheduleUntracked (ContinueTimer (sourceCount (currentSource (view st))))
                         (withAnim (setPaused false) st)
  else st.

(** The element under the pointer: a link, a node of the source axis or
    a node of the target axis.  The index is the one that the handler
    called finds for the source node (of the link, or the node itself)
    with [indexOf] in the [sortedSources] of its effect. *)
Inductive Element : Type :=
| OnLink (sourceIndex : nat)
| OnSourceNode (index : nat)
| OnTargetNode.

(** The handlers an element carries are those of the effect that bound
    them last.  The render effect removes and redraws every element and
    binds handlers that only set the hover state (lines 939-957 and
    1012-1033); the handler effect (1376-1453), which is declared after
    it, replaces them on the links and nodes by handlers that also call
    [pauseAnimation] and [resumeAnimation].  After the mount and after a
    change of the field pair both effects have run, and the elements
    carry the handlers of the handler effect.  A redraw that changes
    none of the handler effect's dependencies (a switch of the dark
    mode, a new colour) leaves the new elements with the handlers of the
    render effect.  The redraws are not part of the machine: a hover
    event names the effect that bound the handlers of its element. *)
Inductive Binding : Type :=
| RenderEffect
| HandlerEffect.

Inductive Event : Type :=
| Fire (id : nat)            (* the pending timer [id] expires *)
| FireNext                   (* the oldest pending timer expires *)
| HoverEnter (bound : Binding) (el : Element)   (* [mouseenter] *)
| HoverLeave (bound : Binding) (el : Element)   (* [mouseleave] *)
| SetAutoPlay (on : bool)    (* the autoplay switch changes *)
| Unmount.                   (* the component is torn down *)

(** The hover state set by [mouseenter]: the handlers of the handler
    effect set the phase and the index of the source node of a link or
    of a source node; those of the render effect do so on nodes only
    (its links have no [mouseenter] handler). *)
Definition hoverEnterView (bound : Binding) (el : Element) (v : View) : View :=
  match bound, el with
  | HandlerEffect, OnLink i => setHoveredSourceIndex (Some i) (setAnimationPhase highlighting v)
  | HandlerEffect, OnSourceNode i =>
      setHoveredSourceIndex (Some i) (setAnimationPhase highlighting v)
  | HandlerEffect, OnTargetNode => setAnimationPhase highlighting v
  | RenderEffect, OnLink _ => v
  | RenderEffect, OnSourceNode i =>
      setAnimationPhase highlighting (setHoveredSourceIndex (Some i) v)
  | RenderEffect, OnTargetNode => setAnimationPhase highlighting v
  end.

(** The hover state set by [mouseleave]: the handlers of the handler
    effect clear both hover indices; those of the render effect clear
    the index of the axis of their node, and on a link only the tooltip. *)
Definition hoverLeaveView (bound : Binding) (el : Element) (v : View) : View :=
  match bound, el with
  | HandlerEffect, _ => setAnimationPhase full (setHoveredSourceIndex None v)
  | RenderEffect, OnLink _ => v
  | RenderEffect, OnSourceNode _ => setAnimationPhase full (setHoveredSourceIndex None v)
  | RenderEffect, OnTargetNode => setAnimationPhase full v
  end.

Fixpoint lookupTimer (id : nat) (l : list (nat * Callback)) : option Callback :=
  match l with
  | [] => None
  | (id', cb) :: rest => if (id' =? id)%nat then Some cb else lookupTimer id rest
  end.

(** An expired timer leaves the pending list, then its callback runs. *)
Definition fire (id : nat) (st : State) : State :=
  match lookupTimer id (pending st) with
  | None => st
  | Some cb => runCallback cb (clearTimeout id st)
  end.

Definition step (st : State) (e : Event) : State :=
  match e with
  | Fire id => fire id st
  | FireNext =>
      match pending st with
      | [] => st
      | (id, _) :: _ => fire id st
      end
  | HoverEnter bound el =>
      withView (hoverEnterView bound el)
               (match bound with
                | HandlerEffect => pauseAnimation st
                | RenderEffect => st
                end)
  | HoverLeave bound el =>
      withView (hoverLeaveView bound el)
               (match bound with
                | HandlerEffect => resumeAnimation st
                | RenderEffect => st
                end)
  | SetAutoPlay on =>
      if Bool.eqb on (autoPlayOn (view st)) then st
      else effectBody (withView (setAutoPlayOn on) (cleanup st))
  | Unmount => cleanup st
  end.

Definition run (st : State) (events : list Event) : State :=
  fold_left step events st.

(** The component is mounted with autoplay enabled. *)
Definition started : State := effectBody (initialState true).
End Machine.

(** The timer that [animate] leaves pending at source index [k] of the
    first target of the first source field. *)
Definition cyclingTimer (n k : nat) : Callback :=
  if (Z.of_nat k <? Z.of_nat n - 1)%Z
  then StepTimer n
  else TargetTimer n (targetOptionsFor "years_at_medtronic").

(** The state of a sequencer that highlights source index [k] of the
    initial field pair, with its single pending timer [id], after
    [cycles] calls of [animate] that produced the highlights [shown]. *)
Definition cyclingState (n k id cycles : nat) (shown : list nat) : State :=
  mkState (mkAnim (Some id) true k 0 false cycles)
          (mkView true "years_at_medtronic" "learning_style" (Some k) highlighting false)
          [(id, cyclingTimer n k)] (S id) shown.

End Sequencer.

(** * Layout arithmetic and the chord diagram's arc sequencer *)

From Stdlib Require Import Qround Lqa.

(** ** Responsive chart sizing of the alluvial diagram

    Pixel measures are finite numbers; they are modelled as exact
    rationals.  The label widths come from the browser's
    [measureText] and are inputs here. *)
Module Sizing.

(** [Math.max] and [Math.min] on two finite numbers. *)
Definition qmax (a b : Q) : Q := if Qle_bool a b then b else a.
Definition qmin (a b : Q) : Q := if Qle_bool a b then a else b.

Definition ofNat (n : nat) : Q := inject_Z (Z.of_nat n).

Definition MIN_CHART_HEIGHT : Q := 180.
Definition MAX_CHART_HEIGHT : Q := 700.
Definition MIN_CHART_WIDTH : Q := 320.
Definition MAX_CHART_WIDTH : Q := 1400.

(** [Math.max(sources.length, targets.length, 1)]. *)
Definition nodeCount (sourcesLength targetsLength : nat) : nat :=
  Nat.max (Nat.max sourcesLength targetsLength) 1.

Definition availableHeight (containerHeight : Q) (nodeCount : nat) : Q :=
  let availableHeight :=
    qmax MIN_CHART_HEIGHT (qmin (containerHeight - 40) MAX_CHART_HEIGHT) in
  let availableHeight :=
    if (nodeCount <=? 3)%nat
    then qmax MIN_CHART_HEIGHT (qmin 320 availableHeight)
    else availableHeight in
  if (10 <=? nodeCount)%nat
  then qmin MAX_CHART_HEIGHT (qmax availableHeight 500)
  else availableHeight.

Definition minNodeHeight : Z := 16.
Definition maxNodeHeight (nodeCount : nat) : Z :=
  if (nodeCount <=? 3)%nat then 36%Z else 48%Z.
Definition minPadding : Q := 8.

Definition nodeHeight (availableHeight : Q) (nodeCount : nat) : Z :=
  let nodeHeight :=
    Qfloor ((availableHeight - (ofNat nodeCount + 1) * minPadding) / ofNat nodeCount) in
  Z.max minNodeHeight (Z.min nodeHeight (maxNodeHeight nodeCount)).

Definition nodePadding (availableHeight : Q) (nodeCount : nat) : Q :=
  let nodeHeight := nodeHeight availableHeight nodeCount in
  let nodePadding :=
    (availableHeight - ofNat nodeCount * inject_Z nodeHeight) / (ofNat nodeCount + 1) in
  qmax nodePadding minPadding.

Definition labelFontSize (nodeHeight : Z) : Z :=
  Z.max 12 (Z.min 28 (Qfloor (inject_Z nodeHeight * 0.5))).

(** [Math.max(...labelWidths, 80)]. *)
Definition maxLabelWidth (labelWidths : list Q) : Q :=
  fold_right qmax 80 labelWidths.

Definition labelPadding : Q := 24.

Definition chartWidth (containerWidth : Q) (labelWidths : list Q) (nodeCount : nat) : Q :=
  let marginLeft := maxLabelWidth labelWidths + labelPadding in
  let marginRight := maxLabelWidth labelWidths + labelPadding in
  let chartWidth :=
    qmax MIN_CHART_WIDTH
         (qmin (containerWidth - marginLeft - marginRight) MAX_CHART_WIDTH) in
  let chartWidth :=
    if (nodeCount <=? 3)%nat
    then qmax MIN_CHART_WIDTH (qmin chartWidth 480)
    else chartWidth in
  if (10 <=? nodeCount)%nat
  then qmin MAX_CHART_WIDTH (qmax chartWidth 900)
  else chartWidth.

End Sizing.

(** ** Animation timings

    [settings.autoPlaySpeed] is a finite number of milliseconds; the
    fallback [speed || d] replaces a speed of 0. *)
Module Durations.
Import Sizing.

Definition orDefault (speed fallback : Q) : Q :=
  if Qeq_bool speed 0 then fallback else speed.

Record AnimationDurations : Type := mkDurations {
  stepDuration : Q;
  pauseDuration : Q;
  categoryPauseDuration : Q;
  linkTransitionDuration : Q
}.

(** [animationDurations] of the alluvial diagram. *)
Definition animationDurations (autoPlaySpeed : Q) (prefersReducedMotion : bool)
  : AnimationDurations :=
  let baseSpeed := orDefault autoPlaySpeed 3000 in
  let reductionFactor : Q := if prefersReducedMotion then 0.5 else 1 in
  mkDurations (qmax 800 ((baseSpeed / 8) * reductionFactor))
              (qmax 400 ((baseSpeed / 12) * reductionFactor))
              (qmax 1500 ((baseSpeed / 3) * reductionFactor))
              (if prefersReducedMotion then 400 else 750).

(** The delays of the alluvial sequencer's timers. *)
Definition stepTimeout (d : AnimationDurations) : Q := stepDuration d + pauseDuration d.
Definition categoryTimeout (d : AnimationDurations) : Q := categoryPauseDuration d.
Definition targetFollowUp (d : AnimationDurations) : Q := categoryPauseDuration d.
Definition sourceFollowUp (d : AnimationDurations) : Q := categoryPauseDuration d * 1.5.

(** The chord diagram: the interval of the mode rotation and the
    timings of the arc highlighting. *)
Definition chordInterval (autoPlaySpeed : Q) : Q := orDefault autoPlaySpeed 6000.
Definition chordStepDuration (autoPlaySpeed : Q) : Q :=
  qmax 1500 (orDefault autoPlaySpeed 3000 / 3).
Definition chordPauseDuration (autoPlaySpeed : Q) : Q :=
  qmax 300 (chordStepDuration autoPlaySpeed / 5).
Definition chordStepTimeout (autoPlaySpeed : Q) : Q :=
  chordStepDuration autoPlaySpeed + chordPauseDuration autoPlaySpeed.
Definition chordRestartTimeout (autoPlaySpeed : Q) : Q :=
  chordStepDuration autoPlaySpeed * 2.

End Durations.

(** ** The chord diagram's arc highlighting

    The main arc animation of [ChordDiagram.tsx]: the [animate] closure
    of the highlighting effect, its three timer callbacks, the effect
    body and cleanup, and [pauseAnimation] / [resumeAnimation] with the
    [restartMainAnimation] chain.  Timers are modelled as in the
    alluvial sequencer: an explicit list of pending timers, and the id
    that [animationRef.current.timer] holds. *)
Module ChordArcs.

Inductive Side : Type := left | right.
Inductive Phase : Type := full | highlighting | transitioning.

(** [allCategories[field] || []] of the [animate] closure. *)
Definition allCategories (field : string) : list string :=
  if field =? "years_at_medtronic" then ["0-5"; "6-10"; "11-15"; "16-20"; "20+"]
  else if field =? "learning_style"
       then ["visual"; "auditory"; "kinesthetic"; "reading_writing"]
  else if field =? "shaped_by"
       then ["mentor"; "challenge"; "failure"; "success"; "team"; "other"]
  else if field =? "peak_performance"
       then ["Extrovert, Morning"; "Extrovert, Evening"; "Introvert, Morning";
             "Introvert, Night"; "Ambivert, Morning"; "Ambivert, Night"]
  else if field =? "motivation"
       then ["impact"; "growth"; "recognition"; "autonomy"; "purpose"]
  else [].

(** The callbacks handed to [setTimeout].  Those of [animate] remember
    the field pair of the effect run that created the closure (the
    effect does not depend on the pair); the one of
    [restartMainAnimation] remembers the side length computed when it
    was scheduled and the lengths of [leftValues] and [rightValues] of
    the [resumeAnimation] closure. *)
Inductive Callback : Type :=
| StepTimer (source target : string)
| SwitchTimer (source target : string)
| RestartTimer (source target : string)
| ResumeTimer (currentSideLength leftLength rightLength : nat).

(** [animationRef.current]. *)
Record Anim : Type := mkAnim {
  timer : option nat;
  running : bool;
  currentIndex : nat;
  currentSide : Side;
  isPaused : bool;
  cycleCount : nat
}.

Record View : Type := mkView {
  animationPhase : Phase;
  highlightedArcIndex : option nat;
  highlightedSide : option Side
}.

Record State : Type := mkState {
  anim : Anim;
  view : View;
  pending : list (nat * Callback);
  nextTimerId : nat;
  (** the arcs passed to [setHighlightedSide] and [setHighlightedArcIndex]
      by the animation, oldest first *)
  trace : list (Side * nat)
}.

Definition initialState : State :=
  mkState (mkAnim None false 0 left false 0) (mkView full None None) [] 1 [].

Definition withAnim (f : Anim -> Anim) (st : State) : State :=
  mkState (f (anim st)) (view st) (pending st) (nextTimerId st) (trace st).

Definition setTimer (t : option nat) (a : Anim) : Anim :=
  mkAnim t (running a) (currentIndex a) (currentSide a) (isPaused a) (cycleCount a).
Definition setRunning (b : bool) (a : Anim) : Anim :=
  mkAnim (timer a) b (currentIndex a) (currentSide a) (isPaused a) (cycleCount a).
Definition setIndex (i : nat) (a : Anim) : Anim :=
  mkAnim (timer a) (running a) i (currentSide a) (isPaused a) (cycleCount a).
Definition setSide (s : Side) (a : Anim) : Anim :=
  mkAnim (timer a) (running a) (currentIndex a) s (isPaused a) (cycleCount a).
Definition setPaused (b : bool) (a : Anim) : Anim :=
  mkAnim (timer a) (running a) (currentIndex a) (currentSide a) b (cycleCount a).
Definition setCycleCount (c : nat) (a : Anim) : Anim :=
  mkAnim (timer a) (running a) (currentIndex a) (currentSide a) (isPaused a) c.

(** [setAnimationPhase('highlighting'); setHighlightedArcIndex(i);
    setHighlightedSide(side)]. *)
Definition highlight (st : State) : State :=
  let i := currentIndex (anim st) in
  let side := currentSide (anim st) in
  mkState (anim st) (mkView highlighting (Some i) (Some side))
          (pending st) (nextTimerId st) (trace st ++ [(side, i)]).

(** [setAnimationPhase('full'); setHighlightedArcIndex(null);
    setHighlightedSide(null)]. *)
Definition showFull (st : State) : State :=
  mkState (anim st) (mkView full None None) (pending st) (nextTimerId st) (trace st).

(** [animationRef.current.timer = setTimeout(cb, ...)]. *)
Definition scheduleTracked (cb : Callback) (st : State) : State :=
  mkState (setTimer (Some (nextTimerId st)) (anim st)) (view st)
          (pending st ++ [(nextTimerId st, cb)]) (S (nextTimerId st)) (trace st).

Definition clearTimeout (id : nat) (st : State) : State :=
  mkState (anim st) (view st)
          (filter (fun p => negb (fst p =? id)%nat) (pending st))
          (nextTimerId st) (trace st).

(** [if (ref.timer) { clearTimeout(ref.timer); ref.timer = null; }]. *)
Definition clearTracked (st : State) : State :=
  match timer (anim st) with
  | Some id => withAnim (setTimer None) (clearTimeout id st)
  | None => st
  end.

Definition sideLength (side : Side) (leftLength rightLength : nat) : nat :=
  match side with left => leftLength | right => rightLength end.

(** [animate] of the effect run that saw the pair [source], [target]. *)
Definition animate (source target : string) (st : State) : State :=
  if negb (running (anim st)) || isPaused (anim st) then st
  else
    let leftValues := allCategories source in
    let rightValues := allCategories target in
    let currentSideLength :=
      sideLength (currentSide (anim st)) (List.length leftValues)
                 (List.length rightValues) in
    let st1 :=
      if (currentSideLength <=? currentIndex (anim st))%nat
      then withAnim (setIndex 0) st
      else st in
    let st2 := highlight st1 in
    if (Z.of_nat (currentIndex (anim st2)) <? Z.of_nat currentSideLength - 1)%Z
    then scheduleTracked (StepTimer source target) st2
    else scheduleTracked (SwitchTimer source target) st2.

(** [restartMainAnimation] of a [resumeAnimation] closure whose
    [leftValues] and [rightValues] have the given lengths. *)
Definition restartMainAnimation (leftLength rightLength : nat) (st : State) : State :=
  if negb (running (anim st)) || isPaused (anim st) then st
  else
    let st1 := highlight st in
    let currentSideLength :=
      sideLength (currentSide (anim st1)) leftLength rightLength in
    scheduleTracked (ResumeTimer currentSideLength leftLength rightLength) st1.

(** The body of a timer callback. *)
Definition runCallback (cb : Callback) (st : State) : State :=
  match cb with
  | StepTimer source target =>
      if running (anim st) && negb (isPaused (anim st))
      then animate source target
                   (withAnim (fun a => setIndex (S (currentIndex a)) a) st)
      else st
  | SwitchTimer source target =>
      if running (anim st) && negb (isPaused (anim st))
      then
        match currentSide (anim st) with
        | left =>
            animate source target
                    (withAnim (fun a => setIndex 0 (setSide right a)) st)
        | right =>
            let st1 := withAnim (fun a => setCycleCount (S (cycleCount a)) a) st in
            scheduleTracked (RestartTimer source target) (showFull st1)
        end
      else st
  | RestartTimer source target =>
      if running (anim st) && negb (isPaused (anim st))
      then animate source target
                   (withAnim (fun a => setIndex 0 (setSide left a)) st)
      else st
  | ResumeTimer currentSideLength leftLength rightLength =>
      if running (anim st) && negb (isPaused (anim st))
      then
        let st1 :=
          if (Z.of_nat (currentIndex (anim st)) <? Z.of_nat currentSideLength - 1)%Z
          then withAnim (fun a => setIndex (S (currentIndex a)) a) st
          else
            match currentSide (anim st) with
            | left => withAnim (fun a => setIndex 0 (setSide right a)) st
            | right => withAnim (fun a => setIndex 0 (setSide left a)) st
            end in
        restartMainAnimation leftLength rightLength st1
      else st
  end.

(** The cleanup of the highlighting effect. *)
Definition cleanup (st : State) : State :=
  showFull (withAnim (setRunning false) (clearTracked st)).

(** The body of the highlighting effect; [enabled] is
    [autoPlay && settings.isAutoPlayEnabled && data.length]. *)
Definition effectBody (enabled : bool) (source target : string) (st : State) : State :=
  if negb enabled then
    withAnim (setRunning false) (clearTracked (showFull st))
  else if negb (running (anim st)) then
    animate source target
            (withAnim (fun a => setPaused false (setSide left (setIndex 0 (setRunning true a))))
                      st)
  else st.

(** [pauseAnimation] and [resumeAnimation], main animation. *)
Definition pauseAnimation (st : State) : State :=
  if running (anim st) && negb (isPaused (anim st))
  then clearTracked (withAnim (setPaused true) st)
  else st.

Definition resumeAnimation (leftLength rightLength : nat) (st : State) : State :=
  if running (anim st) && isPaused (anim st)
  then restartMainAnimation leftLength rightLength (withAnim (setPaused false) st)
  else st.

Inductive Event : Type :=
| Fire (id : nat)                  (* the pending timer [id] expires *)
| FireNext                         (* the oldest pending timer expires *)
| Pause                            (* a hover handler calls [pauseAnimation] *)
| Resume (leftLength rightLength : nat)  (* ... and [resumeAnimation] *)
| Rerun (enabled : bool) (source target : string)
                                   (* a dependency of the effect changes *)
| Unmount.

Fixpoint lookupTimer (id : nat) (l : list (nat * Callback)) : option Callback :=
  match l with
  | [] => None
  | (id', cb) :: rest => if (id' =? id)%nat then Some cb else lookupTimer id rest
  end.

(** An expired timer leaves the pending list, then its callback runs. *)
Definition fire (id : nat) (st : State) : State :=
  match lookupTimer id (pending st) with
  | None => st
  | Some cb => runCallback cb (clearTimeout id st)
  end.

(** A change of a dependency runs the cleanup of the previous effect run,
    then the body.  A run that found the highlighting disabled registers
    no cleanup; the cleanup would change nothing then, since that run
    has already stopped the animation and shown the full diagram. *)
Definition step (st : State) (e : Event) : State :=
  match e with
  | Fire id => fire id st
  | FireNext =>
      match pending st with
      | [] => st
      | (id, _) :: _ => fire id st
      end
  | Pause => pauseAnimation st
  | Resume leftLength rightLength => resumeAnimation leftLength rightLength st
  | Rerun enabled source target => effectBody enabled source target (cleanup st)
  | Unmount => cleanup st
  end.

Definition run (st : State) (events : list Event) : State :=
  fold_left step events st.

(** The component is mounted with the highlighting enabled. *)
Definition started (source target : string) : State :=
  effectBody true source target initialState.

(** Every pending timer is the one held in [animationRef.current.timer]. *)
Definition allTracked (st : State) : Prop :=
  pending st = []
  \/ exists id cb, pending st = [(id, cb)] /\ timer (anim st) = Some id.

(** The timer that [animate] leaves pending at index [i] of a side of
    length [len]. *)
Definition arcTimer (source target : string) (len i : nat) : Callback :=
  if (Z.of_nat i <? Z.of_nat len - 1)%Z
  then StepTimer source target
  else SwitchTimer source target.

(** The state of an animation that highlights arc [i] of [side], with
    its single pending timer [id], after [cycles] completed cycles and
    the highlights [shown]. *)
Definition arcState (source target : string) (side : Side) (i id cycles : nat)
           (shown : list (Side * nat)) : State :=
  mkState (mkAnim (Some id) true i side false cycles)
          (mkView highlighting (Some i) (Some side))
          [(id,
            arcTimer source target
                     (sideLength side (List.length (allCategories source))
                                 (List.length (allCategories target))) i)]
          (S id) shown.

End ChordArcs.

(** ** The chord diagram's render data

    The arcs, totals, connection matrix and ribbons computed by the main
    render effect of [ChordDiagram.tsx].  Angles, radii and colours are
    floating-point or DOM values and are left out; what is kept is which
    arc each ribbon is attached to and what it counts. *)
Module ChordRender.
Import Alluvial.

(** [a === b] on the values at hand. *)
Definition strict_equal (a b : jsval) : bool :=
  match a, b with
  | VNum NaN, VNum NaN => false
  | _, _ => same_value_zero a b
  end.

Definition YEARS_GROUPS : list string := ["0-5"; "6-10"; "11-15"; "16-20"; "20+"].

Record Arc : Type := mkArc {
  arc_name : jsval;
  arc_value : nat
}.

Record Connection : Type := mkConnection {
  sourceIndex : nat;
  targetIndex : nat;
  connection_value : nat;
  connection_left : Arc;
  connection_right : Arc
}.

Section Render.
(** [getYearsCategory] is imported from [./shared/colorUtils], which is
    not part of the sources at hand. *)
Variable getYearsCategory : jsval -> string.
Variable filteredData : list SurveyResponse.

(** The value of a row on an axis, as the totals, the matrix and the
    arcs read it. *)
Definition rowValue (field : string) (d : SurveyResponse) : jsval :=
  if field =? "years_at_medtronic"
  then VStr (getYearsCategory (or_else (years_at_medtronic d) (num 0)))
  else getField d field.

(** [leftValues] / [rightValues]: the values that get an arc. *)
Definition sideValues (field : string) : list jsval :=
  if field =? "years_at_medtronic"
  then map VStr YEARS_GROUPS
  else filter truthy (set_from (map (fun d => getField d field) filteredData)).

(** [sourceArray] / [targetArray]: the categories that index the totals
    and the matrix, sorted.  The entries are strings for string-valued
    columns; other values would be compared by their string form. *)
Definition sideArray (field : string) : list string :=
  sort_strings
    (map as_string
         (set_from
            (map (fun d =>
                    if field =? "years_at_medtronic"
                    then VStr (getYearsCategory (or_else (years_at_medtronic d) (num 0)))
                    else or_else (getField d field) (VStr "Unknown"))
                 filteredData))).

(** [leftTotals] / [rightTotals]. *)
Definition sideTotals (field : string) : list nat :=
  map (fun cat =>
         List.length
           (filter (fun d => strict_equal (rowValue field d) (VStr cat)) filteredData))
      (sideArray field).

(** [leftTotalSum] / [rightTotalSum]. *)
Definition sideTotalSum (field : string) : nat :=
  fold_left (fun sum val => (sum + val)%nat) (sideTotals field) 0%nat.

Definition connectionMatrix (currentSource currentTarget : string) : list (list nat) :=
  map (fun sourceCat =>
         map (fun targetCat =>
                List.length
                  (filter (fun d =>
                             strict_equal (rowValue currentSource d) (VStr sourceCat)
                             && strict_equal (rowValue currentTarget d) (VStr targetCat))
                          filteredData))
             (sideArray currentTarget))
      (sideArray currentSource).

(** [leftArcs] / [rightArcs], without their angles and colours. *)
Definition sideArcs (field : string) : list Arc :=
  map (fun value =>
         mkArc value
               (List.length
                  (filter (fun d => strict_equal (rowValue field d) value) filteredData)))
      (sideValues field).

(** The loop that collects the ribbons.  Reading [leftSeg.startAngle] of
    a missing arc throws a [TypeError], which ends the effect: [None]. *)
Fixpoint collect (matrix : list (list nat)) (leftArcs rightArcs : list Arc)
         (cells : list (nat * nat)) : option (list Connection) :=
  match cells with
  | [] => Some []
  | (i, j) :: rest =>
      let value := nth j (nth i matrix []) 0%nat in
      if (0 <? value)%nat then
        match nth_error leftArcs i, nth_error rightArcs j with
        | Some leftSeg, Some rightSeg =>
            match collect matrix leftArcs rightArcs rest with
            | Some connections =>
                Some (mkConnection i j value leftSeg rightSeg :: connections)
            | None => None
            end
        | _, _ => None
        end
      else collect matrix leftArcs rightArcs rest
  end.

Definition connections (currentSource currentTarget : string)
  : option (list Connection) :=
  collect (connectionMatrix currentSource currentTarget)
          (sideArcs currentSource) (sideArcs currentTarget)
          (list_prod (seq 0 (List.length (sideArray currentSource)))
                     (seq 0 (List.length (sideArray currentTarget)))).

End Render.

(** *** The secondary chord: years against peak performance *)

(** [arr.map((x, index) => f(x, index))]. *)
Definition mapIndexed {A B : Type} (f : A -> nat -> B) (l : list A) : list B :=
  map (fun p => f (snd p) (fst p)) (combine (seq 0 (List.length l)) l).

Section Secondary.
Variable getYearsCategory : jsval -> string.
Variable filteredData : list SurveyResponse.

Definition secondaryData : list SurveyResponse :=
  filter (fun d => truthy (peak_performance d)) filteredData.

Definition yearsCategories : list string := ["0-5"; "6-10"; "11-15"; "16-20"; "20+"].

(** [Array.from(new Set(...)).filter(Boolean).sort()]; the entries are
    strings for a string-valued column. *)
Definition peakPerfCategories : list string :=
  sort_strings
    (map as_string
         (filter truthy (set_from (map (fun d => peak_performance d) secondaryData)))).

Definition allCategories : list string := yearsCategories ++ peakPerfCategories.

(** The bipartite matrix handed to [d3.chord]; nothing is drawn, and no
    matrix is built, with fewer than five rows. *)
Definition secondaryMatrix : option (list (list nat)) :=
  if (List.length secondaryData <? 5)%nat then None
  else
    Some
      (mapIndexed
         (fun sourceCategory sourceIndex =>
            mapIndexed
              (fun targetCategory targetIndex =>
                 let sourceIsYears := (sourceIndex <? List.length yearsCategories)%nat in
                 let targetIsYears := (targetIndex <? List.length yearsCategories)%nat in
                 if Bool.eqb sourceIsYears targetIsYears then 0%nat
                 else
                   let yearsCat :=
                     if sourceIsYears then sourceCategory else targetCategory in
                   let perfCat :=
                     if sourceIsYears then targetCategory else sourceCategory in
                   List.length
                     (filter
                        (fun d =>
                           strict_equal
                             (VStr (getYearsCategory
                                      (or_else (years_at_medtronic d) (num 0))))
                             (VStr yearsCat)
                           && strict_equal (peak_performance d) (VStr perfCat))
                        secondaryData))
              allCategories)
         allCategories).

End Secondary.

(** A column holds labels: every value is a string, [null] or
    [undefined]. *)
Definition labelColumn (field : string) (rows : list SurveyResponse) : bool :=
  forallb (fun d =>
             match getField d field with
             | VStr _ | VNull | VUndefined => true
             | _ => false
             end) rows.

End ChordRender.

(** ** Colour settings

    The colour part of the application context ([AppContext]) and the
    chord diagram's [getNodeColor].  A JavaScript object is an
    association list from keys to values; a key that is not an own
    property may still name a member inherited from [Object.prototype]. *)
Module AppContext.

Definition Obj (A : Type) : Type := list (string * A).

(** An own property. *)
Fixpoint own {A : Type} (k : string) (o : Obj A) : option A :=
  match o with
  | [] => None
  | (k', v) :: rest => if k' =? k then Some v else own k rest
  end.

(** [{ ...o, [k]: v }]: an own key keeps its place, a new one is added
    at the end. *)
Fixpoint assign {A : Type} (k : string) (v : A) (o : Obj A) : Obj A :=
  match o with
  | [] => [(k, v)]
  | (k', v') :: rest =>
      if k' =? k then (k, v) :: rest else (k', v') :: assign k v rest
  end.

(** The names that every object inherits from [Object.prototype]. *)
Definition objectPrototypeKeys : list string :=
  ["constructor"; "__proto__"; "hasOwnProperty"; "isPrototypeOf";
   "propertyIsEnumerable"; "toLocaleString"; "toString"; "valueOf";
   "__defineGetter__"; "__defineSetter__"; "__lookupGetter__"; "__lookupSetter__"].

(** The result of reading [o[k]] on an object of colours. *)
Inductive Member : Type :=
| Own (color : string)
| Inherited
| Missing.

Definition get (o : Obj string) (k : string) : Member :=
  match own k o with
  | Some color => Own color
  | None => if existsb (String.eqb k) objectPrototypeKeys then Inherited else Missing
  end.

Definition CategoryColors : Type := Obj (Obj string).

Record ThemeAwareColors : Type := mkThemeColors {
  light : CategoryColors;
  dark : CategoryColors
}.

Record VisualizationSettings : Type := mkSettings {
  categoryColors : ThemeAwareColors;
  isDarkMode : bool;
  useTestData : bool;
  autoPlaySpeed : Q;
  isAutoPlayEnabled : bool
}.

Inductive Theme : Type := ThemeLight | ThemeDark.

Definition defaultLightColors : CategoryColors :=
  [("years_at_medtronic",
    [("0-5", "#74b9ff"); ("6-10", "#55a3ff"); ("11-15", "#3498db");
     ("16-20", "#2980b9"); ("20+", "#fdcb6e")]);
   ("peak_performance",
    [("Extrovert, Morning", "#27ae60"); ("Extrovert, Evening", "#16a085");
     ("Introvert, Morning", "#f39c12"); ("Introvert, Night", "#c0392b");
     ("Ambivert, Morning", "#2980b9"); ("Ambivert, Night", "#8e44ad")]);
   ("learning_style",
    [("visual", "#00cec9"); ("auditory", "#fd79a8"); ("kinesthetic", "#fdcb6e");
     ("reading_writing", "#74b9ff")]);
   ("motivation",
    [("impact", "#00b894"); ("growth", "#6c5ce7"); ("recognition", "#fdcb6e");
     ("autonomy", "#fd79a8"); ("purpose", "#00cec9")]);
   ("shaped_by",
    [("mentor", "#e17055"); ("challenge", "#6c5ce7"); ("failure", "#d63031");
     ("success", "#fdcb6e"); ("team", "#00b894"); ("other", "#636e72")])].

Definition defaultDarkColors : CategoryColors :=
  [("years_at_medtronic",
    [("0-5", "#8ac4ff"); ("6-10", "#75b3ff"); ("11-15", "#5aa8eb");
     ("16-20", "#4a90c9"); ("20+", "#fddb8e")]);
   ("peak_performance",
    [("Extrovert, Morning", "#2ecc71"); ("Extrovert, Evening", "#1abc9c");
     ("Introvert, Morning", "#f1c40f"); ("Introvert, Night", "#e74c3c");
     ("Ambivert, Morning", "#3498db"); ("Ambivert, Night", "#9b59b6")]);
   ("learning_style",
    [("visual", "#00d4cf"); ("auditory", "#fd8bb8"); ("kinesthetic", "#fddb8e");
     ("reading_writing", "#8ac4ff")]);
   ("motivation",
    [("impact", "#00d4a4"); ("growth", "#7c6cf7"); ("recognition", "#fddb8e");
     ("autonomy", "#fd8bb8"); ("purpose", "#00d4cf")]);
   ("shaped_by",
    [("mentor", "#e17a65"); ("challenge", "#7c6cf7"); ("failure", "#e74c3c");
     ("success", "#fddb8e"); ("team", "#00d4a4"); ("other", "#7c8c8c")])].

Definition defaultSettings : VisualizationSettings :=
  mkSettings (mkThemeColors defaultLightColors defaultDarkColors)
             false true 5000 true.

Definition themeOf (colors : ThemeAwareColors) (theme : Theme) : CategoryColors :=
  match theme with ThemeLight => light colors | ThemeDark => dark colors end.

(** [{ ...prev.categoryColors[targetTheme][category] }]: the spread of a
    missing category is empty. *)
Definition categoryOf (colors : CategoryColors) (category : string) : Obj string :=
  match own category colors with Some o => o | None => [] end.

(** [updateCategoryColor] as created by the render whose state is
    [settings].  The target theme is computed when the callback is
    called, from the given theme or from the closure's
    [settings.isDarkMode]; the updater passed to [setSettings] is applied
    by React to [prev], the state at the time of the update, which is
    not [settings] when another update was queued before this one. *)
Definition updateCategoryColor (settings : VisualizationSettings)
           (category answer color : string) (theme : option Theme)
           (prev : VisualizationSettings) : VisualizationSettings :=
  let targetTheme :=
    match theme with
    | Some t => t
    | None => if isDarkMode settings then ThemeDark else ThemeLight
    end in
  let themeColors := themeOf (categoryColors prev) targetTheme in
  let updated :=
    assign category (assign answer color (categoryOf themeColors category))
           themeColors in
  mkSettings
    (match targetTheme with
     | ThemeLight => mkThemeColors updated (dark (categoryColors prev))
     | ThemeDark => mkThemeColors (light (categoryColors prev)) updated
     end)
    (isDarkMode prev) (useTestData prev) (autoPlaySpeed prev) (isAutoPlayEnabled prev).

Definition toggleDarkMode (prev : VisualizationSettings) : VisualizationSettings :=
  mkSettings (categoryColors prev) (negb (isDarkMode prev)) (useTestData prev)
             (autoPlaySpeed prev) (isAutoPlayEnabled prev).

Definition getCurrentThemeColors (settings : VisualizationSettings) : CategoryColors :=
  if isDarkMode settings then dark (categoryColors settings)
  else light (categoryColors settings).

(** What [getNodeColor] of the chord diagram returns: a colour string,
    or a member of [Object.prototype] when the node name is one of its
    keys and not an own colour. *)
Inductive NodeColor : Type :=
| Color (c : string)
| PrototypeMember.

(** [themeColors[category]?.[nodeName] || fallback]. *)
Definition colorOr (themeColors : CategoryColors) (category nodeName fallback : string)
  : NodeColor :=
  match own category themeColors with
  | None => Color fallback
  | Some colors =>
      match get colors nodeName with
      | Own c => if c =? "" then Color fallback else Color c
      | Inherited => PrototypeMember
      | Missing => Color fallback
      end
  end.

Definition getNodeColor (nodeName category : string) (globalColors : ThemeAwareColors)
           (isDarkMode : bool) : NodeColor :=
  let themeColors := if isDarkMode then dark globalColors else light globalColors in
  if category =? "years_at_medtronic"
  then colorOr themeColors "years_at_medtronic" nodeName "#FF6B6B"
  else if category =? "learning_style"
  then colorOr themeColors "learning_style" nodeName "#60a5fa"
  else if category =? "peak_performance"
  then colorOr themeColors "peak_performance" nodeName "#4F8EF7"
  else if category =? "motivation"
  then colorOr themeColors "motivation" nodeName "#9467bd"
  else if category =? "shaped_by"
  then colorOr themeColors "shaped_by" nodeName "#1f77b4"
  else Color "#8884d8".

(** The five categories that [getNodeColor] knows. *)
Definition colorCategories : list string :=
  ["years_at_medtronic"; "learning_style"; "peak_performance"; "motivation";
   "shaped_by"].

End AppContext.

(** ** Phases of the alluvial sequencer *)
Module SequencerPhases.
Import Sequencer.

(** The timer that [animate] leaves pending at source index [k] of the
    target with index [ti], in a closure with [n] source nodes. *)
Definition phaseTimer (source : string) (n ti k : nat) : Callback :=
  if (Z.of_nat k <? Z.of_nat n - 1)%Z then StepTimer n
  else if (Z.of_nat ti <? Z.of_nat (List.length (targetOptionsFor source)) - 1)%Z
       then TargetTimer n (targetOptionsFor source)
       else SourceTimer n.

(** The state of a sequencer that highlights source index [k] while the
    target with index [ti] of [source] is on display, with its single
    pending timer [id], after [cycles] calls of [animate] that produced
    the highlights [shown]. *)
Definition phaseState (source : string) (n ti k id cycles : nat) (shown : list nat)
  : State :=
  mkState (mkAnim (Some id) true k ti false cycles)
          (mkView true source (nth ti (targetOptionsFor source) "undefined")
                  (Some k) highlighting false)
          [(id, phaseTimer source n ti k)] (S id) shown.

End SequencerPhases.

(** ** Concrete runs *)

(** Modelled from the spec: [getYearsCategory] of [./shared/colorUtils] is
    not part of the sources at hand; wherever a concrete run of the render
    effect is evaluated, the years-bucketing rule of the specification
    stands in for it. *)
Definition getYearsCategory (years : jsval) : string := years_bucket_rule years.

Module Samples.
Import Alluvial.

(** A row with a years value and a learning style; the other columns are
    [null]. *)
Definition row (years : Z) (style : string) : SurveyResponse :=
  mkResponse (num years) (VStr style) VNull VNull VNull (VBool false).

(** The ten rows of the end-to-end scenario. *)
Definition scenario : list SurveyResponse :=
  [row 2 "visual"; row 2 "visual"; row 7 "auditory"; row 7 "auditory";
   row 7 "visual"; row 12 "visual"; row 22 "kinesthetic"; row 22 "visual";
   row 22 "visual"; row 22 "auditory"].

(** The same rows delivered in the opposite order. *)
Definition scenarioReversed : list SurveyResponse := rev scenario.

(** A row with a learning style and a motivation (either may be missing). *)
Definition styleRow (style motive : jsval) : SurveyResponse :=
  mkResponse (num 3) style VNull VNull motive (VBool false).

Definition twoStyles : list SurveyResponse :=
  [styleRow (VStr "visual") (VStr "growth");
   styleRow (VStr "auditory") (VStr "impact")].

(** The second row has no motivation. *)
Definition missingMotivation : list SurveyResponse :=
  [styleRow (VStr "visual") (VStr "growth");
   styleRow (VStr "auditory") VNull].

(** A rotation whose second mode pairs a field with itself. *)
Definition selfPairModes : list Chord.Mode :=
  [Chord.mkMode "years_at_medtronic" "learning_style";
   Chord.mkMode "learning_style" "learning_style";
   Chord.mkMode "learning_style" "motivation"].

Definition firstMode : Chord.CycleState :=
  Chord.mkCycle 0 "years_at_medtronic" "learning_style".

(** A single row: a learning style and no years value. *)
Definition nullYears : list SurveyResponse :=
  [mkResponse VNull (VStr "visual") VNull VNull VNull (VBool false)].

(** A display with a single source node and ten rows. *)
Definition oneSource (field : string) : nat := 1.

(** The first target switch has fired (its follow-up timer is pending)
    when autoplay is switched off. *)
Definition stoppedAfterSwitch : Sequencer.State :=
  Sequencer.run oneSource 10 (Sequencer.started oneSource 10)
                [Sequencer.FireNext; Sequencer.SetAutoPlay false].

(** Autoplay is switched on again before the follow-up timer expires. *)
Definition restartedAfterSwitch : Sequencer.State :=
  Sequencer.run oneSource 10 stoppedAfterSwitch [Sequencer.SetAutoPlay true].

End Samples.

(** ** Further concrete runs *)
Module MoreSamples.
Import Alluvial.

(** A test row in the middle of the scenario. *)
Definition testRow : SurveyResponse :=
  mkResponse (num 17) (VStr "reading_writing") VNull VNull VNull (VBool true).

(** A rotation of three distinct, well-formed modes. *)
Definition threeModes : list Chord.Mode :=
  [Chord.mkMode "years_at_medtronic" "learning_style";
   Chord.mkMode "learning_style" "motivation";
   Chord.mkMode "shaped_by" "peak_performance"].

(** Five rows with a peak-performance value. *)
Definition perfRow (years : Z) (perf : string) : SurveyResponse :=
  mkResponse (num years) VNull VNull (VStr perf) VNull (VBool false).

Definition fivePerf : list SurveyResponse :=
  [perfRow 2 "Introvert, Night"; perfRow 7 "Extrovert, Morning";
   perfRow 12 "Introvert, Night"; perfRow 3 "Ambivert, Night";
   perfRow 25 "Extrovert, Morning"].

(** A display with three source nodes for every field. *)
Definition threeSources (field : string) : nat := 3.


End MoreSamples.

(** * Properties *)

(** ** Category normalizer *)

Lemma Qle_bool_inject_Z (a b : Z) :
  Qle_bool (inject_Z a) (inject_Z b) = (a <=? b)%Z.
Proof.
  unfold Qle_bool, inject_Z; simpl. now rewrite !Z.mul_1_r.
Qed.

Lemma getValidYearsCategory_int (n : Z) :
  getValidYearsCategory (num n) =
  if (n <? 0)%Z then "0-5"
  else if (n <=? 5)%Z then "0-5"
  else if (n <=? 10)%Z then "6-10"
  else if (n <=? 15)%Z then "11-15"
  else if (n <=? 20)%Z then "16-20"
  else "20+".
Proof.
  unfold getValidYearsCategory, num, num_lt, num_le, isNaN.
  change 0%Q with (inject_Z 0).
  change 5%Q with (inject_Z 5); change 10%Q with (inject_Z 10).
  change 15%Q with (inject_Z 15); change 20%Q with (inject_Z 20).
  rewrite !Qle_bool_inject_Z. simpl orb.
  rewrite Z.ltb_antisym. reflexivity.
Qed.

Lemma years_bucket_rule_int (n : Z) :
  years_bucket_rule (num n) =
  if (21 <=? n)%Z then "20+"
  else if (16 <=? n)%Z then "16-20"
  else if (11 <=? n)%Z then "11-15"
  else if (6 <=? n)%Z then "6-10"
  else "0-5".
Proof.
  unfold years_bucket_rule, num.
  change 21%Q with (inject_Z 21); change 16%Q with (inject_Z 16).
  change 11%Q with (inject_Z 11); change 6%Q with (inject_Z 6).
  now rewrite !Qle_bool_inject_Z.
Qed.

(** On whole numbers of years the upper-bound tests of the code and the
    lower-bound reading of the rule agree. *)
Lemma getValidYearsCategory_refines_rule (n : Z) :
  getValidYearsCategory (num n) = years_bucket_rule (num n).
Proof.
  rewrite getValidYearsCategory_int, years_bucket_rule_int.
  destruct (Z.ltb_spec n 0); repeat
    match goal with
    | |- context [(?a <=? ?b)%Z] => destruct (Z.leb_spec a b)
    end; try reflexivity; lia.
Qed.

Lemma getValidYearsCategory_negative (q : Q) :
  (q < 0)%Q -> getValidYearsCategory (VNum (Fin q)) = "0-5".
Proof.
  intros Hq. unfold getValidYearsCategory, num_lt. simpl isNaN. simpl orb.
  destruct (Qle_bool 0 q) eqn:E; [|reflexivity].
  apply Qle_bool_iff in E. exfalso. apply (Qlt_not_le _ _ Hq E).
Qed.

Lemma getValidYearsCategory_in_catalog (v : jsval) :
  In (getValidYearsCategory v) YEARS_CATEGORIES.
Proof.
  unfold getValidYearsCategory, YEARS_CATEGORIES.
  destruct v as [| | b | n | s]; simpl; auto.
  repeat match goal with
         | |- context [if ?c then _ else _] => destruct c
         end; simpl; auto 10.
Qed.

(** The code tests the upper bound of each bucket, on every number. *)
Lemma getValidYearsCategory_fin (q : Q) :
  (0 <= q)%Q ->
  getValidYearsCategory (VNum (Fin q))
  = if Qle_bool q 5 then "0-5"
    else if Qle_bool q 10 then "6-10"
    else if Qle_bool q 15 then "11-15"
    else if Qle_bool q 20 then "16-20"
    else "20+".
Proof.
  intros Hq. unfold getValidYearsCategory, num_lt, num_le, isNaN.
  apply Qle_bool_iff in Hq. rewrite Hq. reflexivity.
Qed.

(** On fractional values the buckets are closed at their upper bound:
    5.5 belongs to "6-10". *)
Example getValidYearsCategory_between_buckets :
  getValidYearsCategory (VNum (Fin (11 # 2))) = "6-10".
Proof. reflexivity. Qed.

(** C3, as stated, fails: the lower-bound reading of the rule leaves
    5.5 in "0-5" (it has not reached 6), where the code, which tests the
    upper bounds, returns "6-10".  The same holds at 20.5. *)
Lemma years_bucketing_counterexample :
  years_bucket_rule (VNum (Fin (11 # 2))) = "0-5"
  /\ getValidYearsCategory (VNum (Fin (11 # 2))) = "6-10"
  /\ getValidYearsCategory (VNum (Fin (11 # 2)))
     <> years_bucket_rule (VNum (Fin (11 # 2)))
  /\ getValidYearsCategory (VNum (Fin (41 # 2)))
     <> years_bucket_rule (VNum (Fin (41 # 2))).
Proof. repeat split; discriminate. Qed.

(** C3, amended -- years bucketing.  The normalizer applies fixed
    breakpoints that are inclusive at the upper bound of each bucket: a
    number from 0 to 5 goes to "0-5", one above 5 and up to 10 to "6-10",
    above 10 and up to 15 to "11-15", above 15 and up to 20 to "16-20",
    and anything above 20 (infinity included) to "20+".  So 0 and 5 map
    to "0-5", 6 to "6-10", 20 to "16-20", 21 to "20+", and on every whole
    number the result is the bucket of the lower-bound rule.  Every
    negative number, NaN and every value that is not a number goes to
    "0-5"; the function is total and its result is always one of the five
    labels. *)
Theorem years_bucketing_correct :
  getValidYearsCategory (num 0) = "0-5"
  /\ getValidYearsCategory (num 5) = "0-5"
  /\ getValidYearsCategory (num 6) = "6-10"
  /\ getValidYearsCategory (num 20) = "16-20"
  /\ getValidYearsCategory (num 21) = "20+"
  /\ getValidYearsCategory (num (-3)) = "0-5"
  /\ getValidYearsCategory (VNum NaN) = "0-5"
  /\ (forall q : Q, (0 <= q)%Q -> (q <= 5)%Q ->
                    getValidYearsCategory (VNum (Fin q)) = "0-5")
  /\ (forall q : Q, (5 < q)%Q -> (q <= 10)%Q ->
                    getValidYearsCategory (VNum (Fin q)) = "6-10")
  /\ (forall q : Q, (10 < q)%Q -> (q <= 15)%Q ->
                    getValidYearsCategory (VNum (Fin q)) = "11-15")
  /\ (forall q : Q, (15 < q)%Q -> (q <= 20)%Q ->
                    getValidYearsCategory (VNum (Fin q)) = "16-20")
  /\ (forall q : Q, (20 < q)%Q -> getValidYearsCategory (VNum (Fin q)) = "20+")
  /\ getValidYearsCategory (VNum PosInfinity) = "20+"
  /\ (forall n : Z, getValidYearsCategory (num n) = years_bucket_rule (num n))
  /\ (forall q : Q, (q < 0)%Q -> getValidYearsCategory (VNum (Fin q)) = "0-5")
  /\ getValidYearsCategory (VNum NegInfinity) = "0-5"
  /\ getValidYearsCategory VUndefined = "0-5"
  /\ getValidYearsCategory VNull = "0-5"
  /\ (forall b, getValidYearsCategory (VBool b) = "0-5")
  /\ (forall s, getValidYearsCategory (VStr s) = "0-5")
  /\ (forall v, In (getValidYearsCategory v) YEARS_CATEGORIES).
Proof.
  assert (forall a b : Q, (a < b)%Q -> Qle_bool b a = false) as Hgt.
  { intros a b H. destruct (Qle_bool b a) eqn:E; [|reflexivity].
    apply Qle_bool_iff in E. exfalso. apply (Qlt_not_le _ _ H E). }
  assert (forall a b : Q, (a <= b)%Q -> Qle_bool a b = true) as Hle
      by (intros a b H; now apply Qle_bool_iff).
  assert (forall a b c : Q, (a < b)%Q -> (b < c)%Q -> (a < c)%Q) as Htr
      by (intros a b c; apply Qlt_trans).
  repeat split; try reflexivity.
  - intros q H0 H5. rewrite getValidYearsCategory_fin by exact H0.
    now rewrite (Hle _ _ H5).
  - intros q H5 H10. rewrite getValidYearsCategory_fin.
    + now rewrite (Hgt _ _ H5), (Hle _ _ H10).
    + apply Qlt_le_weak. apply (Htr 0 5 q); [reflexivity | exact H5].
  - intros q H10 H15. rewrite getValidYearsCategory_fin.
    + assert (5 < q)%Q as H5 by (apply (Htr 5 10 q); [reflexivity | exact H10]).
      now rewrite (Hgt _ _ H5), (Hgt _ _ H10), (Hle _ _ H15).
    + apply Qlt_le_weak. apply (Htr 0 10 q); [reflexivity | exact H10].
  - intros q H15 H20. rewrite getValidYearsCategory_fin.
    + assert (10 < q)%Q as H10 by (apply (Htr 10 15 q); [reflexivity | exact H15]).
      assert (5 < q)%Q as H5 by (apply (Htr 5 10 q); [reflexivity | exact H10]).
      now rewrite (Hgt _ _ H5), (Hgt _ _ H10), (Hgt _ _ H15), (Hle _ _ H20).
    + apply Qlt_le_weak. apply (Htr 0 15 q); [reflexivity | exact H15].
  - intros q H20. rewrite getValidYearsCategory_fin.
    + assert (15 < q)%Q as H15 by (apply (Htr 15 20 q); [reflexivity | exact H20]).
      assert (10 < q)%Q as H10 by (apply (Htr 10 15 q); [reflexivity | exact H15]).
      assert (5 < q)%Q as H5 by (apply (Htr 5 10 q); [reflexivity | exact H10]).
      now rewrite (Hgt _ _ H5), (Hgt _ _ H10), (Hgt _ _ H15), (Hgt _ _ H20).
    + apply Qlt_le_weak. apply (Htr 0 20 q); [reflexivity | exact H20].
  - apply getValidYearsCategory_refines_rule.
  - apply getValidYearsCategory_negative.
  - apply getValidYearsCategory_in_catalog.
Qed.

Lemma years_bucketing_correct_witness :
  ((-7 # 2) < 0)%Q /\ getValidYearsCategory (VNum (Fin (-7 # 2))) = "0-5"
  /\ getValidYearsCategory (VNum (Fin (21 # 2))) = "11-15".
Proof.
  destruct years_bucketing_correct
    as (_ & _ & _ & _ & _ & _ & _ & _ & _ & Hmid & _ & _ & _ & _ & Hneg & _).
  split; [reflexivity|]. split.
  - apply Hneg. reflexivity.
  - apply Hmid; [reflexivity | unfold Qle; simpl; lia].
Defined.

(** ** Flow aggregator: the links map in closed form *)

Import Alluvial.

Lemma filter_all {A : Type} (f : A -> bool) (l : list A) :
  (forall x, In x l -> f x = true) -> filter f l = l.
Proof.
  induction l as [|x l IH]; cbn; intros H; [reflexivity|].
  rewrite (H x) by auto. f_equal. apply IH. auto.
Qed.

Lemma count_app {A : Type} (f : A -> bool) (l1 l2 : list A) :
  count f (l1 ++ l2)%list = (count f l1 + count f l2)%nat.
Proof. unfold count. now rewrite filter_app, length_app. Qed.

Lemma count_snoc {A : Type} (f : A -> bool) (l : list A) (x : A) :
  count f (l ++ [x])%list = (count f l + (if f x then 1 else 0))%nat.
Proof.
  rewrite count_app. unfold count. simpl. now destruct (f x).
Qed.

Lemma count_ext_in {A : Type} (f g : A -> bool) (l : list A) :
  (forall x, In x l -> f x = g x) -> count f l = count g l.
Proof.
  intros H. unfold count. f_equal. now apply filter_ext_in.
Qed.

Lemma count_perm {A : Type} (f : A -> bool) (l l' : list A) :
  Permutation l l' -> count f l = count f l'.
Proof.
  intros H. unfold count. apply Permutation_length.
  induction H; simpl.
  - constructor.
  - destruct (f x); auto.
  - destruct (f x), (f y); auto using perm_swap.
  - eapply perm_trans; eauto.
Qed.

Lemma distinct_NoDup (l : list string) : distinct l = true <-> NoDup l.
Proof.
  induction l as [|x l IH]; simpl.
  - split; auto using NoDup_nil.
  - rewrite andb_true_iff, negb_true_iff, IH. split.
    + intros [Hx Hl]. constructor; auto.
      intros Hin. assert (existsb (String.eqb x) l = true) as E.
      { apply existsb_exists. exists x. split; auto. apply String.eqb_refl. }
      congruence.
    + intros H. inversion H as [|? ? Hx Hl]; subst. split; auto.
      destruct (existsb (String.eqb x) l) eqn:E; auto.
      apply existsb_exists in E. destruct E as [y [Hy Hxy]].
      apply String.eqb_eq in Hxy. subst. contradiction.
Qed.

Lemma NoDup_map_inj {A B : Type} (f : A -> B) (l : list A) (x y : A) :
  NoDup (map f l) -> In x l -> In y l -> f x = f y -> x = y.
Proof.
  induction l as [|a l IH]; simpl; intros Hnd Hx Hy E; [tauto|].
  inversion Hnd as [|? ? Ha Hl]; subst.
  destruct Hx as [-> | Hx], Hy as [-> | Hy]; auto.
  - exfalso. apply Ha. rewrite E. now apply in_map.
  - exfalso. apply Ha. rewrite <- E. now apply in_map.
Qed.

Lemma NoDup_of_map {A B : Type} (f : A -> B) (l : list A) :
  NoDup (map f l) -> NoDup l.
Proof.
  induction l as [|a l IH]; simpl; intros H; [constructor|].
  inversion H as [|? ? Ha Hl]; subst. constructor; auto.
  intros Hin. apply Ha. now apply in_map.
Qed.

(** *** The [Map] operations *)

Lemma map_set_fresh (k : string) (l : Link) (m : LinksMap) :
  ~ In k (map_keys m) -> map_set k l m = (m ++ [(k, l)])%list.
Proof.
  induction m as [|[k' l'] m IH]; simpl; intros H; [reflexivity|].
  destruct (k' =? k) eqn:E.
  - apply String.eqb_eq in E. tauto.
  - rewrite IH; tauto.
Qed.

Lemma fold_set_fresh {X : Type} (kf : X -> string) (vf : X -> Link) (xs : list X) :
  forall m, NoDup (map_keys m ++ map kf xs)%list ->
  fold_left (fun m x => map_set (kf x) (vf x) m) xs m
  = (m ++ map (fun x => (kf x, vf x)) xs)%list.
Proof.
  induction xs as [|x xs IH]; simpl; intros m H.
  - now rewrite app_nil_r.
  - rewrite map_set_fresh.
    + rewrite IH.
      * now rewrite <- app_assoc.
      * unfold map_keys in *. rewrite map_app. simpl. now rewrite <- app_assoc.
    + apply NoDup_remove_2 in H. intros Hin. apply H. apply in_or_app. now left.
Qed.

Lemma fold_pairs {M A B : Type} (f : M -> A * B -> M) (l1 : list A) (l2 : list B) :
  forall m,
  fold_left (fun m a => fold_left (fun m b => f m (a, b)) l2 m) l1 m
  = fold_left f (list_prod l1 l2) m.
Proof.
  induction l1 as [|a l1 IH]; simpl; intros m; [reflexivity|].
  rewrite fold_left_app, IH. f_equal.
  clear. revert m. induction l2 as [|b l2 IH2]; simpl; intros m; auto.
Qed.

Lemma map_get_values (h : string -> Link -> Link) (m : LinksMap) (k : string) :
  map_get k (map (fun kl => (fst kl, h (fst kl) (snd kl))) m)
  = option_map (h k) (map_get k m).
Proof.
  induction m as [|[k' l'] m IH]; simpl; [reflexivity|].
  destruct (k' =? k) eqn:E; auto.
  apply String.eqb_eq in E. now subst.
Qed.

Lemma map_get_present (k : string) (m : LinksMap) :
  In k (map_keys m) -> exists l, map_get k m = Some l.
Proof.
  induction m as [|[k' l'] m IH]; simpl; intros H; [tauto|].
  destruct (k' =? k) eqn:E; eauto.
  destruct H as [H | H]; auto.
  subst. rewrite String.eqb_refl in E. discriminate.
Qed.

Lemma map_get_unique (k : string) (l : Link) (m : LinksMap) :
  NoDup (map_keys m) -> In (k, l) m -> map_get k m = Some l.
Proof.
  induction m as [|[k' l'] m IH]; simpl; intros Hnd Hin; [tauto|].
  inversion Hnd as [|? ? Hk Hm]; subst.
  destruct Hin as [Heq | Hin].
  - inversion Heq; subst. now rewrite String.eqb_refl.
  - destruct (k' =? k) eqn:E; auto.
    apply String.eqb_eq in E. subst. exfalso. apply Hk.
    change k with (fst (k, l)). now apply in_map.
Qed.

Lemma map_set_present (k : string) (l : Link) (m : LinksMap) :
  NoDup (map_keys m) -> In k (map_keys m) ->
  map_set k l m = map (fun kl => if fst kl =? k then (k, l) else kl) m.
Proof.
  induction m as [|[k' l'] m IH]; simpl; intros Hnd Hin; [tauto|].
  inversion Hnd as [|? ? Hk Hm]; subst.
  destruct (k' =? k) eqn:E.
  - apply String.eqb_eq in E. subst. f_equal.
    rewrite <- (map_id m) at 1. apply map_ext_in.
    intros [k2 l2] H2. simpl.
    destruct (k2 =? k) eqn:E2; auto.
    apply String.eqb_eq in E2. subst. exfalso. apply Hk.
    change k with (fst (k, l2)). now apply in_map.
  - f_equal. apply IH; auto. destruct Hin as [Hin | Hin]; auto.
    subst. rewrite String.eqb_refl in E. discriminate.
Qed.

Lemma map_keys_values (h : string -> Link -> Link) (m : LinksMap) :
  map_keys (map (fun kl => (fst kl, h (fst kl) (snd kl))) m) = map_keys m.
Proof.
  unfold map_keys. rewrite map_map. now apply map_ext.
Qed.

(** *** Step 1 *)

Lemma initLinks_closed (cs ct : string) (S T : list string) :
  distinctKeys cs ct S T = true ->
  initLinks cs ct S T
  = map (fun p => (pairKey cs ct p, dummyLink cs ct p)) (list_prod S T).
Proof.
  intros H. apply distinct_NoDup in H. unfold initLinks.
  rewrite (fold_pairs (fun m p => map_set (pairKey cs ct p) (dummyLink cs ct p) m)).
  now rewrite fold_set_fresh.
Qed.

(** *** Step 2 *)

Section FillClosed.
Variable getYearsCategory : jsval -> string.
Variables cs ct : string.
Variables S T : list string.

Let fill := fillLink getYearsCategory cs ct S T.
Let hit := hits getYearsCategory cs ct S T.

Lemma fillLink_skip (m : LinksMap) (d : SurveyResponse) :
  counted getYearsCategory cs ct S T d = false -> fill m d = m.
Proof.
  unfold fill, fillLink, counted. intros H.
  rewrite <- negb_andb, H. reflexivity.
Qed.

Lemma fillLink_count (m : LinksMap) (d : SurveyResponse) :
  counted getYearsCategory cs ct S T d = true ->
  fill m d =
  match map_get (rowKey getYearsCategory cs ct d) m with
  | None =>
      map_set (rowKey getYearsCategory cs ct d)
              (mkLink (nodeId cs (as_string (sourceAccessor getYearsCategory cs d)))
                      (nodeId ct (as_string (targetAccessor getYearsCategory ct d)))
                      1 false) m
  | Some link => map_set (rowKey getYearsCategory cs ct d) (increment link) m
  end.
Proof.
  unfold fill, fillLink, counted. intros H.
  rewrite <- negb_andb, H. reflexivity.
Qed.

(** Over a map that holds the key of every counted row, step 2 leaves
    each entry incremented once per row that hits its key. *)
Lemma fill_closed (m0 : LinksMap) :
  NoDup (map_keys m0) ->
  (forall d, counted getYearsCategory cs ct S T d = true ->
             In (rowKey getYearsCategory cs ct d) (map_keys m0)) ->
  forall ds,
  fold_left fill ds m0
  = map (fun kl => (fst kl, bump (count (hit (fst kl)) ds) (snd kl))) m0.
Proof.
  intros Hnd Hkeys ds. induction ds as [|d ds IH] using rev_ind.
  - simpl. rewrite <- (map_id m0) at 1. apply map_ext. now intros [k l].
  - rewrite fold_left_app. simpl. rewrite IH. clear IH.
    destruct (counted getYearsCategory cs ct S T d) eqn:Hc.
    + rewrite fillLink_count by assumption.
      set (key := rowKey getYearsCategory cs ct d).
      destruct (map_get_present key m0 (Hkeys d Hc)) as [l0 Hl0].
      rewrite (map_get_values (fun k l => bump (count (hit k) ds) l)), Hl0. simpl.
      rewrite map_set_present.
      * rewrite map_map. apply map_ext_in. intros [k l] Hin. simpl.
        rewrite count_snoc.
        assert (hit k d = (k =? key)) as ->.
        { unfold hit, hits. rewrite Hc. fold key. simpl. apply String.eqb_sym. }
        destruct (k =? key) eqn:E.
        -- apply String.eqb_eq in E. subst k.
           rewrite (map_get_unique key l m0 Hnd Hin) in Hl0.
           inversion Hl0; subst. now rewrite Nat.add_1_r.
        -- now rewrite Nat.add_0_r.
      * now rewrite (map_keys_values (fun k l => bump (count (hit k) ds) l)).
      * rewrite (map_keys_values (fun k l => bump (count (hit k) ds) l)).
        exact (Hkeys d Hc).
    + rewrite fillLink_skip by assumption.
      apply map_ext. intros [k l]. simpl. rewrite count_snoc.
      assert (hit k d = false) as ->.
      { unfold hit, hits. now rewrite Hc. }
      now rewrite Nat.add_0_r.
Qed.
End FillClosed.

(** *** Step 3 *)

Lemma inject_Z_succ (c : nat) :
  (inject_Z (Z.of_nat c) + 1)%Q = inject_Z (Z.of_nat (Datatypes.S c)).
Proof.
  unfold Qplus, inject_Z. simpl Qnum. simpl Qden.
  f_equal. lia.
Qed.

Lemma bump_dummy (cs ct : string) (p : string * string) (c : nat) :
  bump (Datatypes.S c) (dummyLink cs ct p)
  = mkLink (nodeId cs (fst p)) (nodeId ct (snd p))
           (inject_Z (Z.of_nat (Datatypes.S c))) false.
Proof.
  induction c as [|c IH].
  - reflexivity.
  - change (bump (Datatypes.S (Datatypes.S c)) (dummyLink cs ct p))
      with (increment (bump (Datatypes.S c) (dummyLink cs ct p))).
    rewrite IH. unfold increment. cbn [source target value].
    now rewrite inject_Z_succ.
Qed.

Lemma finishLink_bump (cs ct : string) (p : string * string) (c : nat) :
  finishLink (bump c (dummyLink cs ct p)) = expectedLink cs ct p c.
Proof.
  destruct c as [|c].
  - reflexivity.
  - rewrite bump_dummy. reflexivity.
Qed.

(** *** The three steps together *)

Lemma includes_spec (arr : list string) (v : jsval) :
  includes arr v = true <-> exists s, v = VStr s /\ In s arr.
Proof.
  unfold includes. split.
  - destruct v; try discriminate. intros H.
    apply existsb_exists in H. destruct H as [x [Hx E]].
    apply String.eqb_eq in E. subst. eauto.
  - intros [s [-> Hs]]. apply existsb_exists. exists s. split; auto.
    apply String.eqb_refl.
Qed.

Lemma same_value_zero_str (v : jsval) (s : string) :
  same_value_zero v (VStr s) = true <-> v = VStr s.
Proof.
  destruct v as [| | b | [| | |q] | x]; simpl; split; try discriminate.
  - intros E. apply String.eqb_eq in E. now subst.
  - intros E. inversion E. apply String.eqb_refl.
Qed.

Section Closed.
Variable getYearsCategory : jsval -> string.
Variables cs ct : string.
Variables S T : list string.

Lemma counted_spec (d : SurveyResponse) :
  counted getYearsCategory cs ct S T d = true <->
  exists p, In p (list_prod S T)
            /\ sourceAccessor getYearsCategory cs d = VStr (fst p)
            /\ targetAccessor getYearsCategory ct d = VStr (snd p).
Proof.
  unfold counted. rewrite andb_true_iff, !includes_spec. split.
  - intros [[s [Hs HsS]] [t [Ht HtT]]]. exists (s, t). simpl.
    repeat split; auto. now apply in_prod.
  - intros [[s t] [Hp [Hs Ht]]]. simpl in *. apply in_prod_iff in Hp.
    destruct Hp. split; eauto.
Qed.

Lemma matches_spec (p : string * string) (d : SurveyResponse) :
  matches getYearsCategory cs ct (fst p) (snd p) d = true <->
  sourceAccessor getYearsCategory cs d = VStr (fst p)
  /\ targetAccessor getYearsCategory ct d = VStr (snd p).
Proof.
  unfold matches. now rewrite andb_true_iff, !same_value_zero_str.
Qed.

Lemma rowKey_of_pair (p : string * string) (d : SurveyResponse) :
  sourceAccessor getYearsCategory cs d = VStr (fst p) ->
  targetAccessor getYearsCategory ct d = VStr (snd p) ->
  rowKey getYearsCategory cs ct d = pairKey cs ct p.
Proof.
  intros Hs Ht. unfold rowKey, pairKey. now rewrite Hs, Ht.
Qed.

Lemma counted_rowKey_in (d : SurveyResponse) :
  counted getYearsCategory cs ct S T d = true ->
  In (rowKey getYearsCategory cs ct d) (linkKeys cs ct S T).
Proof.
  intros H. apply counted_spec in H. destruct H as [p [Hp [Hs Ht]]].
  rewrite (rowKey_of_pair p) by assumption.
  unfold linkKeys. now apply in_map.
Qed.

Lemma hits_matches (p : string * string) (d : SurveyResponse) :
  NoDup (linkKeys cs ct S T) -> In p (list_prod S T) ->
  hits getYearsCategory cs ct S T (pairKey cs ct p) d
  = matches getYearsCategory cs ct (fst p) (snd p) d.
Proof.
  intros Hnd Hp. apply Bool.eq_iff_eq_true.
  unfold hits. rewrite andb_true_iff, counted_spec, matches_spec, String.eqb_eq.
  split.
  - intros [[q [Hq [Hs Ht]]] Hk].
    rewrite (rowKey_of_pair q) in Hk by assumption.
    assert (q = p) as -> by (eapply NoDup_map_inj; eauto).
    auto.
  - intros [Hs Ht]. split.
    + exists p. auto.
    + now apply rowKey_of_pair.
Qed.

(** The links map after the three steps: one entry per pair of the
    node lists, in the order of the nested loops, holding the dummy
    placeholder when no row matches the pair and the number of matching
    rows otherwise. *)
Lemma buildLinksMap_closed (valid : list SurveyResponse) :
  distinctKeys cs ct S T = true ->
  buildLinksMap getYearsCategory cs ct S T valid
  = map (fun p =>
           (pairKey cs ct p,
            expectedLink cs ct p
              (count (matches getYearsCategory cs ct (fst p) (snd p)) valid)))
        (list_prod S T).
Proof.
  intros Hd. pose proof (proj1 (distinct_NoDup _) Hd) as Hnd.
  unfold buildLinksMap. rewrite initLinks_closed by assumption.
  rewrite fill_closed.
  - rewrite !map_map. apply map_ext_in. intros p Hp. simpl.
    rewrite finishLink_bump. f_equal. f_equal.
    apply count_ext_in. intros d _. now apply hits_matches.
  - unfold map_keys. rewrite map_map. exact Hnd.
  - intros d Hc. unfold map_keys. rewrite map_map.
    now apply counted_rowKey_in.
Qed.

Lemma buildLinks_closed (valid : list SurveyResponse) :
  distinctKeys cs ct S T = true ->
  map_values (buildLinksMap getYearsCategory cs ct S T valid)
  = map (fun p =>
           expectedLink cs ct p
             (count (matches getYearsCategory cs ct (fst p) (snd p)) valid))
        (list_prod S T).
Proof.
  intros Hd. rewrite buildLinksMap_closed by assumption.
  unfold map_values. now rewrite map_map.
Qed.
End Closed.

(** ** Sorting *)

Section SortFacts.
Context {A : Type} (leb : A -> A -> bool).
Let R (a b : A) : Prop := leb a b = true.

Hypothesis leb_total : forall a b, leb a b = true \/ leb b a = true.

Lemma insert_sorted_perm (x : A) (l : list A) :
  Permutation (insert_sorted leb x l) (x :: l).
Proof.
  induction l as [|y l IH]; simpl; auto.
  destruct (leb x y); auto.
  eapply perm_trans; [apply perm_skip, IH | apply perm_swap].
Qed.

Lemma sort_by_perm (l : list A) : Permutation (sort_by leb l) l.
Proof.
  induction l as [|x l IH]; simpl; auto.
  eapply perm_trans; [apply insert_sorted_perm | now apply perm_skip].
Qed.

Lemma insert_sorted_hd (x y : A) (l : list A) :
  R y x -> HdRel R y l -> HdRel R y (insert_sorted leb x l).
Proof.
  intros Hyx Hl. destruct l as [|z l]; simpl.
  - now constructor.
  - destruct (leb x z); constructor; auto. now inversion Hl.
Qed.

Lemma insert_sorted_sorted (x : A) (l : list A) :
  Sorted R l -> Sorted R (insert_sorted leb x l).
Proof.
  induction l as [|y l IH]; simpl; intros H.
  - repeat constructor.
  - inversion H as [|? ? Hl Hhd]; subst.
    destruct (leb x y) eqn:E.
    + constructor; [assumption | now constructor].
    + constructor; [now apply IH |].
      apply insert_sorted_hd; [|assumption].
      destruct (leb_total x y) as [H1 | H1]; [congruence | exact H1].
Qed.

Lemma sort_by_sorted (l : list A) : Sorted R (sort_by leb l).
Proof.
  induction l as [|x l IH]; simpl.
  - constructor.
  - now apply insert_sorted_sorted.
Qed.

(** Sorting a sorted list changes nothing. *)
Lemma sort_by_sorted_id (l : list A) : Sorted R l -> sort_by leb l = l.
Proof.
  induction l as [|x l IH]; simpl; intros H; [reflexivity|].
  inversion H as [|? ? Hl Hhd]; subst. rewrite IH by assumption.
  destruct l as [|y l]; simpl; [reflexivity|].
  inversion Hhd as [|? ? Hxy]; subst. unfold R in Hxy. now rewrite Hxy.
Qed.

Lemma sort_by_idempotent (l : list A) :
  sort_by leb (sort_by leb l) = sort_by leb l.
Proof. apply sort_by_sorted_id, sort_by_sorted. Qed.

Hypothesis leb_trans : forall a b c, leb a b = true -> leb b c = true -> leb a c = true.
Hypothesis leb_antisym : forall a b, leb a b = true -> leb b a = true -> a = b.

Lemma strongly_sorted_perm_eq (l1 l2 : list A) :
  StronglySorted R l1 -> StronglySorted R l2 -> Permutation l1 l2 -> l1 = l2.
Proof.
  revert l2. induction l1 as [|x l1 IH]; intros l2 H1 H2 HP.
  - apply Permutation_nil in HP. now subst.
  - destruct l2 as [|y l2].
    + apply Permutation_sym, Permutation_nil in HP. discriminate.
    + inversion H1 as [|? ? Hs1 Hf1]; subst.
      inversion H2 as [|? ? Hs2 Hf2]; subst.
      assert (x = y) as ->.
      { assert (In x (y :: l2)) as Hx
            by (eapply Permutation_in; [exact HP | now left]).
        assert (In y (x :: l1)) as Hy
            by (eapply Permutation_in; [apply Permutation_sym; exact HP | now left]).
        destruct Hx as [-> | Hx]; auto.
        destruct Hy as [-> | Hy]; auto.
        rewrite Forall_forall in Hf1, Hf2.
        apply leb_antisym; [apply Hf1 | apply Hf2]; assumption. }
      f_equal. apply IH; auto. eapply Permutation_cons_inv; eauto.
Qed.

(** The sorted copy depends only on the elements, not on their order. *)
Lemma sort_by_perm_eq (l1 l2 : list A) :
  Permutation l1 l2 -> sort_by leb l1 = sort_by leb l2.
Proof.
  intros HP. apply strongly_sorted_perm_eq.
  - apply Sorted_StronglySorted; [|apply sort_by_sorted].
    intros a b c; apply leb_trans.
  - apply Sorted_StronglySorted; [|apply sort_by_sorted].
    intros a b c; apply leb_trans.
  - eapply perm_trans; [apply sort_by_perm|].
    eapply perm_trans; [exact HP|]. apply Permutation_sym, sort_by_perm.
Qed.
End SortFacts.

Lemma unit_rank_inj (x y : ascii) : unit_rank x = unit_rank y -> x = y.
Proof.
  intros H.
  rewrite <- (ascii_N_embedding x), <- (ascii_N_embedding y). f_equal.
  pose proof (N_ascii_bounded x) as Hx. pose proof (N_ascii_bounded y) as Hy.
  unfold unit_rank in H. cbv zeta in H.
  repeat match type of H with
         | context [(?u =? ?v)%N] => destruct (N.eqb_spec u v)
         end; simpl orb in H; cbv iota in H; lia.
Qed.

Lemma str_leb_total (a b : string) : str_leb a b = true \/ str_leb b a = true.
Proof.
  revert b. induction a as [|x a IH]; intros [|y b]; simpl; auto.
  destruct (N.ltb_spec (unit_rank x) (unit_rank y)); auto.
  destruct (N.ltb_spec (unit_rank y) (unit_rank x)); auto.
  assert (unit_rank x = unit_rank y) as E by lia.
  rewrite E, N.eqb_refl. apply IH.
Qed.

Lemma str_leb_antisym (a b : string) :
  str_leb a b = true -> str_leb b a = true -> a = b.
Proof.
  revert b. induction a as [|x a IH]; intros [|y b]; simpl; auto; try discriminate.
  destruct (N.ltb_spec (unit_rank x) (unit_rank y));
    destruct (N.ltb_spec (unit_rank y) (unit_rank x)); try lia.
  - destruct (N.eqb_spec (unit_rank y) (unit_rank x)); [lia | discriminate].
  - destruct (N.eqb_spec (unit_rank x) (unit_rank y)); [lia | discriminate].
  - destruct (N.eqb_spec (unit_rank x) (unit_rank y)) as [E|]; [|discriminate].
    rewrite E, N.eqb_refl. intros H1 H2.
    assert (x = y) as -> by now apply unit_rank_inj.
    f_equal. now apply IH.
Qed.

Lemma str_leb_trans (a b c : string) :
  str_leb a b = true -> str_leb b c = true -> str_leb a c = true.
Proof.
  revert b c. induction a as [|x a IH]; intros [|y b] [|z c]; simpl; auto;
    try discriminate.
  destruct (N.ltb_spec (unit_rank x) (unit_rank y));
    destruct (N.ltb_spec (unit_rank y) (unit_rank z));
    destruct (N.ltb_spec (unit_rank x) (unit_rank z)); auto; try lia;
    repeat match goal with
           | |- context [(?u =? ?v)%N] => destruct (N.eqb_spec u v)
           end; auto; try discriminate; try lia.
  apply IH.
Qed.

(** The order is that of the code units: a character beyond U+FFFF
    (U+1F600, bytes F0 9F 98 80) sorts before the fullwidth letter
    U+FF21 (bytes EF BC A1), and after the ASCII letters. *)
Example sort_strings_code_units :
  sort_strings [String "239" (String "188" (String "161" ""));
                String "240" (String "159" (String "152" (String "128" "")));
                "z"]
  = ["z";
     String "240" (String "159" (String "152" (String "128" "")));
     String "239" (String "188" (String "161" ""))].
Proof. reflexivity. Qed.

Lemma sort_strings_perm_eq (l1 l2 : list string) :
  Permutation l1 l2 -> sort_strings l1 = sort_strings l2.
Proof.
  apply sort_by_perm_eq.
  - apply str_leb_total.
  - apply str_leb_trans.
  - apply str_leb_antisym.
Qed.

Lemma sort_strings_idempotent (l : list string) :
  sort_strings (sort_strings l) = sort_strings l.
Proof. apply sort_by_idempotent, str_leb_total. Qed.

Lemma years_leb_total (a b : string) : years_leb a b = true \/ years_leb b a = true.
Proof.
  unfold years_leb.
  destruct (Z.leb_spec (indexOf YEARS_CATEGORIES a - indexOf YEARS_CATEGORIES b) 0); auto.
  right. apply Z.leb_le. lia.
Qed.

Lemma sortedLabels_perm (field : string) (l : list string) :
  Permutation (sortedLabels field l) l.
Proof.
  unfold sortedLabels, sort_strings. destruct (field =? _); apply sort_by_perm.
Qed.

Lemma sortedLabels_in (field : string) (l : list string) (s : string) :
  In s (sortedLabels field l) <-> In s l.
Proof.
  split; apply Permutation_in;
    [apply sortedLabels_perm | apply Permutation_sym, sortedLabels_perm].
Qed.

(** Sorting is idempotent: a second pass over the sorted copy returns it
    unchanged. *)
Lemma sortedLabels_idempotent (field : string) (l : list string) :
  sortedLabels field (sortedLabels field l) = sortedLabels field l.
Proof.
  unfold sortedLabels. destruct (field =? _).
  - apply sort_by_idempotent, years_leb_total.
  - apply sort_strings_idempotent.
Qed.

(** ** Node lists *)

Lemma filter_perm {A : Type} (f : A -> bool) (l l' : list A) :
  Permutation l l' -> Permutation (filter f l) (filter f l').
Proof.
  intros H. induction H; simpl.
  - constructor.
  - destruct (f x); auto.
  - destruct (f x), (f y); auto using perm_swap.
  - eapply perm_trans; eauto.
Qed.

Lemma existsb_perm {A : Type} (f : A -> bool) (l l' : list A) :
  Permutation l l' -> existsb f l = existsb f l'.
Proof.
  intros H. apply Bool.eq_iff_eq_true. rewrite !existsb_exists.
  split; intros [x [Hx Hf]]; exists x; split; auto.
  - eapply Permutation_in; eauto.
  - eapply Permutation_in; [apply Permutation_sym|]; eauto.
Qed.

(** The string labels kept from a list of values. *)
Lemma labels_in (vs : list jsval) (s : string) :
  In s (map as_string (filter is_label vs)) <-> In (VStr s) vs /\ s <> "".
Proof.
  rewrite in_map_iff. split.
  - intros [v [Hv Hin]]. apply filter_In in Hin. destruct Hin as [Hin Hl].
    destruct v; simpl in *; try discriminate. subst. split; auto.
    intros ->. discriminate.
  - intros [Hin Hne]. exists (VStr s). split; auto.
    apply filter_In. split; auto. simpl. destruct s; [congruence | reflexivity].
Qed.

Lemma set_add_in_str (s : string) (v : jsval) (seen : list jsval) :
  In (VStr s) (set_add v seen) <-> In (VStr s) seen \/ v = VStr s.
Proof.
  induction seen as [|w seen IH]; simpl.
  - split; [intros [H | []]; auto | intros [[] | H]; auto].
  - destruct (same_value_zero w v) eqn:E; simpl.
    + split; [tauto|]. intros [H | H]; auto. subst.
      apply same_value_zero_str in E. auto.
    + rewrite IH. tauto.
Qed.

Lemma set_from_in_str (s : string) (l : list jsval) :
  In (VStr s) (set_from l) <-> In (VStr s) l.
Proof.
  unfold set_from.
  assert (forall acc, In (VStr s) (fold_left (fun seen v => set_add v seen) l acc)
                      <-> In (VStr s) acc \/ In (VStr s) l) as H.
  { induction l as [|v l IH]; simpl; intros acc; [tauto|].
    rewrite IH, set_add_in_str. intuition. }
  rewrite H. simpl. tauto.
Qed.

Lemma labels_set_add (v : jsval) (seen : list jsval) :
  map as_string (filter is_label (set_add v seen))
  = map as_string (filter is_label seen)
  \/ (is_label v = true
      /\ ~ In (as_string v) (map as_string (filter is_label seen))
      /\ map as_string (filter is_label (set_add v seen))
         = (map as_string (filter is_label seen) ++ [as_string v])%list).
Proof.
  induction seen as [|w seen IH]; simpl.
  - destruct (is_label v) eqn:E; simpl; auto.
  - destruct (same_value_zero w v) eqn:E; simpl; auto.
    destruct IH as [IH | [Hv [Hn IH]]].
    + left. destruct (is_label w); simpl; now rewrite IH.
    + right. split; auto.
      destruct (is_label w) eqn:Ew; simpl; rewrite IH; split; auto.
      intros [H | H]; auto.
      destruct v; try discriminate. destruct w; try discriminate.
      simpl in *. subst. now rewrite String.eqb_refl in E.
Qed.

Lemma labels_set_from_NoDup (l : list jsval) :
  NoDup (map as_string (filter is_label (set_from l))).
Proof.
  unfold set_from.
  assert (forall acc, NoDup (map as_string (filter is_label acc)) ->
                      NoDup (map as_string (filter is_label
                               (fold_left (fun seen v => set_add v seen) l acc)))) as H.
  { induction l as [|v l IH]; simpl; intros acc Hacc; auto.
    apply IH. destruct (labels_set_add v acc) as [-> | [_ [Hn ->]]]; auto.
    apply NoDup_app; auto.
    - repeat constructor. intros [].
    - intros x Hx [<- | []]. contradiction. }
  apply H. constructor.
Qed.

Lemma filteredData_perm (data data' : list SurveyResponse) (useTestData : bool) :
  Permutation data data' ->
  Permutation (filteredData data useTestData) (filteredData data' useTestData).
Proof.
  intros H. unfold filteredData.
  rewrite (Permutation_length H).
  destruct (List.length data' =? 0)%nat; auto.
  destruct useTestData; auto using filter_perm.
Qed.

(** The source labels are the labels observed in the filtered rows: for
    the years field the catalog entries met by some row, in catalog order;
    for any other field the distinct non-empty strings of the column. *)
Lemma sources_years (filtered : list SurveyResponse) (s : string) :
  In s (sources filtered "years_at_medtronic") <->
  In s YEARS_CATEGORIES /\ exists d, In d filtered /\ validYears d = s.
Proof.
  unfold sources. destruct filtered as [|d0 filtered].
  - simpl. split; [tauto | intros [_ [d [[] _]]]].
  - cbn [List.length Nat.eqb]. rewrite String.eqb_refl, filter_In.
    rewrite existsb_exists. split; intros [H1 [d [H2 H3]]]; split; auto; exists d.
    + split; auto. now apply String.eqb_eq.
    + split; auto. now apply String.eqb_eq.
Qed.

Lemma sources_categorical (filtered : list SurveyResponse) (field s : string) :
  (field =? "years_at_medtronic") = false ->
  (In s (sources filtered field) <->
   s <> "" /\ exists d, In d filtered /\ getField d field = VStr s).
Proof.
  intros Hf. unfold sources. rewrite Hf. destruct filtered as [|d0 filtered].
  - simpl. split; [tauto | intros [_ [d [[] _]]]].
  - cbn [List.length Nat.eqb]. rewrite labels_in, set_from_in_str, in_map_iff.
    split.
    + intros [[d [H1 H2]] H3]. eauto.
    + intros [H3 [d [H1 H2]]]. eauto.
Qed.

Lemma targets_categorical (filtered : list SurveyResponse) (field s : string) :
  (field =? "years_at_medtronic") = false ->
  (In s (targets filtered field) <->
   s <> "" /\ exists d, In d filtered /\ getField d field = VStr s).
Proof.
  intros Hf. unfold targets. rewrite Hf. destruct filtered as [|d0 filtered].
  - simpl. split; [tauto | intros [_ [d [[] _]]]].
  - cbn [List.length Nat.eqb].
    assert (forall l x, In x (sort_strings l) <-> In x l) as Hs.
    { intros l x. split; apply Permutation_in;
        [apply sort_by_perm | apply Permutation_sym, sort_by_perm]. }
    rewrite Hs, labels_in, set_from_in_str, in_map_iff.
    split.
    + intros [[d [H1 H2]] H3]. eauto.
    + intros [H3 [d [H1 H2]]]. eauto.
Qed.

Lemma targets_years (filtered : list SurveyResponse) :
  targets filtered "years_at_medtronic" = sources filtered "years_at_medtronic".
Proof. reflexivity. Qed.

Lemma sources_NoDup (filtered : list SurveyResponse) (field : string) :
  NoDup (sources filtered field).
Proof.
  unfold sources. destruct (List.length filtered =? 0)%nat; [constructor|].
  destruct (field =? "years_at_medtronic").
  - apply NoDup_filter. unfold YEARS_CATEGORIES.
    apply distinct_NoDup. reflexivity.
  - apply labels_set_from_NoDup.
Qed.

Lemma targets_NoDup (filtered : list SurveyResponse) (field : string) :
  NoDup (targets filtered field).
Proof.
  unfold targets. destruct (List.length filtered =? 0)%nat; [constructor|].
  destruct (field =? "years_at_medtronic") eqn:E.
  - apply NoDup_filter. unfold YEARS_CATEGORIES.
    apply distinct_NoDup. reflexivity.
  - eapply Permutation_NoDup; [apply Permutation_sym, sort_by_perm|].
    apply labels_set_from_NoDup.
Qed.

(** The node lists do not depend on the order of the rows. *)
Lemma sources_perm (l l' : list SurveyResponse) (field : string) :
  Permutation l l' -> Permutation (sources l field) (sources l' field).
Proof.
  intros H. destruct (field =? "years_at_medtronic") eqn:E.
  - apply String.eqb_eq in E. subst.
    unfold sources. rewrite (Permutation_length H).
    destruct (List.length l' =? 0)%nat; auto. rewrite String.eqb_refl.
    erewrite filter_ext; [apply Permutation_refl|].
    intros cat. now apply existsb_perm.
  - apply NoDup_Permutation; try apply sources_NoDup.
    intros s. rewrite !sources_categorical by assumption.
    split; intros [H1 [d [H2 H3]]]; split; auto; exists d; split; auto.
    + eapply Permutation_in; eauto.
    + eapply Permutation_in; [apply Permutation_sym|]; eauto.
Qed.

Lemma targets_perm (l l' : list SurveyResponse) (field : string) :
  Permutation l l' -> Permutation (targets l field) (targets l' field).
Proof.
  intros H. destruct (field =? "years_at_medtronic") eqn:E.
  - apply String.eqb_eq in E. subst. rewrite !targets_years. now apply sources_perm.
  - apply NoDup_Permutation; try apply targets_NoDup.
    intros s. rewrite !targets_categorical by assumption.
    split; intros [H1 [d [H2 H3]]]; split; auto; exists d; split; auto.
    + eapply Permutation_in; eauto.
    + eapply Permutation_in; [apply Permutation_sym|]; eauto.
Qed.

Lemma sources_years_perm_eq (l l' : list SurveyResponse) :
  Permutation l l' ->
  sources l "years_at_medtronic" = sources l' "years_at_medtronic".
Proof.
  intros H. unfold sources. rewrite (Permutation_length H).
  destruct (List.length l' =? 0)%nat; auto. rewrite String.eqb_refl.
  apply filter_ext. intros cat. now apply existsb_perm.
Qed.

Lemma sortedLabels_perm_eq (field : string) (l l' : list string) :
  (field =? "years_at_medtronic") = false ->
  Permutation l l' -> sortedLabels field l = sortedLabels field l'.
Proof.
  intros E H. unfold sortedLabels. rewrite E. now apply sort_strings_perm_eq.
Qed.

Lemma renderSources_perm (field : string) (data data' : list SurveyResponse)
      (useTestData : bool) :
  Permutation data data' ->
  renderSources field data useTestData = renderSources field data' useTestData.
Proof.
  intros H. apply (filteredData_perm _ _ useTestData) in H.
  unfold renderSources. destruct (field =? "years_at_medtronic") eqn:E.
  - apply String.eqb_eq in E. subst. now rewrite (sources_years_perm_eq _ _ H).
  - apply sortedLabels_perm_eq; auto. now apply sources_perm.
Qed.

Lemma renderTargets_perm (field : string) (data data' : list SurveyResponse)
      (useTestData : bool) :
  Permutation data data' ->
  renderTargets field data useTestData = renderTargets field data' useTestData.
Proof.
  intros H. apply (filteredData_perm _ _ useTestData) in H.
  unfold renderTargets. destruct (field =? "years_at_medtronic") eqn:E.
  - apply String.eqb_eq in E. subst. rewrite !targets_years.
    now rewrite (sources_years_perm_eq _ _ H).
  - apply sortedLabels_perm_eq; auto. now apply targets_perm.
Qed.

(** ** Sums of link values *)

Lemma sumOver_app {A : Type} (f : A -> nat) (l1 l2 : list A) :
  sumOver f (l1 ++ l2)%list = (sumOver f l1 + sumOver f l2)%nat.
Proof.
  induction l1 as [|x l1 IH]; simpl; auto. rewrite IH. lia.
Qed.

Lemma sumOver_ext_in {A : Type} (f g : A -> nat) (l : list A) :
  (forall x, In x l -> f x = g x) -> sumOver f l = sumOver g l.
Proof.
  induction l as [|x l IH]; simpl; intros H; [reflexivity|].
  rewrite H by auto. rewrite IH by auto. reflexivity.
Qed.

Lemma sumOver_indicator {A : Type} (f : A -> bool) (l : list A) :
  sumOver (fun x => if f x then 1 else 0)%nat l = count f l.
Proof.
  unfold count. induction l as [|x l IH]; simpl; auto.
  rewrite IH. now destruct (f x).
Qed.

(** Counting a relation between two lists by rows or by columns. *)
Lemma sumOver_count_swap {A B : Type} (g : A -> B -> bool) (ps : list A) (ds : list B) :
  sumOver (fun p => count (g p) ds) ps
  = sumOver (fun d => count (fun p => g p d) ps) ds.
Proof.
  induction ds as [|d ds IH]; simpl.
  - induction ps as [|p ps IHp]; simpl; auto.
  - rewrite <- IH, <- sumOver_indicator. clear IH.
    induction ps as [|p ps IHp]; simpl; auto.
    rewrite IHp. unfold count. simpl. destruct (g p d); simpl; lia.
Qed.

Lemma filter_none {A : Type} (f : A -> bool) (l : list A) :
  (forall x, In x l -> f x = false) -> filter f l = [].
Proof.
  induction l as [|x l IH]; simpl; intros H; [reflexivity|].
  rewrite (H x) by auto. apply IH. auto.
Qed.

Lemma count_at_most_one {A : Type} (f : A -> bool) (l : list A) :
  NoDup l ->
  (forall x y, In x l -> In y l -> f x = true -> f y = true -> x = y) ->
  count f l = if existsb f l then 1%nat else 0%nat.
Proof.
  unfold count. induction l as [|x l IH]; simpl; intros Hnd Hf; auto.
  inversion Hnd as [|? ? Hx Hl]; subst.
  destruct (f x) eqn:E; simpl.
  - assert (filter f l = []) as Hnil.
    { apply filter_none. intros y Hy. destruct (f y) eqn:Ey; auto.
      exfalso. apply Hx. rewrite (Hf x y); auto. }
    rewrite Hnil. reflexivity.
  - apply IH; auto.
Qed.

(** The rows that a list of pairwise exclusive tests counts. *)
Lemma sumOver_count_exclusive {A B : Type} (g : A -> B -> bool)
      (ps : list A) (ds : list B) :
  NoDup ps ->
  (forall d x y, g x d = true -> g y d = true -> x = y) ->
  sumOver (fun p => count (g p) ds) ps
  = count (fun d => existsb (fun p => g p d) ps) ds.
Proof.
  intros Hnd Hex. rewrite sumOver_count_swap, <- sumOver_indicator.
  apply sumOver_ext_in. intros d _.
  apply count_at_most_one; auto. intros x y _ _. apply Hex.
Qed.

Lemma sumValues_app (l1 l2 : list Link) :
  (sumValues (l1 ++ l2) == sumValues l1 + sumValues l2)%Q.
Proof.
  induction l1 as [|x l1 IH]; simpl.
  - now rewrite Qplus_0_l.
  - rewrite IH. now rewrite Qplus_assoc.
Qed.

(** The real links among the expected ones carry the counts of their pairs. *)
Lemma sumValues_expected (cs ct : string) (c : string * string -> nat)
      (sel : Link -> bool) (selp : string * string -> bool)
      (ps : list (string * string)) :
  (forall p n, sel (expectedLink cs ct p n) = selp p) ->
  (sumValues (filter (fun l => negb (isDummy l) && sel l)
                     (map (fun p => expectedLink cs ct p (c p)) ps))
   == inject_Z (Z.of_nat (sumOver c (filter selp ps))))%Q.
Proof.
  intros Hsel. induction ps as [|p ps IH]; simpl.
  - reflexivity.
  - rewrite Hsel. unfold expectedLink at 1.
    destruct (c p) as [|n] eqn:E; simpl.
    + destruct (selp p); simpl; rewrite ?E; exact IH.
    + destruct (selp p); simpl; [|exact IH].
      rewrite IH, <- inject_Z_plus, E.
      match goal with
      | |- (inject_Z ?a == inject_Z ?b)%Q => replace a with b by lia
      end.
      reflexivity.
Qed.

(** ** The aggregated links *)

Lemma append_inj_l (p a b : string) : p ++ a = p ++ b -> a = b.
Proof.
  induction p as [|c p IH]; simpl; intros H; auto.
  inversion H. auto.
Qed.

Lemma nodeId_inj (field a b : string) : nodeId field a = nodeId field b -> a = b.
Proof.
  unfold nodeId. intros H. apply append_inj_l in H. now apply append_inj_l in H.
Qed.

Lemma nodeId_eqb (field a b : string) :
  (nodeId field a =? nodeId field b) = (a =? b).
Proof.
  apply Bool.eq_iff_eq_true. rewrite !String.eqb_eq. split.
  - apply nodeId_inj.
  - now intros ->.
Qed.

Lemma expectedLink_isDummy (cs ct : string) (p : string * string) (n : nat) :
  isDummy (expectedLink cs ct p n) = (n =? 0)%nat.
Proof. unfold expectedLink. now destruct (n =? 0)%nat. Qed.

Lemma expectedLink_source (cs ct : string) (p : string * string) (n : nat) :
  source (expectedLink cs ct p n) = nodeId cs (fst p).
Proof. unfold expectedLink. now destruct (n =? 0)%nat. Qed.

Lemma expectedLink_target (cs ct : string) (p : string * string) (n : nat) :
  target (expectedLink cs ct p n) = nodeId ct (snd p).
Proof. unfold expectedLink. now destruct (n =? 0)%nat. Qed.

Section Aggregated.
Variable gyc : jsval -> string.
Variables cs ct : string.
Variable data : list SurveyResponse.
Variable useTestData : bool.

Let S := renderSources cs data useTestData.
Let T := renderTargets ct data useTestData.
Let valid := validData cs ct (filteredData data useTestData).
Let links := renderLinks gyc cs ct data useTestData.
Let pairCount (p : string * string) : nat :=
  count (matches gyc cs ct (fst p) (snd p)) valid.

Hypothesis Hkeys : distinctKeys cs ct S T = true.

Lemma renderLinksMap_closed :
  renderLinksMap gyc cs ct data useTestData
  = map (fun p => (pairKey cs ct p, expectedLink cs ct p (pairCount p)))
        (list_prod S T).
Proof. unfold renderLinksMap. now apply buildLinksMap_closed. Qed.

Lemma renderLinks_closed :
  links = map (fun p => expectedLink cs ct p (pairCount p)) (list_prod S T).
Proof.
  unfold links, renderLinks, map_values.
  rewrite renderLinksMap_closed. now rewrite map_map.
Qed.

Lemma renderLinksMap_get (s t : string) :
  In s S -> In t T ->
  map_get (linkKey (nodeId cs s) (nodeId ct t))
          (renderLinksMap gyc cs ct data useTestData)
  = Some (expectedLink cs ct (s, t) (pairCount (s, t))).
Proof.
  intros Hs Ht. rewrite renderLinksMap_closed.
  apply map_get_unique.
  - unfold map_keys. rewrite map_map. simpl.
    apply distinct_NoDup. exact Hkeys.
  - change (linkKey (nodeId cs s) (nodeId ct t)) with (pairKey cs ct (s, t)).
    apply (in_map (fun p => (pairKey cs ct p, expectedLink cs ct p (pairCount p)))).
    now apply in_prod.
Qed.

Lemma matches_exclusive (d : SurveyResponse) (x y : string * string) :
  matches gyc cs ct (fst x) (snd x) d = true ->
  matches gyc cs ct (fst y) (snd y) d = true -> x = y.
Proof.
  rewrite !matches_spec. intros [H1 H2] [H3 H4].
  rewrite H1 in H3. rewrite H2 in H4. inversion H3. inversion H4.
  destruct x, y. simpl in *. congruence.
Qed.

Lemma pairs_NoDup : NoDup (list_prod S T).
Proof.
  apply (NoDup_of_map (pairKey cs ct)). apply distinct_NoDup. exact Hkeys.
Qed.

Lemma exists_match_counted (d : SurveyResponse) :
  existsb (fun p => matches gyc cs ct (fst p) (snd p) d) (list_prod S T)
  = counted gyc cs ct S T d.
Proof.
  apply Bool.eq_iff_eq_true. rewrite existsb_exists, counted_spec.
  split; intros [p [Hp H]]; exists p; split; auto; now apply matches_spec.
Qed.

Lemma exists_match_from (s : string) (d : SurveyResponse) :
  existsb (fun p => matches gyc cs ct (fst p) (snd p) d)
          (filter (fun p => nodeId cs (fst p) =? nodeId cs s) (list_prod S T))
  = countedFrom gyc cs ct S T s d.
Proof.
  apply Bool.eq_iff_eq_true. unfold countedFrom.
  rewrite existsb_exists, andb_true_iff, counted_spec, same_value_zero_str.
  split.
  - intros [p [Hp H]]. apply filter_In in Hp. destruct Hp as [Hp Hs].
    rewrite nodeId_eqb in Hs. apply String.eqb_eq in Hs.
    apply matches_spec in H. destruct H as [H1 H2]. split.
    + exists p. auto.
    + now rewrite H1, Hs.
  - intros [[p [Hp [H1 H2]]] Hs]. exists p. split.
    + apply filter_In. split; auto. rewrite nodeId_eqb. apply String.eqb_eq.
      rewrite H1 in Hs. now inversion Hs.
    + now apply matches_spec.
Qed.

Lemma exists_match_to (t : string) (d : SurveyResponse) :
  existsb (fun p => matches gyc cs ct (fst p) (snd p) d)
          (filter (fun p => nodeId ct (snd p) =? nodeId ct t) (list_prod S T))
  = countedTo gyc cs ct S T t d.
Proof.
  apply Bool.eq_iff_eq_true. unfold countedTo.
  rewrite existsb_exists, andb_true_iff, counted_spec, same_value_zero_str.
  split.
  - intros [p [Hp H]]. apply filter_In in Hp. destruct Hp as [Hp Hs].
    rewrite nodeId_eqb in Hs. apply String.eqb_eq in Hs.
    apply matches_spec in H. destruct H as [H1 H2]. split.
    + exists p. auto.
    + now rewrite H2, Hs.
  - intros [[p [Hp [H1 H2]]] Hs]. exists p. split.
    + apply filter_In. split; auto. rewrite nodeId_eqb. apply String.eqb_eq.
      rewrite H2 in Hs. now inversion Hs.
    + now apply matches_spec.
Qed.

Lemma real_sum :
  (sumValues (realLinks links)
   == inject_Z (Z.of_nat (List.length (countedRows gyc cs ct data useTestData))))%Q.
Proof.
  rewrite renderLinks_closed. unfold realLinks.
  rewrite (filter_ext _ (fun l => negb (isDummy l) && (fun _ => true) l))
    by (intros l; now rewrite andb_true_r).
  rewrite (sumValues_expected cs ct pairCount (fun _ => true) (fun _ => true))
    by reflexivity.
  assert (forall (l : list (string * string)), filter (fun _ => true) l = l) as Hid.
  { induction l as [|x l IH]; simpl; congruence. }
  rewrite Hid. unfold pairCount.
  rewrite (sumOver_count_exclusive
             (fun p d => matches gyc cs ct (fst p) (snd p) d)).
  - rewrite (count_ext_in _ (counted gyc cs ct S T))
      by (intros d _; apply exists_match_counted).
    reflexivity.
  - apply pairs_NoDup.
  - intros d x y. apply matches_exclusive.
Qed.

Lemma real_sum_from (s : string) :
  (sumValues (realLinksFrom (nodeId cs s) links)
   == inject_Z (Z.of_nat (count (countedFrom gyc cs ct S T s) valid)))%Q.
Proof.
  rewrite renderLinks_closed. unfold realLinksFrom.
  rewrite (sumValues_expected cs ct pairCount
             (fun l => source l =? nodeId cs s)
             (fun p => nodeId cs (fst p) =? nodeId cs s))
    by (intros p n; now rewrite expectedLink_source).
  unfold pairCount.
  rewrite (sumOver_count_exclusive
             (fun p d => matches gyc cs ct (fst p) (snd p) d)).
  - rewrite (count_ext_in _ (countedFrom gyc cs ct S T s))
      by (intros d _; apply exists_match_from).
    reflexivity.
  - apply NoDup_filter, pairs_NoDup.
  - intros d x y. apply matches_exclusive.
Qed.

Lemma real_sum_to (t : string) :
  (sumValues (realLinksTo (nodeId ct t) links)
   == inject_Z (Z.of_nat (count (countedTo gyc cs ct S T t) valid)))%Q.
Proof.
  rewrite renderLinks_closed. unfold realLinksTo.
  rewrite (sumValues_expected cs ct pairCount
             (fun l => target l =? nodeId ct t)
             (fun p => nodeId ct (snd p) =? nodeId ct t))
    by (intros p n; now rewrite expectedLink_target).
  unfold pairCount.
  rewrite (sumOver_count_exclusive
             (fun p d => matches gyc cs ct (fst p) (snd p) d)).
  - rewrite (count_ext_in _ (countedTo gyc cs ct S T t))
      by (intros d _; apply exists_match_to).
    reflexivity.
  - apply NoDup_filter, pairs_NoDup.
  - intros d x y. apply matches_exclusive.
Qed.
End Aggregated.

(** ** Settled claims about the aggregation *)

Lemma count_filter {A : Type} (f g : A -> bool) (l : list A) :
  count f (filter g l) = count (fun x => g x && f x) l.
Proof.
  unfold count. induction l as [|x l IH]; [reflexivity|].
  cbn [filter]. destruct (g x); cbn [andb filter]; [|exact IH].
  destruct (f x); cbn [List.length]; now rewrite IH.
Qed.

(** C10, as stated, fails: a row without a years value puts the node
    "0-5" on the years axis (the node lists read [years || 0]) and
    carries the labels of the pair ("0-5", "visual"), but the links are
    counted over the rows with a years value only: the pair is matched
    by a record and its link is still the placeholder of value 0.0001. *)
Lemma dummy_edge_counterexample :
  renderSources "years_at_medtronic" Samples.nullYears false = ["0-5"]
  /\ renderTargets "learning_style" Samples.nullYears false = ["visual"]
  /\ (exists d, In d (filteredData Samples.nullYears false)
                /\ validYears d = "0-5"
                /\ matches getYearsCategory "years_at_medtronic" "learning_style"
                           "0-5" "visual" d = true)
  /\ (forall gyc,
         renderLinks gyc "years_at_medtronic" "learning_style" Samples.nullYears false
         = [mkLink "years_at_medtronic:0-5" "learning_style:visual" 0.0001 true]).
Proof.
  split; [reflexivity|]. split; [reflexivity|]. split.
  - eexists. split; [left; reflexivity|]. split; reflexivity.
  - intros gyc. reflexivity.
Qed.

(** C10, amended -- dummy-edge weight.  A row is valid unless the years
    field is on an axis and its years value is [null].  For every pair
    (s, t) of the cross-product of the node lists (whose link keys are
    pairwise distinct), the links map holds one link under the key of
    the pair, from node s to node t: when no valid filtered row matches
    the pair it is flagged [isDummy = true] and has the value 0.0001;
    when n > 0 valid filtered rows match it, its value is n and
    [isDummy] is false. *)
Theorem dummy_edge_weight
        (gyc : jsval -> string) (cs ct : string)
        (data : list SurveyResponse) (useTestData : bool) (s t : string) :
  distinctKeys cs ct (renderSources cs data useTestData)
               (renderTargets ct data useTestData) = true ->
  In s (renderSources cs data useTestData) ->
  In t (renderTargets ct data useTestData) ->
  let valid (d : SurveyResponse) :=
    (negb (cs =? "years_at_medtronic") || is_not_null (years_at_medtronic d))
    && (negb (ct =? "years_at_medtronic") || is_not_null (years_at_medtronic d)) in
  let n := count (fun d => valid d && matches gyc cs ct s t d)
                 (filteredData data useTestData) in
  exists link : Link,
    map_get (linkKey (nodeId cs s) (nodeId ct t))
            (renderLinksMap gyc cs ct data useTestData) = Some link
    /\ In link (renderLinks gyc cs ct data useTestData)
    /\ source link = nodeId cs s
    /\ target link = nodeId ct t
    /\ (n = 0%nat -> isDummy link = true /\ value link = 0.0001%Q)
    /\ (n <> 0%nat ->
        isDummy link = false /\ value link = inject_Z (Z.of_nat n)).
Proof.
  intros Hkeys Hs Ht valid n.
  assert (n = count (matches gyc cs ct s t)
                    (validData cs ct (filteredData data useTestData))) as Hn.
  { unfold n, validData. now rewrite count_filter. }
  clearbody n. subst n. clear valid.
  set (n := count (matches gyc cs ct s t)
                  (validData cs ct (filteredData data useTestData))).
  exists (expectedLink cs ct (s, t) n).
  split; [now apply renderLinksMap_get|].
  split.
  { rewrite renderLinks_closed by assumption.
    apply (in_map (fun p => expectedLink cs ct p
                              (count (matches gyc cs ct (fst p) (snd p))
                                     (validData cs ct (filteredData data useTestData))))
                  _ (s, t)).
    now apply in_prod. }
  split; [apply expectedLink_source|].
  split; [apply expectedLink_target|].
  unfold expectedLink. split; intros Hn.
  - rewrite Hn. simpl. auto.
  - destruct n; [congruence|]. simpl. auto.
Qed.

Lemma dummy_edge_weight_witness :
  exists link : Link,
    map_get "learning_style:visual→motivation:impact"
            (renderLinksMap getYearsCategory "learning_style" "motivation"
                            Samples.twoStyles false) = Some link
    /\ isDummy link = true /\ value link = 0.0001%Q.
Proof.
  destruct (dummy_edge_weight getYearsCategory "learning_style" "motivation"
                              Samples.twoStyles false "visual" "impact")
    as [link [Hget [_ [_ [_ [Hzero _]]]]]].
  - reflexivity.
  - simpl. auto.
  - simpl. auto.
  - exists link. split; [exact Hget|]. apply Hzero. reflexivity.
Defined.

(** C4, as stated, fails: with the years field on the source axis the
    catalog label "16-20" is observed in no row of the scenario, and the
    links map has no entry for the catalog pair ("16-20", "visual"); the
    dummy links that are present do not have weight 0. *)
Lemma cross_product_catalog_counterexample :
  In "16-20" YEARS_CATEGORIES
  /\ In "visual" (renderTargets "learning_style" Samples.scenario false)
  /\ map_get (linkKey (nodeId "years_at_medtronic" "16-20")
                      (nodeId "learning_style" "visual"))
             (renderLinksMap getYearsCategory "years_at_medtronic" "learning_style"
                             Samples.scenario false) = None
  /\ existsb (fun l => source l =? nodeId "years_at_medtronic" "16-20")
             (renderLinks getYearsCategory "years_at_medtronic" "learning_style"
                          Samples.scenario false) = false
  /\ map_get (linkKey (nodeId "years_at_medtronic" "0-5")
                      (nodeId "learning_style" "auditory"))
             (renderLinksMap getYearsCategory "years_at_medtronic" "learning_style"
                             Samples.scenario false)
     = Some (mkLink "years_at_medtronic:0-5" "learning_style:auditory" 0.0001 true)
  /\ ~ (0.0001 == 0)%Q.
Proof.
  split; [simpl; auto 10|].
  split; [vm_compute; auto 10|].
  split; [vm_compute; reflexivity|].
  split; [vm_compute; reflexivity|].
  split; [vm_compute; reflexivity|].
  intros H. discriminate H.
Qed.

(** C4, amended -- completeness of the cross-product.  The links array
    holds exactly one link per pair of a source label and a target label
    of the node lists (the labels observed in the filtered rows), in the
    order of the nested loops, provided distinct pairs have distinct keys;
    a pair matched by no valid row is kept as a dummy link, flagged
    [isDummy] and of value 0.0001. *)
Theorem cross_product_complete
        (gyc : jsval -> string) (cs ct : string)
        (data : list SurveyResponse) (useTestData : bool) :
  distinctKeys cs ct (renderSources cs data useTestData)
               (renderTargets ct data useTestData) = true ->
  map (fun l => (source l, target l)) (renderLinks gyc cs ct data useTestData)
  = map (fun p => (nodeId cs (fst p), nodeId ct (snd p)))
        (list_prod (renderSources cs data useTestData)
                   (renderTargets ct data useTestData))
  /\ NoDup (map (fun l => (source l, target l))
                (renderLinks gyc cs ct data useTestData))
  /\ List.length (renderLinks gyc cs ct data useTestData)
     = (List.length (renderSources cs data useTestData)
        * List.length (renderTargets ct data useTestData))%nat
  /\ (forall s t,
         In s (renderSources cs data useTestData) ->
         In t (renderTargets ct data useTestData) ->
         count (matches gyc cs ct s t)
               (validData cs ct (filteredData data useTestData)) = 0%nat ->
         In (mkLink (nodeId cs s) (nodeId ct t) 0.0001 true)
            (renderLinks gyc cs ct data useTestData)).
Proof.
  intros Hkeys.
  assert (map (fun l => (source l, target l)) (renderLinks gyc cs ct data useTestData)
          = map (fun p => (nodeId cs (fst p), nodeId ct (snd p)))
                (list_prod (renderSources cs data useTestData)
                           (renderTargets ct data useTestData))) as Hids.
  { rewrite renderLinks_closed by assumption. rewrite map_map.
    apply map_ext. intros p.
    now rewrite expectedLink_source, expectedLink_target. }
  split; [exact Hids|].
  split.
  { rewrite Hids.
    apply (NoDup_of_map (fun ids => linkKey (fst ids) (snd ids))).
    rewrite map_map. apply distinct_NoDup. exact Hkeys. }
  split.
  { rewrite renderLinks_closed by assumption.
    now rewrite length_map, length_prod. }
  intros s t Hs Ht Hn.
  rewrite renderLinks_closed by assumption.
  apply in_map_iff. exists (s, t). split; [|now apply in_prod].
  unfold expectedLink. cbn [fst snd]. now rewrite Hn.
Qed.

Lemma cross_product_complete_witness :
  map (fun l => (source l, target l))
      (renderLinks getYearsCategory "learning_style" "motivation" Samples.twoStyles false)
  = [("learning_style:auditory", "motivation:growth");
     ("learning_style:auditory", "motivation:impact");
     ("learning_style:visual", "motivation:growth");
     ("learning_style:visual", "motivation:impact")].
Proof.
  exact (proj1 (cross_product_complete getYearsCategory "learning_style" "motivation"
                                       Samples.twoStyles false eq_refl)).
Defined.

(** C1, as stated, fails: a row without a motivation passes the test-data
    filter but is counted in no edge, and the dummy edge adds 0.0001 to the
    sum of the edge values.  Two rows are eligible; the values of all edges
    sum to 1.0001 and those of the real edges to 1. *)
Lemma flow_conservation_counterexample :
  List.length (filteredData Samples.missingMotivation false) = 2%nat
  /\ ~ (sumValues (renderLinks getYearsCategory "learning_style" "motivation"
                               Samples.missingMotivation false)
        == inject_Z 2)%Q
  /\ ~ (sumValues (realLinks (renderLinks getYearsCategory "learning_style" "motivation"
                                          Samples.missingMotivation false))
        == inject_Z 2)%Q.
Proof.
  split; [reflexivity|].
  split; intros H; vm_compute in H; discriminate H.
Qed.

(** C1, amended -- conservation of flow over the counted rows.  Provided
    distinct label pairs have distinct keys, the values of the real
    (non-dummy) links sum to the number of counted rows, that is the rows
    that pass the test-data filter and the null-years filter and whose
    source and target labels both belong to the node lists; every dummy
    link has the value 0.0001; and for every source label the real links
    leaving its node sum to the number of counted rows carrying that label,
    symmetrically for every target label. *)
Theorem flow_conservation
        (gyc : jsval -> string) (cs ct : string)
        (data : list SurveyResponse) (useTestData : bool) :
  distinctKeys cs ct (renderSources cs data useTestData)
               (renderTargets ct data useTestData) = true ->
  (sumValues (realLinks (renderLinks gyc cs ct data useTestData))
   == inject_Z (Z.of_nat (List.length (countedRows gyc cs ct data useTestData))))%Q
  /\ (forall l, In l (renderLinks gyc cs ct data useTestData) ->
                isDummy l = true -> value l = 0.0001%Q)
  /\ (forall s,
         sumValues (realLinksFrom (nodeId cs s) (renderLinks gyc cs ct data useTestData))
         == inject_Z (Z.of_nat
                        (count (countedFrom gyc cs ct
                                            (renderSources cs data useTestData)
                                            (renderTargets ct data useTestData) s)
                               (validData cs ct (filteredData data useTestData)))))%Q
  /\ (forall t,
         sumValues (realLinksTo (nodeId ct t) (renderLinks gyc cs ct data useTestData))
         == inject_Z (Z.of_nat
                        (count (countedTo gyc cs ct
                                          (renderSources cs data useTestData)
                                          (renderTargets ct data useTestData) t)
                               (validData cs ct (filteredData data useTestData)))))%Q.
Proof.
  intros Hkeys.
  split; [now apply real_sum|].
  split.
  { intros l Hin Hd. rewrite renderLinks_closed in Hin by assumption.
    apply in_map_iff in Hin. destruct Hin as [p [<- _]].
    rewrite expectedLink_isDummy in Hd. unfold expectedLink. now rewrite Hd. }
  split; intros x; [now apply real_sum_from | now apply real_sum_to].
Qed.

Lemma flow_conservation_witness :
  (sumValues (realLinks (renderLinks getYearsCategory "learning_style" "motivation"
                                     Samples.missingMotivation false))
   == inject_Z 1)%Q.
Proof.
  exact (proj1 (flow_conservation getYearsCategory "learning_style" "motivation"
                                  Samples.missingMotivation false eq_refl)).
Defined.

(** ** The end-to-end scenario *)

Lemma fold_left_ext_in {A B : Type} (f g : A -> B -> A) (l : list B) :
  (forall a d, In d l -> f a d = g a d) ->
  forall a, fold_left f l a = fold_left g l a.
Proof.
  induction l as [|d l IH]; simpl; intros H a; [reflexivity|].
  rewrite H by auto. apply IH. auto.
Qed.

Lemma fillLink_ext (gyc gyc' : jsval -> string) (cs ct : string)
      (S T : list string) (m : LinksMap) (d : SurveyResponse) :
  gyc (or_else (years_at_medtronic d) (num 0))
  = gyc' (or_else (years_at_medtronic d) (num 0)) ->
  fillLink gyc cs ct S T m d = fillLink gyc' cs ct S T m d.
Proof.
  intros H. unfold fillLink, sourceAccessor, targetAccessor. now rewrite H.
Qed.

Lemma filteredData_in (data : list SurveyResponse) (useTestData : bool)
      (d : SurveyResponse) :
  In d (filteredData data useTestData) -> In d data.
Proof.
  unfold filteredData. destruct (List.length data =? 0)%nat; [intros []|].
  destruct useTestData; auto. intros H. apply filter_In in H. tauto.
Qed.

(** The render effect reads [getYearsCategory] only at the years values
    of the rows. *)
Lemma renderLinksMap_ext (gyc gyc' : jsval -> string) (cs ct : string)
      (data : list SurveyResponse) (useTestData : bool) :
  (forall d, In d data ->
             gyc (or_else (years_at_medtronic d) (num 0))
             = gyc' (or_else (years_at_medtronic d) (num 0))) ->
  renderLinksMap gyc cs ct data useTestData
  = renderLinksMap gyc' cs ct data useTestData.
Proof.
  intros H. unfold renderLinksMap, buildLinksMap. f_equal.
  apply fold_left_ext_in. intros m d Hd. apply fillLink_ext. apply H.
  apply filter_In in Hd. destruct Hd as [Hd _].
  eapply filteredData_in; eauto.
Qed.

(** C2, as stated, fails on the ten rows of the scenario: the node lists
    hold only the labels that occur in the rows, so there is no "16-20"
    source node and no "reading_writing" target node, and the edge from
    "20+" to "visual" counts the two rows with 22 years and the visual
    style, not four. *)
Lemma scenario_counterexample :
  ~ In (mkNode "years_at_medtronic:16-20" "16-20" "years_at_medtronic")
       (renderNodes "years_at_medtronic" "learning_style" Samples.scenario false)
  /\ ~ In (mkNode "learning_style:reading_writing" "reading_writing" "learning_style")
          (renderNodes "years_at_medtronic" "learning_style" Samples.scenario false)
  /\ map_get (linkKey (nodeId "years_at_medtronic" "20+")
                      (nodeId "learning_style" "visual"))
             (renderLinksMap getYearsCategory "years_at_medtronic" "learning_style"
                             Samples.scenario false)
     = Some (mkLink "years_at_medtronic:20+" "learning_style:visual" 2 false)
  /\ ~ (2 == 4)%Q.
Proof.
  split; [vm_compute; intuition discriminate|].
  split; [vm_compute; intuition discriminate|].
  split; [vm_compute; reflexivity|].
  intros H. discriminate H.
Qed.

(** C2, amended -- the end-to-end scenario.  For the ten rows, with any
    [getYearsCategory] that buckets 2, 7, 12 and 22 as the rule does,
    aggregating on (years, learning style) yields the source nodes 0-5,
    6-10, 11-15 and 20+ (no 16-20 node), the target nodes auditory,
    kinesthetic and visual (no reading_writing node), twelve links of which
    five are dummies of value 0.0001, real links summing to 2, 3, 1 and 4
    out of the source nodes and to 3, 1 and 6 into the target nodes, and an
    edge from 20+ to visual of value 2. *)
Theorem scenario_aggregation (gyc : jsval -> string) :
  gyc (num 2) = "0-5" -> gyc (num 7) = "6-10" ->
  gyc (num 12) = "11-15" -> gyc (num 22) = "20+" ->
  let links :=
    renderLinks gyc "years_at_medtronic" "learning_style" Samples.scenario false in
  renderSources "years_at_medtronic" Samples.scenario false
  = ["0-5"; "6-10"; "11-15"; "20+"]
  /\ renderTargets "learning_style" Samples.scenario false
     = ["auditory"; "kinesthetic"; "visual"]
  /\ links
     = [mkLink "years_at_medtronic:0-5" "learning_style:auditory" 0.0001 true;
        mkLink "years_at_medtronic:0-5" "learning_style:kinesthetic" 0.0001 true;
        mkLink "years_at_medtronic:0-5" "learning_style:visual" 2 false;
        mkLink "years_at_medtronic:6-10" "learning_style:auditory" 2 false;
        mkLink "years_at_medtronic:6-10" "learning_style:kinesthetic" 0.0001 true;
        mkLink "years_at_medtronic:6-10" "learning_style:visual" 1 false;
        mkLink "years_at_medtronic:11-15" "learning_style:auditory" 0.0001 true;
        mkLink "years_at_medtronic:11-15" "learning_style:kinesthetic" 0.0001 true;
        mkLink "years_at_medtronic:11-15" "learning_style:visual" 1 false;
        mkLink "years_at_medtronic:20+" "learning_style:auditory" 1 false;
        mkLink "years_at_medtronic:20+" "learning_style:kinesthetic" 1 false;
        mkLink "years_at_medtronic:20+" "learning_style:visual" 2 false]
  /\ map (fun s => sumValues (realLinksFrom (nodeId "years_at_medtronic" s) links))
         ["0-5"; "6-10"; "11-15"; "20+"]
     = [inject_Z 2; inject_Z 3; inject_Z 1; inject_Z 4]
  /\ map (fun t => sumValues (realLinksTo (nodeId "learning_style" t) links))
         ["auditory"; "kinesthetic"; "visual"]
     = [inject_Z 3; inject_Z 1; inject_Z 6].
Proof.
  intros H2 H7 H12 H22 links.
  assert (links = renderLinks getYearsCategory "years_at_medtronic" "learning_style"
                              Samples.scenario false) as Hlinks.
  { unfold links, renderLinks. f_equal. apply renderLinksMap_ext.
    intros d Hd. simpl in Hd.
    repeat (destruct Hd as [<- | Hd]; [vm_compute; assumption|]).
    destruct Hd. }
  rewrite Hlinks. clear.
  repeat split; vm_compute; reflexivity.
Qed.

Lemma scenario_aggregation_witness :
  renderSources "years_at_medtronic" Samples.scenario false
  = ["0-5"; "6-10"; "11-15"; "20+"].
Proof.
  exact (proj1 (scenario_aggregation getYearsCategory
                                     eq_refl eq_refl eq_refl eq_refl)).
Defined.

(** ** Missing values *)

Lemma includes_nullish (arr : list string) (v : jsval) :
  is_nullish v = true -> includes arr v = false.
Proof. now destruct v. Qed.

Lemma counted_missing (gyc : jsval -> string) (cs ct : string)
      (S T : list string) (d : SurveyResponse) :
  ((cs =? "years_at_medtronic") = false /\ is_nullish (getField d cs) = true)
  \/ ((ct =? "years_at_medtronic") = false /\ is_nullish (getField d ct) = true) ->
  counted gyc cs ct S T d = false.
Proof.
  unfold counted, sourceAccessor, targetAccessor.
  intros [[E H] | [E H]]; rewrite E, (includes_nullish _ _ H).
  - reflexivity.
  - apply andb_false_r.
Qed.

Lemma validData_null_years (cs ct : string) (d : SurveyResponse) :
  ((cs =? "years_at_medtronic") || (ct =? "years_at_medtronic")) = true ->
  years_at_medtronic d = VNull ->
  validData cs ct [d] = [].
Proof.
  intros E H. unfold validData. simpl. rewrite H. simpl.
  destruct (cs =? "years_at_medtronic"); simpl; auto.
  simpl in E. now rewrite E.
Qed.

(** C5, as stated, fails: the second row of the sample has no motivation
    and passes the test-data filter, yet the target labels are just
    "growth" -- there is no "Unknown" label -- and the row is not among the
    counted rows: the only real edge has the value 1 while two rows are
    eligible, and the source node of the row has nothing but a dummy edge. *)
Lemma unknown_label_counterexample :
  List.length (filteredData Samples.missingMotivation false) = 2%nat
  /\ renderTargets "motivation" Samples.missingMotivation false = ["growth"]
  /\ includes (renderTargets "motivation" Samples.missingMotivation false)
              (VStr "Unknown") = false
  /\ countedRows getYearsCategory "learning_style" "motivation"
                 Samples.missingMotivation false
     = [Samples.styleRow (VStr "visual") (VStr "growth")]
  /\ renderLinks getYearsCategory "learning_style" "motivation"
                 Samples.missingMotivation false
     = [mkLink "learning_style:auditory" "motivation:growth" 0.0001 true;
        mkLink "learning_style:visual" "motivation:growth" 1 false].
Proof. repeat split; vm_compute; reflexivity. Qed.

(** The chord diagram does add an "Unknown" category for a missing value,
    but its totals compare the raw column value with the category, so the
    row is not counted under it. *)
Example chord_unknown_total :
  Chord.categoryArray Samples.missingMotivation "motivation" = ["Unknown"; "growth"]
  /\ Chord.categoryTotal Samples.missingMotivation "motivation" "Unknown" = 0%nat.
Proof. split; vm_compute; reflexivity. Qed.

Lemma filteredData_as_filter (data : list SurveyResponse) (useTestData : bool) :
  filteredData data useTestData
  = filter (fun item => useTestData || negb (truthy (test_data item))) data.
Proof.
  unfold filteredData. destruct data as [|d0 data]; [reflexivity|].
  cbn [List.length Nat.eqb]. destruct useTestData; [|reflexivity].
  cbn [orb]. symmetry. apply filter_all. reflexivity.
Qed.

(** A row with a missing value is matched with no pair of labels, or is
    not a valid row. *)
Lemma missing_not_matched (gyc : jsval -> string) (cs ct s t : string)
      (d : SurveyResponse) :
  ((cs =? "years_at_medtronic") = false /\ is_nullish (getField d cs) = true)
  \/ ((ct =? "years_at_medtronic") = false /\ is_nullish (getField d ct) = true)
  \/ (((cs =? "years_at_medtronic") || (ct =? "years_at_medtronic")) = true
      /\ years_at_medtronic d = VNull) ->
  ((negb (cs =? "years_at_medtronic") || is_not_null (years_at_medtronic d))
   && (negb (ct =? "years_at_medtronic") || is_not_null (years_at_medtronic d)))
  && matches gyc cs ct s t d = false.
Proof.
  intros [[E H] | [[E H] | [E H]]].
  - unfold matches, sourceAccessor. rewrite E.
    destruct (getField d cs); try discriminate H; cbn [same_value_zero andb];
      apply andb_false_r.
  - unfold matches, targetAccessor. rewrite E.
    destruct (getField d ct); try discriminate H; cbn [same_value_zero];
      rewrite !andb_false_r; reflexivity.
  - rewrite H. cbn [is_not_null]. rewrite !orb_false_r.
    apply orb_true_iff in E. destruct E as [-> | ->]; cbn [negb andb];
      [reflexivity | now rewrite andb_false_r].
Qed.

Lemma count_without_missing (gyc : jsval -> string) (cs ct s t : string)
      (d : SurveyResponse) (l1 l2 : list SurveyResponse) (useTestData : bool) :
  ((cs =? "years_at_medtronic") = false /\ is_nullish (getField d cs) = true)
  \/ ((ct =? "years_at_medtronic") = false /\ is_nullish (getField d ct) = true)
  \/ (((cs =? "years_at_medtronic") || (ct =? "years_at_medtronic")) = true
      /\ years_at_medtronic d = VNull) ->
  count (matches gyc cs ct s t)
        (validData cs ct (filteredData (l1 ++ d :: l2) useTestData))
  = count (matches gyc cs ct s t)
          (validData cs ct (filteredData (l1 ++ l2) useTestData)).
Proof.
  intros H. unfold validData. rewrite !filteredData_as_filter, !count_filter.
  rewrite !count_app. f_equal. unfold count. cbn [filter].
  rewrite (missing_not_matched gyc cs ct s t d H), andb_false_r. reflexivity.
Qed.

(** C5, amended -- missing values in the alluvial aggregation.  No
    "Unknown" label is introduced and the row is left out of the counts.
    A row whose value in the selected categorical source or target field
    is [null] or [undefined], and a row whose years value is [null] while
    the years field is on an axis, is counted in no edge: it is not among
    the counted rows, and every link of the aggregation (for pairwise
    distinct link keys) has the value given by the other rows alone, the
    number of valid ones among them that match its pair, or the
    placeholder 0.0001 when none does.  The labels of a categorical axis
    are exactly the non-empty strings held by some filtered row in that
    field; the labels of a years axis are exactly the catalog labels
    that are the bucket of the years value of some filtered row, a
    missing years value being read as 0. *)
Theorem missing_values_dropped
        (gyc : jsval -> string) (cs ct : string) (d : SurveyResponse) :
  ((cs =? "years_at_medtronic") = false /\ is_nullish (getField d cs) = true)
  \/ ((ct =? "years_at_medtronic") = false /\ is_nullish (getField d ct) = true)
  \/ (((cs =? "years_at_medtronic") || (ct =? "years_at_medtronic")) = true
      /\ years_at_medtronic d = VNull) ->
  (forall data useTestData,
      ~ In d (countedRows gyc cs ct data useTestData))
  /\ (forall l1 l2 useTestData,
         distinctKeys cs ct (renderSources cs (l1 ++ d :: l2) useTestData)
                      (renderTargets ct (l1 ++ d :: l2) useTestData) = true ->
         renderLinks gyc cs ct (l1 ++ d :: l2) useTestData
         = map (fun p =>
                  expectedLink cs ct p
                    (count (matches gyc cs ct (fst p) (snd p))
                           (validData cs ct (filteredData (l1 ++ l2) useTestData))))
               (list_prod (renderSources cs (l1 ++ d :: l2) useTestData)
                          (renderTargets ct (l1 ++ d :: l2) useTestData)))
  /\ (forall data useTestData s,
         (cs =? "years_at_medtronic") = false ->
         (In s (renderSources cs data useTestData) <->
          s <> ""
          /\ exists d', In d' (filteredData data useTestData)
                        /\ getField d' cs = VStr s))
  /\ (forall data useTestData t,
         (ct =? "years_at_medtronic") = false ->
         (In t (renderTargets ct data useTestData) <->
          t <> ""
          /\ exists d', In d' (filteredData data useTestData)
                        /\ getField d' ct = VStr t))
  /\ (forall data useTestData s,
         In s (renderSources "years_at_medtronic" data useTestData) <->
         In s YEARS_CATEGORIES
         /\ exists d', In d' (filteredData data useTestData)
                       /\ getValidYearsCategory
                            (or_else (years_at_medtronic d') (num 0)) = s)
  /\ (forall data useTestData t,
         In t (renderTargets "years_at_medtronic" data useTestData) <->
         In t YEARS_CATEGORIES
         /\ exists d', In d' (filteredData data useTestData)
                       /\ getValidYearsCategory
                            (or_else (years_at_medtronic d') (num 0)) = t).
Proof.
  intros H. split; [|split; [|split; [|split; [|split]]]].
  - intros data useTestData Hin. unfold countedRows in Hin.
    apply filter_In in Hin. destruct Hin as [Hvalid Hcounted].
    unfold validData in Hvalid. apply filter_In in Hvalid.
    destruct Hvalid as [_ Hvalid].
    apply counted_spec in Hcounted. destruct Hcounted as [p [_ [Hs Ht]]].
    pose proof (missing_not_matched gyc cs ct (fst p) (snd p) d H) as Hno.
    rewrite Hvalid in Hno. cbn [andb] in Hno.
    rewrite (proj2 (matches_spec gyc cs ct p d) (conj Hs Ht)) in Hno.
    discriminate Hno.
  - intros l1 l2 useTestData Hkeys.
    rewrite renderLinks_closed by exact Hkeys.
    apply map_ext. intros p. f_equal. now apply count_without_missing.
  - intros data useTestData s E. unfold renderSources.
    rewrite sortedLabels_in. now apply sources_categorical.
  - intros data useTestData t E. unfold renderTargets.
    rewrite sortedLabels_in. now apply targets_categorical.
  - intros data useTestData s. unfold renderSources.
    rewrite sortedLabels_in. apply sources_years.
  - intros data useTestData t. unfold renderTargets.
    rewrite sortedLabels_in, targets_years. apply sources_years.
Qed.

Lemma missing_values_dropped_witness :
  renderLinks getYearsCategory "learning_style" "motivation"
              Samples.missingMotivation false
  = [expectedLink "learning_style" "motivation" ("auditory", "growth") 0;
     expectedLink "learning_style" "motivation" ("visual", "growth") 1]
  /\ ~ In (Samples.styleRow (VStr "auditory") VNull)
          (countedRows getYearsCategory "learning_style" "motivation"
                       Samples.missingMotivation false).
Proof.
  destruct (missing_values_dropped
              getYearsCategory "learning_style" "motivation"
              (Samples.styleRow (VStr "auditory") VNull)
              (or_intror (or_introl (conj eq_refl eq_refl))))
    as [Hout [Hlinks _]].
  split.
  - exact (Hlinks [Samples.styleRow (VStr "visual") (VStr "growth")] [] false
                  eq_refl).
  - apply Hout.
Defined.

(** ** Node order and determinism *)

Lemma years_sort_filter (f : string -> bool) :
  sort_by years_leb (filter f YEARS_CATEGORIES) = filter f YEARS_CATEGORIES.
Proof.
  unfold YEARS_CATEGORIES. cbn [filter].
  destruct (f "0-5"), (f "6-10"), (f "11-15"), (f "16-20"), (f "20+"); reflexivity.
Qed.

(** With the years field on an axis the labels are the catalog entries
    met by some row, in catalog (bucket) order. *)
Lemma renderSources_years (data : list SurveyResponse) (useTestData : bool) :
  renderSources "years_at_medtronic" data useTestData
  = filter (fun cat => existsb (fun d => validYears d =? cat)
                               (filteredData data useTestData))
           YEARS_CATEGORIES.
Proof.
  unfold renderSources, sortedLabels, sources. rewrite String.eqb_refl.
  destruct (filteredData data useTestData) as [|d l]; [reflexivity|].
  cbn [List.length Nat.eqb]. apply years_sort_filter.
Qed.

Lemma renderTargets_years (data : list SurveyResponse) (useTestData : bool) :
  renderTargets "years_at_medtronic" data useTestData
  = filter (fun cat => existsb (fun d => validYears d =? cat)
                               (filteredData data useTestData))
           YEARS_CATEGORIES.
Proof. apply renderSources_years. Qed.

Lemma renderSources_sorted (field : string) (data : list SurveyResponse)
      (useTestData : bool) :
  (field =? "years_at_medtronic") = false ->
  Sorted (fun a b => str_leb a b = true) (renderSources field data useTestData).
Proof.
  intros E. unfold renderSources, sortedLabels. rewrite E.
  apply sort_by_sorted, str_leb_total.
Qed.

Lemma renderTargets_sorted (field : string) (data : list SurveyResponse)
      (useTestData : bool) :
  (field =? "years_at_medtronic") = false ->
  Sorted (fun a b => str_leb a b = true) (renderTargets field data useTestData).
Proof.
  intros E. unfold renderTargets, sortedLabels. rewrite E.
  apply sort_by_sorted, str_leb_total.
Qed.

Lemma renderSources_NoDup (field : string) (data : list SurveyResponse)
      (useTestData : bool) :
  NoDup (renderSources field data useTestData).
Proof.
  eapply Permutation_NoDup;
    [apply Permutation_sym, sortedLabels_perm | apply sources_NoDup].
Qed.

Lemma renderTargets_NoDup (field : string) (data : list SurveyResponse)
      (useTestData : bool) :
  NoDup (renderTargets field data useTestData).
Proof.
  eapply Permutation_NoDup;
    [apply Permutation_sym, sortedLabels_perm | apply targets_NoDup].
Qed.

Lemma validData_perm (cs ct : string) (l l' : list SurveyResponse) :
  Permutation l l' -> Permutation (validData cs ct l) (validData cs ct l').
Proof. apply filter_perm. Qed.

(** The links do not depend on the order in which the rows arrive. *)
Lemma renderLinks_perm (gyc : jsval -> string) (cs ct : string)
      (data data' : list SurveyResponse) (useTestData : bool) :
  Permutation data data' ->
  distinctKeys cs ct (renderSources cs data useTestData)
               (renderTargets ct data useTestData) = true ->
  renderLinks gyc cs ct data' useTestData = renderLinks gyc cs ct data useTestData.
Proof.
  intros HP Hkeys.
  pose proof (renderSources_perm cs _ _ useTestData HP) as HS.
  pose proof (renderTargets_perm ct _ _ useTestData HP) as HT.
  rewrite (renderLinks_closed gyc cs ct data useTestData Hkeys).
  rewrite renderLinks_closed by (now rewrite <- HS, <- HT).
  rewrite <- HS, <- HT. apply map_ext. intros p. f_equal.
  apply count_perm, validData_perm, filteredData_perm.
  now apply Permutation_sym.
Qed.

(** X30 -- The arrays handed to the layout are canonical.  They depend only on
    the rows as a collection, not on the order in which they arrive (the
    links for pairwise distinct link keys).  The node array names the
    source labels, then the target labels; with the years field on an
    axis the labels are in bucket order (the catalog with the unobserved
    buckets removed); any other field has its labels sorted by code
    units, without repeats; sorting again changes nothing.  The link
    array has one link per pair of labels, in the order of the nested
    loops.  (What the layout makes of the arrays, the order of the nodes
    on the axis and their extents, is decided by d3-sankey, which is not
    part of the sources.) *)
Theorem layout_input_canonical
        (gyc : jsval -> string) (cs ct : string)
        (data data' : list SurveyResponse) (useTestData : bool) :
  Permutation data data' ->
  renderNodes cs ct data' useTestData = renderNodes cs ct data useTestData
  /\ map name (renderNodes cs ct data useTestData)
     = (renderSources cs data useTestData ++ renderTargets ct data useTestData)%list
  /\ map category (renderNodes cs ct data useTestData)
     = (map (fun _ => cs) (renderSources cs data useTestData)
          ++ map (fun _ => ct) (renderTargets ct data useTestData))%list
  /\ (distinctKeys cs ct (renderSources cs data useTestData)
                   (renderTargets ct data useTestData) = true ->
      renderLinks gyc cs ct data' useTestData = renderLinks gyc cs ct data useTestData
      /\ map (fun l => (source l, target l)) (renderLinks gyc cs ct data useTestData)
         = map (fun p => (nodeId cs (fst p), nodeId ct (snd p)))
               (list_prod (renderSources cs data useTestData)
                          (renderTargets ct data useTestData)))
  /\ renderSources "years_at_medtronic" data useTestData
     = filter (fun cat => existsb (fun d => validYears d =? cat)
                                  (filteredData data useTestData))
              YEARS_CATEGORIES
  /\ renderTargets "years_at_medtronic" data useTestData
     = filter (fun cat => existsb (fun d => validYears d =? cat)
                                  (filteredData data useTestData))
              YEARS_CATEGORIES
  /\ ((cs =? "years_at_medtronic") = false ->
      Sorted (fun a b => str_leb a b = true) (renderSources cs data useTestData))
  /\ ((ct =? "years_at_medtronic") = false ->
      Sorted (fun a b => str_leb a b = true) (renderTargets ct data useTestData))
  /\ NoDup (renderSources cs data useTestData)
  /\ NoDup (renderTargets ct data useTestData)
  /\ sortedLabels cs (renderSources cs data useTestData)
     = renderSources cs data useTestData
  /\ sortedLabels ct (renderTargets ct data useTestData)
     = renderTargets ct data useTestData.
Proof.
  intros HP.
  assert (renderNodes cs ct data' useTestData = renderNodes cs ct data useTestData)
    as Hnodes.
  { unfold renderNodes.
    now rewrite (renderSources_perm cs _ _ useTestData HP),
                (renderTargets_perm ct _ _ useTestData HP). }
  split; [exact Hnodes|].
  split.
  { unfold renderNodes, buildNodes. rewrite map_app, !map_map. cbn [name].
    now rewrite !map_id. }
  split.
  { unfold renderNodes, buildNodes. rewrite map_app, !map_map. reflexivity. }
  split.
  { intros Hkeys.
    split; [exact (renderLinks_perm gyc cs ct data data' useTestData HP Hkeys)|].
    rewrite renderLinks_closed by exact Hkeys. rewrite map_map.
    apply map_ext. intros p.
    now rewrite expectedLink_source, expectedLink_target. }
  split; [apply renderSources_years|].
  split; [apply renderTargets_years|].
  split; [apply renderSources_sorted|].
  split; [apply renderTargets_sorted|].
  split; [apply renderSources_NoDup|].
  split; [apply renderTargets_NoDup|].
  split; apply sortedLabels_idempotent.
Qed.

Lemma layout_input_canonical_witness :
  renderNodes "years_at_medtronic" "learning_style" Samples.scenarioReversed false
  = renderNodes "years_at_medtronic" "learning_style" Samples.scenario false
  /\ renderLinks getYearsCategory "years_at_medtronic" "learning_style"
                 Samples.scenarioReversed false
     = renderLinks getYearsCategory "years_at_medtronic" "learning_style"
                   Samples.scenario false
  /\ Sorted (fun a b => str_leb a b = true)
            (renderTargets "learning_style" Samples.scenario false).
Proof.
  destruct (layout_input_canonical
              getYearsCategory "years_at_medtronic" "learning_style"
              Samples.scenario Samples.scenarioReversed false
              (Permutation_rev Samples.scenario))
    as (Hnodes & _ & _ & Hlinks & _ & _ & _ & Hsorted & _).
  split; [exact Hnodes|]. split; [exact (proj1 (Hlinks eq_refl))|].
  apply Hsorted. reflexivity.
Defined.

(** ** Field-pair selection *)

(** A requested self-pair is corrected to the first available field other
    than the source, and any other request is kept. *)
Lemma ensureDifferentCategories_distinct (s t : string) :
  fst (Chord.ensureDifferentCategories s t) = s
  /\ snd (Chord.ensureDifferentCategories s t) <> s
  /\ (s <> t -> Chord.ensureDifferentCategories s t = (s, t))
  /\ (s = t ->
      find (fun field => negb (field =? s)) Chord.availableFields
      = Some (snd (Chord.ensureDifferentCategories s t))).
Proof.
  unfold Chord.ensureDifferentCategories, Chord.availableFields.
  destruct (s =? t) eqn:E.
  - apply String.eqb_eq in E. subst t. cbn [find].
    destruct ("years_at_medtronic" =? s) eqn:E1; cbn [negb].
    + apply String.eqb_eq in E1. subst s. cbn.
      repeat split; try discriminate; congruence.
    + cbn. apply String.eqb_neq in E1.
      repeat split; try congruence.
  - apply String.eqb_neq in E. cbn. repeat split; congruence.
Qed.

Lemma selectPair_distinct (s t : string) (st : Chord.CycleState) :
  Chord.currentSource (Chord.selectPair s t st)
  <> Chord.currentTarget (Chord.selectPair s t st).
Proof.
  unfold Chord.selectPair. cbn.
  destruct (ensureDifferentCategories_distinct s t) as [H1 [H2 _]].
  rewrite H1. congruence.
Qed.

Lemma syncModeIndex_pair (modes : list Chord.Mode) (st : Chord.CycleState) :
  Chord.currentSource (Chord.syncModeIndex modes st) = Chord.currentSource st
  /\ Chord.currentTarget (Chord.syncModeIndex modes st) = Chord.currentTarget st.
Proof.
  unfold Chord.syncModeIndex.
  destruct (Chord.findIndex_from 0 modes _ _); auto.
Qed.

(** The interval callback never puts a self-pair on display. *)
Lemma cycleTick_distinct (modes : list Chord.Mode) (st st' : Chord.CycleState) :
  Chord.currentSource st <> Chord.currentTarget st ->
  Chord.cycleTick modes st = Some st' ->
  Chord.currentSource st' <> Chord.currentTarget st'.
Proof.
  intros Hst. unfold Chord.cycleTick.
  destruct modes as [|m0 modes]; [discriminate|].
  destruct (nth_error _ _) as [m|]; [|discriminate].
  destruct (Chord.mode_source m =? Chord.mode_target m) eqn:E.
  - intros H. inversion H. now subst.
  - apply String.eqb_neq in E.
    destruct (_ && _); intros H; inversion H; subst; clear H.
    + exact E.
    + match goal with
      | |- Chord.currentSource (Chord.syncModeIndex ?ms ?x) <> _ =>
          destruct (syncModeIndex_pair ms x) as [H1 H2]; rewrite H1, H2
      end.
      exact E.
Qed.

(** When the next mode of the rotation is a self-pair, the callback
    returns before it advances the mode index. *)
Lemma cycleTick_stalls (modes : list Chord.Mode) (st : Chord.CycleState)
      (m : Chord.Mode) :
  nth_error modes ((Chord.currentModeIndex st + 1) mod List.length modes) = Some m ->
  Chord.mode_source m = Chord.mode_target m ->
  forall n, Chord.cycleTicks modes n st = st.
Proof.
  intros Hm Hself n. induction n as [|n IH]; [reflexivity|].
  cbn [Chord.cycleTicks].
  assert (Chord.cycleTick modes st = Some st) as ->; [|exact IH].
  unfold Chord.cycleTick. destruct modes as [|m0 modes].
  - destruct ((Chord.currentModeIndex st + 1) mod List.length (@nil Chord.Mode));
      discriminate.
  - rewrite Hm, Hself, String.eqb_refl. reflexivity.
Qed.

(** C6 -- self-pair guard, evaluated on a rotation whose second mode pairs
    "learning_style" with itself.  No expiry of the interval ever displays
    the self-pair, but the rotation does not skip forward to the next valid
    pair either: every expiry leaves the mode index at 0 and the first pair
    on display, so the third, valid mode is never reached. *)
Theorem self_pair_rotation_stalls :
  nth_error Samples.selfPairModes 2
  = Some (Chord.mkMode "learning_style" "motivation")
  /\ forall n : nat,
      Chord.cycleTicks Samples.selfPairModes n Samples.firstMode = Samples.firstMode
      /\ Chord.currentModeIndex
           (Chord.cycleTicks Samples.selfPairModes n Samples.firstMode) <> 2%nat.
Proof.
  split; [reflexivity|]. intros n.
  assert (Chord.cycleTicks Samples.selfPairModes n Samples.firstMode
          = Samples.firstMode) as H.
  { apply (cycleTick_stalls _ _ (Chord.mkMode "learning_style" "learning_style"));
      reflexivity. }
  split; [exact H|]. rewrite H. discriminate.
Qed.

(** The alluvial rotation builds its target options without the source
    field, so it cannot select a self-pair. *)
Lemma targetOptionsFor_excludes (s t : string) :
  In t (Sequencer.targetOptionsFor s) -> t <> s.
Proof.
  unfold Sequencer.targetOptionsFor. intros H. apply filter_In in H.
  destruct H as [_ H]. apply negb_true_iff, String.eqb_neq in H. exact H.
Qed.

(** ** Highlight sequencer *)

Import Sequencer.

Section SequencerFacts.
Variable sourceCount : string -> nat.
Variable dataLength : nat.

Let runCallback := Sequencer.runCallback sourceCount dataLength.
Let fire := Sequencer.fire sourceCount dataLength.
Let step := Sequencer.step sourceCount dataLength.
Let run := Sequencer.run sourceCount dataLength.

(** Every timer callback starts with the guard on [running] and
    [isPaused]: on a stopped or paused sequencer it does nothing. *)
Lemma guarded_callback_noop (cb : Callback) (st : State) :
  running (anim st) = false \/ isPaused (anim st) = true ->
  runCallback cb st = st.
Proof.
  intros H. unfold runCallback, Sequencer.runCallback.
  destruct cb; destruct H as [H | H]; rewrite H; cbn;
    rewrite ?orb_true_r, ?andb_false_r; reflexivity.
Qed.

Lemma fire_guarded (id : nat) (st : State) :
  running (anim st) = false \/ isPaused (anim st) = true ->
  fire id st = st \/ fire id st = clearTimeout id st.
Proof.
  intros H. unfold fire, Sequencer.fire.
  destruct (lookupTimer id (pending st)) as [cb|]; auto.
  right. now apply guarded_callback_noop.
Qed.

(** Timers that expire on a stopped or paused sequencer leave the
    animation state, the view and the highlight trace untouched and
    schedule nothing. *)
Lemma run_fire_guarded (ids : list nat) (st : State) :
  running (anim st) = false \/ isPaused (anim st) = true ->
  anim (run st (map Fire ids)) = anim st
  /\ view (run st (map Fire ids)) = view st
  /\ highlights (run st (map Fire ids)) = highlights st
  /\ nextTimerId (run st (map Fire ids)) = nextTimerId st
  /\ incl (pending (run st (map Fire ids))) (pending st).
Proof.
  revert st. induction ids as [|id ids IH]; intros st H.
  - cbn. repeat split; auto. apply incl_refl.
  - cbn [map]. unfold run, Sequencer.run. cbn [fold_left Sequencer.step].
    fold fire. fold run.
    destruct (fire_guarded id st H) as [E | E]; rewrite E.
    + apply IH; assumption.
    + destruct (IH (clearTimeout id st)) as [H1 [H2 [H3 [H4 H5]]]]; [exact H|].
      repeat split; auto.
      eapply incl_tran; [exact H5|]. cbn. apply incl_filter.
Qed.

Lemma lookupTimer_cleared (id : nat) (l : list (nat * Callback)) :
  lookupTimer id (filter (fun p => negb (fst p =? id)%nat) l) = None.
Proof.
  induction l as [|[id' cb] l IH]; cbn; [reflexivity|].
  destruct (id' =? id)%nat eqn:E; cbn; [exact IH|].
  now rewrite E.
Qed.

Lemma clearTracked_none (st : State) :
  timer (anim st) = None -> clearTracked st = st.
Proof. unfold clearTracked. now intros ->. Qed.

(** The cleanup stops the sequencer and cancels the tracked timer. *)
Lemma cleanup_stops (st : State) :
  running (anim (cleanup st)) = false
  /\ timer (anim (cleanup st)) = None
  /\ (forall id, timer (anim st) = Some id ->
                 lookupTimer id (pending (cleanup st)) = None)
  /\ incl (pending (cleanup st)) (pending st).
Proof.
  unfold cleanup, clearTracked.
  destruct (timer (anim st)) as [id|] eqn:E; cbn.
  - repeat split; auto.
    + intros id' H. inversion H; subst. apply lookupTimer_cleared.
    + apply incl_filter.
  - rewrite E. repeat split; auto.
    + discriminate.
    + apply incl_refl.
Qed.

Lemma stop_event_cleanup (st : State) (e : Event) :
  e = Unmount \/ (e = SetAutoPlay false /\ autoPlayOn (view st) = true) ->
  anim (step st e) = anim (cleanup st)
  /\ pending (step st e) = pending (cleanup st).
Proof.
  intros [-> | [-> H]]; cbn.
  - auto.
  - rewrite H. cbn. unfold effectBody. cbn.
    destruct (cleanup_stops st) as [_ [Ht _]].
    rewrite (clearTracked_none (withView (setAutoPlayOn false) (cleanup st)))
      by exact Ht.
    split; reflexivity.
Qed.
End SequencerFacts.

(** C8 -- cancellation safety is not achieved.  The stop cancels the
    one timer whose id is held in [animationRef.timer]; the follow-up
    timer of a target switch is created without keeping its id.  Mounted
    with one source node, after the first target switch that follow-up
    timer (2) is pending.  Switching autoplay off, or tearing the
    component down, leaves it pending.  When autoplay is switched on
    again before it expires, the sequencer restarts with a timer of its
    own (3), and the stale callback then finds the running flag set: it
    runs [animate] on the restarted sequencer, advances the cycle
    counter, emits a highlight, cancels timer 3 and schedules timer 4. *)
Theorem stale_timer_runs_after_restart :
  running (anim Samples.stoppedAfterSwitch) = false
  /\ pending Samples.stoppedAfterSwitch = [(2%nat, ContinueTimer 1)]
  /\ pending (Sequencer.run Samples.oneSource 10
                (Sequencer.started Samples.oneSource 10) [FireNext; Unmount])
     = [(2%nat, ContinueTimer 1)]
  /\ pending Samples.restartedAfterSwitch
     = [(2%nat, ContinueTimer 1);
        (3%nat, TargetTimer 1 (targetOptionsFor "years_at_medtronic"))]
  /\ anim Samples.restartedAfterSwitch = mkAnim (Some 3%nat) true 0 0 false 1
  /\ anim (Sequencer.run Samples.oneSource 10 Samples.restartedAfterSwitch [Fire 2])
     = mkAnim (Some 4%nat) true 0 0 false 2
  /\ highlights (Sequencer.run Samples.oneSource 10 Samples.restartedAfterSwitch [Fire 2])
     = (highlights Samples.restartedAfterSwitch ++ [0%nat])%list
  /\ lookupTimer 3 (pending (Sequencer.run Samples.oneSource 10
                                           Samples.restartedAfterSwitch [Fire 2]))
     = None
  /\ Sequencer.run Samples.oneSource 10 Samples.restartedAfterSwitch [Fire 2]
     <> Samples.restartedAfterSwitch.
Proof.
  split; [vm_compute; reflexivity|].
  split; [vm_compute; reflexivity|].
  split; [vm_compute; reflexivity|].
  split; [vm_compute; reflexivity|].
  split; [vm_compute; reflexivity|].
  split; [vm_compute; reflexivity|].
  split; [vm_compute; reflexivity|].
  split; [vm_compute; reflexivity|].
  vm_compute. discriminate.
Qed.

(** What the guard flags do achieve.  When the sequencer is stopped
    (autoplay switched off, or the component torn down) the running flag
    is cleared and the tracked timer is cancelled; every timer callback
    checks the running and paused flags before it acts, so whatever
    timers expire afterwards, in any order, while the sequencer stays
    stopped, the animation state, the view and the highlight trace stay
    as they are and no timer is scheduled. *)
Lemma stopped_sequencer_is_inert
        (sourceCount : string -> nat) (dataLength : nat)
        (st : State) (e : Event) (ids : list nat) :
  e = Unmount \/ (e = SetAutoPlay false /\ autoPlayOn (view st) = true) ->
  let stopped := Sequencer.step sourceCount dataLength st e in
  let later := Sequencer.run sourceCount dataLength stopped (map Fire ids) in
  running (anim stopped) = false
  /\ timer (anim stopped) = None
  /\ (forall id, timer (anim st) = Some id ->
                 lookupTimer id (pending stopped) = None)
  /\ (forall cb st',
         running (anim st') = false \/ isPaused (anim st') = true ->
         Sequencer.runCallback sourceCount dataLength cb st' = st')
  /\ anim later = anim stopped
  /\ view later = view stopped
  /\ highlights later = highlights stopped
  /\ nextTimerId later = nextTimerId stopped
  /\ incl (pending later) (pending stopped).
Proof.
  intros He stopped later.
  destruct (stop_event_cleanup sourceCount dataLength st e He) as [Ha Hp].
  destruct (cleanup_stops st) as [Hr [Ht [Hc _]]].
  assert (running (anim stopped) = false) as Hrun
      by (unfold stopped; now rewrite Ha).
  split; [exact Hrun|].
  split; [unfold stopped; now rewrite Ha|].
  split; [intros id Hid; unfold stopped; rewrite Hp; now apply Hc|].
  split; [intros cb st' H; now apply guarded_callback_noop|].
  apply run_fire_guarded. now left.
Qed.

Lemma stopped_sequencer_is_inert_witness :
  anim (Sequencer.run Samples.oneSource 10 Samples.stoppedAfterSwitch [Fire 2])
  = anim Samples.stoppedAfterSwitch
  /\ highlights (Sequencer.run Samples.oneSource 10 Samples.stoppedAfterSwitch [Fire 2])
     = highlights Samples.stoppedAfterSwitch.
Proof.
  destruct (stopped_sequencer_is_inert
              Samples.oneSource 10
              (Sequencer.step Samples.oneSource 10
                              (Sequencer.started Samples.oneSource 10) FireNext)
              (SetAutoPlay false) [2%nat]
              (or_intror (conj eq_refl eq_refl)))
    as [_ [_ [_ [_ [Ha [_ [Hh _]]]]]]].
  split; [exact Ha | exact Hh].
Defined.

(** *** The first cycling phase *)

Lemma fire_single (sourceCount : string -> nat) (dataLength : nat)
      (a : Anim) (v : View) (id : nat) (cb : Callback) (next : nat)
      (shown : list nat) :
  Sequencer.fire sourceCount dataLength id (mkState a v [(id, cb)] next shown)
  = Sequencer.runCallback sourceCount dataLength cb (mkState a v [] next shown).
Proof.
  unfold Sequencer.fire, clearTimeout. cbn [pending lookupTimer filter fst].
  rewrite Nat.eqb_refl. reflexivity.
Qed.

Section Cycling.
Variable sourceCount : string -> nat.
Variable dataLength : nat.
Variable n : nat.

Hypothesis Hcount : sourceCount "years_at_medtronic" = n.
Hypothesis Hdata : (0 < dataLength)%nat.

Let step := Sequencer.step sourceCount dataLength.
Let run := Sequencer.run sourceCount dataLength.

Lemma dataLength_nonzero : (dataLength =? 0)%nat = false.
Proof. apply Nat.eqb_neq. lia. Qed.

(** [animate] on a running sequencer whose timers have all expired or
    been cancelled. *)
Lemma animate_cycling (t : option nat) (k id cycles : nat) (shown : list nat)
      (hovered : option nat) (phase : Phase) (opaque : bool) :
  (cycles <= 1000)%nat ->
  animate dataLength n
          (mkState (mkAnim t true k 0 false cycles)
                   (mkView true "years_at_medtronic" "learning_style"
                           hovered phase opaque)
                   [] id shown)
  = cyclingState n k id (Datatypes.S cycles) (shown ++ [k]).
Proof.
  intros Hc. unfold animate. cbn [anim isPaused running negb orb].
  rewrite dataLength_nonzero. cbn [cycleCount].
  assert ((1000 <? cycles)%nat = false) as -> by (apply Nat.ltb_ge; exact Hc).
  unfold cyclingState, cyclingTimer.
  cbn [withAnim withView anim view pending nextTimerId highlights
       setCycleCount setAnimationPhase setIsInFullOpacityState
       setHoveredSourceIndex timer running currentSourceIndex
       currentTargetIndex isPaused cycleCount autoPlayOn currentSource
       currentTarget hoveredSourceIndex animationPhase isInFullOpacityState].
  destruct (Z.of_nat k <? Z.of_nat n - 1)%Z.
  - reflexivity.
  - destruct t; reflexivity.
Qed.

Lemma started_cycling :
  Sequencer.started sourceCount dataLength = cyclingState n 0 1 1 [0%nat].
Proof.
  unfold Sequencer.started, effectBody, initialState. cbn [view autoPlayOn negb].
  rewrite dataLength_nonzero. cbn [anim running initialAnim].
  change (currentSource (view _)) with "years_at_medtronic".
  rewrite Hcount.
  apply (animate_cycling None 0 1 0 [] None full false). lia.
Qed.

(** One dwell: the step timer expires and the next index is shown. *)
Lemma step_cycling (k id cycles : nat) (shown : list nat) :
  (Datatypes.S k < n)%nat -> (cycles <= 1000)%nat ->
  step (cyclingState n k id cycles shown) FireNext
  = cyclingState n (Datatypes.S k) (Datatypes.S id) (Datatypes.S cycles)
                 (shown ++ [Datatypes.S k]).
Proof.
  intros Hk Hc.
  change (step (cyclingState n k id cycles shown) FireNext)
    with (Sequencer.fire sourceCount dataLength id
            (mkState (mkAnim (Some id) true k 0 false cycles)
                     (mkView true "years_at_medtronic" "learning_style"
                             (Some k) highlighting false)
                     [(id, cyclingTimer n k)] (Datatypes.S id) shown)).
  rewrite fire_single. unfold cyclingTimer.
  assert ((Z.of_nat k <? Z.of_nat n - 1)%Z = true) as -> by (apply Z.ltb_lt; lia).
  unfold Sequencer.runCallback. cbn [anim running isPaused negb orb].
  apply (animate_cycling (Some id) (Datatypes.S k) (Datatypes.S id) cycles shown
                         (Some k) highlighting false Hc).
Qed.

Lemma run_cycling (j : nat) :
  forall k id cycles shown,
  (k + j < n)%nat -> (cycles + j <= 1001)%nat ->
  run (cyclingState n k id cycles shown) (repeat FireNext j)
  = cyclingState n (k + j) (id + j) (cycles + j) (shown ++ seq (Datatypes.S k) j).
Proof.
  induction j as [|j IH]; intros k id cycles shown Hk Hc.
  - cbn [repeat seq]. rewrite !Nat.add_0_r, app_nil_r. reflexivity.
  - change (run (cyclingState n k id cycles shown) (repeat FireNext (Datatypes.S j)))
      with (run (step (cyclingState n k id cycles shown) FireNext) (repeat FireNext j)).
    rewrite step_cycling by lia. rewrite IH by lia.
    cbn [seq]. rewrite <- app_assoc. cbn [app].
    f_equal; lia.
Qed.

(** A hover on an element that carries the handlers of the handler
    effect pauses the sequencer and cancels its timer; the end of the
    hover schedules a restart, which shows the captured index again. *)
Lemma pause_resume_cycling (el : Element) (k id cycles : nat) (shown : list nat) :
  (cycles <= 1000)%nat ->
  run (cyclingState n k id cycles shown)
      [HoverEnter HandlerEffect el; HoverLeave HandlerEffect el; FireNext]
  = cyclingState n k (Datatypes.S (Datatypes.S id)) (Datatypes.S cycles)
                 (shown ++ [k]).
Proof.
  intros Hc.
  set (hovered := hoverEnterView HandlerEffect el
                    (mkView true "years_at_medtronic" "learning_style"
                            (Some k) highlighting false)).
  assert (step (cyclingState n k id cycles shown) (HoverEnter HandlerEffect el)
          = mkState (mkAnim None true k 0 true cycles) hovered
                    [] (Datatypes.S id) shown) as Hpause.
  { unfold step, Sequencer.step, pauseAnimation, cyclingState, clearTracked,
      clearTimeout.
    cbn [withAnim withView anim view pending nextTimerId highlights setPaused
         setTimer timer running currentSourceIndex
         currentTargetIndex isPaused cycleCount negb andb filter fst].
    rewrite Nat.eqb_refl. reflexivity. }
  assert (step (mkState (mkAnim None true k 0 true cycles) hovered
                        [] (Datatypes.S id) shown) (HoverLeave HandlerEffect el)
          = mkState (mkAnim None true k 0 false cycles)
                    (mkView true "years_at_medtronic" "learning_style"
                            None full false)
                    [(Datatypes.S id, ContinueTimer n)]
                    (Datatypes.S (Datatypes.S id)) shown) as Hresume.
  { unfold step, Sequencer.step, resumeAnimation, scheduleUntracked.
    cbn [withAnim withView anim view pending nextTimerId highlights setPaused
         timer running currentSourceIndex currentTargetIndex isPaused cycleCount
         negb andb app].
    assert (currentSource hovered = "years_at_medtronic") as ->
        by (unfold hovered; destruct el; reflexivity).
    rewrite Hcount. unfold hovered. destruct el; reflexivity. }
  change (run (cyclingState n k id cycles shown)
              [HoverEnter HandlerEffect el; HoverLeave HandlerEffect el; FireNext])
    with (step (step (step (cyclingState n k id cycles shown)
                           (HoverEnter HandlerEffect el))
                     (HoverLeave HandlerEffect el)) FireNext).
  rewrite Hpause, Hresume.
  change (step ?st FireNext)
    with (Sequencer.fire sourceCount dataLength (Datatypes.S id) st).
  rewrite fire_single.
  unfold Sequencer.runCallback. cbn [anim running isPaused negb andb].
  apply (animate_cycling None k (Datatypes.S (Datatypes.S id)) cycles shown
                         None full false Hc).
Qed.
End Cycling.

(** * Further properties of the code *)

(** ** Test rows and node ids *)

Lemma filteredData_filter (data : list SurveyResponse) :
  filteredData data false
  = filter (fun item => negb (truthy (test_data item))) data.
Proof.
  unfold filteredData. destruct data; reflexivity.
Qed.

(** X1 -- With test data switched off, a test row has no influence on what is
    handed to the layout: the node and link arrays are those of the rows
    without it.  With test data switched on every row is kept. *)
Theorem test_rows_ignored
        (gyc : jsval -> string) (cs ct : string)
        (before after : list SurveyResponse) (d : SurveyResponse) :
  truthy (test_data d) = true ->
  filteredData (before ++ d :: after) false = filteredData (before ++ after) false
  /\ ~ In d (filteredData (before ++ d :: after) false)
  /\ renderNodes cs ct (before ++ d :: after) false
     = renderNodes cs ct (before ++ after) false
  /\ renderLinks gyc cs ct (before ++ d :: after) false
     = renderLinks gyc cs ct (before ++ after) false
  /\ filteredData (before ++ d :: after) true = (before ++ d :: after)%list.
Proof.
  intros Ht.
  assert (filteredData (before ++ d :: after) false
          = filteredData (before ++ after) false) as Hf.
  { rewrite !filteredData_filter, !filter_app. cbn [filter]. now rewrite Ht. }
  split; [exact Hf|].
  split.
  { rewrite filteredData_filter. intros Hin. apply filter_In in Hin.
    destruct Hin as [_ Hin]. rewrite Ht in Hin. discriminate. }
  split; [unfold renderNodes, renderSources, renderTargets; now rewrite Hf|].
  split.
  { unfold renderLinks, renderLinksMap, renderSources, renderTargets.
    now rewrite Hf. }
  unfold filteredData. destruct before; reflexivity.
Qed.

Lemma test_rows_ignored_witness :
  renderLinks getYearsCategory "years_at_medtronic" "learning_style"
              (firstn 4 Samples.scenario ++ MoreSamples.testRow
                 :: skipn 4 Samples.scenario) false
  = renderLinks getYearsCategory "years_at_medtronic" "learning_style"
                (firstn 4 Samples.scenario ++ skipn 4 Samples.scenario) false.
Proof.
  exact (proj1 (proj2 (proj2 (proj2
           (test_rows_ignored getYearsCategory "years_at_medtronic" "learning_style"
                              (firstn 4 Samples.scenario) (skipn 4 Samples.scenario)
                              MoreSamples.testRow eq_refl))))).
Defined.

Lemma nodeId_fields_differ (cs ct a b : string) :
  In cs availableFields -> In ct availableFields -> cs <> ct ->
  nodeId cs a <> nodeId ct b.
Proof.
  unfold availableFields, nodeId. cbn [In]. intros Hs Ht Hne.
  repeat (destruct Hs as [<- | Hs]; [|]); try contradiction;
    repeat (destruct Ht as [<- | Ht]; [|]); try contradiction;
      try congruence; cbn; discriminate.
Qed.

(** X2 -- For two different fields of [availableFields] the ids of the nodes
    handed to the layout are pairwise distinct, so every id names one
    node.  For a self-pair, by contrast, every source node shares its id
    with a target node. *)
Theorem node_ids_distinct
        (cs ct : string) (data : list SurveyResponse) (useTestData : bool) :
  In cs availableFields -> In ct availableFields ->
  (cs <> ct -> NoDup (map id (renderNodes cs ct data useTestData)))
  /\ (cs = ct ->
      forall s, In s (renderSources cs data useTestData) ->
                In (nodeId cs s)
                   (map id (buildNodes cs ct [] (renderTargets ct data useTestData)))).
Proof.
  intros Hs Ht. split.
  - intros Hne. unfold renderNodes, buildNodes. rewrite map_app, !map_map.
    cbn [id]. apply NoDup_app.
    + assert (forall f l, NoDup l -> NoDup (map (nodeId f) l)) as Hinj.
      { intros f l. induction 1 as [|x l Hx Hl IH]; cbn; constructor; auto.
        intros Hin. apply in_map_iff in Hin. destruct Hin as [y [Hy Hin]].
        apply nodeId_inj in Hy. now subst. }
      apply Hinj, renderSources_NoDup.
    + assert (forall f l, NoDup l -> NoDup (map (nodeId f) l)) as Hinj.
      { intros f l. induction 1 as [|x l Hx Hl IH]; cbn; constructor; auto.
        intros Hin. apply in_map_iff in Hin. destruct Hin as [y [Hy Hin]].
        apply nodeId_inj in Hy. now subst. }
      apply Hinj, renderTargets_NoDup.
    + intros x Hx Hy. apply in_map_iff in Hx, Hy.
      destruct Hx as [a [Ha _]]. destruct Hy as [b [Hb _]].
      apply (nodeId_fields_differ cs ct a b Hs Ht Hne). congruence.
  - intros -> s Hin. unfold buildNodes. cbn [map app]. rewrite map_map. cbn [id].
    apply in_map.
    unfold renderSources in Hin. unfold renderTargets.
    apply sortedLabels_in in Hin. apply sortedLabels_in.
    destruct (ct =? "years_at_medtronic") eqn:E.
    + apply String.eqb_eq in E. subst. now rewrite targets_years.
    + apply (sources_categorical _ _ _ E) in Hin.
      now apply (targets_categorical _ _ _ E).
Qed.

Lemma node_ids_distinct_witness :
  NoDup (map id (renderNodes "years_at_medtronic" "learning_style"
                             Samples.scenario false)).
Proof.
  apply (proj1 (node_ids_distinct "years_at_medtronic" "learning_style"
                                  Samples.scenario false
                                  (or_introl eq_refl)
                                  (or_intror (or_introl eq_refl)))).
  discriminate.
Defined.

(** ** The chord diagram's pair selection and rotation *)

(** X3 -- [ensureDifferentCategories] keeps the source, returns a target
    different from it, and is idempotent.  A self-pair request gets
    "years_at_medtronic" as its target, or "peak_performance" when the
    source is "years_at_medtronic" itself; the correction is a field of
    [availableFields] even when the request is not. *)
Theorem ensure_different_categories_corrects (s t : string) :
  let r := Chord.ensureDifferentCategories s t in
  fst r = s
  /\ snd r <> fst r
  /\ Chord.ensureDifferentCategories (fst r) (snd r) = r
  /\ (s <> t -> snd r = t)
  /\ (s = t ->
      snd r = (if s =? "years_at_medtronic" then "peak_performance"
               else "years_at_medtronic")
      /\ In (snd r) Chord.availableFields).
Proof.
  cbn zeta.
  destruct (ensureDifferentCategories_distinct s t) as [H1 [H2 [H3 H4]]].
  split; [exact H1|]. split; [congruence|]. split.
  - destruct (Chord.ensureDifferentCategories s t) as [a b] eqn:E.
    cbn [fst snd] in *. subst a.
    unfold Chord.ensureDifferentCategories at 1.
    apply not_eq_sym, String.eqb_neq in H2. now rewrite H2.
  - split.
    + intros Hne. now rewrite (H3 Hne).
    + intros ->. specialize (H4 eq_refl).
      unfold Chord.availableFields in *. cbn [find] in H4.
      rewrite (String.eqb_sym "years_at_medtronic" t) in H4.
      destruct (t =? "years_at_medtronic") eqn:E; cbn [negb] in H4.
      * apply String.eqb_eq in E. subst t. cbn.
        split; [reflexivity|]. right. left. reflexivity.
      * injection H4 as H5. rewrite <- H5. split; [reflexivity|].
        left. reflexivity.
Qed.

Lemma ensure_different_categories_corrects_witness :
  snd (Chord.ensureDifferentCategories "learning_style" "learning_style")
  = "years_at_medtronic".
Proof.
  exact (proj1 (proj2 (proj2 (proj2 (proj2
           (ensure_different_categories_corrects "learning_style" "learning_style"))))
           eq_refl)).
Defined.

(** X4 -- Whatever the mode list holds, the auto-cycling interval never puts a
    self-pair on display: a state with two different fields stays so
    after any number of expiries. *)
Theorem rotation_never_self_pair
        (modes : list Chord.Mode) (n : nat) (st : Chord.CycleState) :
  Chord.currentSource st <> Chord.currentTarget st ->
  Chord.currentSource (Chord.cycleTicks modes n st)
  <> Chord.currentTarget (Chord.cycleTicks modes n st).
Proof.
  revert st. induction n as [|n IH]; intros st Hst; [exact Hst|].
  cbn [Chord.cycleTicks]. apply IH.
  destruct (Chord.cycleTick modes st) as [st'|] eqn:E; [|exact Hst].
  exact (cycleTick_distinct modes st st' Hst E).
Qed.

Lemma rotation_never_self_pair_witness :
  Chord.currentSource (Chord.cycleTicks Samples.selfPairModes 7 Samples.firstMode)
  <> Chord.currentTarget (Chord.cycleTicks Samples.selfPairModes 7 Samples.firstMode).
Proof.
  apply (rotation_never_self_pair Samples.selfPairModes 7 Samples.firstMode).
  vm_compute. discriminate.
Defined.

Lemma findIndex_from_first (modes : list Chord.Mode) :
  NoDup modes ->
  forall (i j : nat) (m : Chord.Mode),
    nth_error modes j = Some m ->
    Chord.findIndex_from i modes (Chord.mode_source m) (Chord.mode_target m)
    = Some (i + j)%nat.
Proof.
  induction 1 as [|m0 modes Hm0 Hnd IH]; intros i j m Hj.
  - destruct j; discriminate.
  - destruct j as [|j]; cbn [nth_error] in Hj.
    + inversion Hj. subst m0. cbn [Chord.findIndex_from].
      rewrite !String.eqb_refl. cbn. f_equal. lia.
    + cbn [Chord.findIndex_from].
      destruct ((Chord.mode_source m0 =? Chord.mode_source m)
                && (Chord.mode_target m0 =? Chord.mode_target m)) eqn:E.
      * apply andb_true_iff in E. destruct E as [E1 E2].
        apply String.eqb_eq in E1, E2. exfalso. apply Hm0.
        apply nth_error_In in Hj.
        destruct m0 as [a b], m as [c d]. cbn in E1, E2. now subst.
      * rewrite (IH (Datatypes.S i) j m Hj). f_equal. lia.
Qed.

Lemma cycleTick_advances (modes : list Chord.Mode) (st : Chord.CycleState) :
  modes <> [] -> NoDup modes ->
  Forall (fun m => Chord.mode_source m <> Chord.mode_target m) modes ->
  exists m,
    nth_error modes ((Chord.currentModeIndex st + 1) mod List.length modes) = Some m
    /\ Chord.cycleTick modes st
       = Some (Chord.mkCycle ((Chord.currentModeIndex st + 1) mod List.length modes)
                             (Chord.mode_source m) (Chord.mode_target m)).
Proof.
  intros Hne Hnd Hall.
  assert (List.length modes <> 0)%nat as Hlen.
  { destruct modes; [congruence|cbn; lia]. }
  pose proof (Nat.mod_upper_bound (Chord.currentModeIndex st + 1) _ Hlen) as Hlt.
  destruct (nth_error modes ((Chord.currentModeIndex st + 1) mod List.length modes))
    as [m|] eqn:Hm.
  2:{ apply nth_error_None in Hm. lia. }
  exists m. split; [reflexivity|].
  unfold Chord.cycleTick. destruct modes as [|m0 rest] eqn:Hmodes; [congruence|].
  rewrite <- Hmodes in *. rewrite Hm.
  assert (Chord.mode_source m <> Chord.mode_target m) as Hpair.
  { rewrite Forall_forall in Hall. apply Hall. eapply nth_error_In; eauto. }
  apply String.eqb_neq in Hpair. rewrite Hpair.
  destruct (_ && _); [reflexivity|].
  unfold Chord.syncModeIndex. cbn [Chord.currentSource Chord.currentTarget].
  rewrite (findIndex_from_first modes Hnd 0 _ m Hm). reflexivity.
Qed.

(** X5 -- With a non-empty mode list without repeats and without self-pairs,
    every expiry of the interval moves one mode forward and wraps at the
    end: after [n + 1] expiries the mode index is the start index plus
    [n + 1] modulo the number of modes, and the pair on display is the
    mode at that index. *)
Theorem rotation_advances
        (modes : list Chord.Mode) (n : nat) (st : Chord.CycleState) :
  modes <> [] -> NoDup modes ->
  Forall (fun m => Chord.mode_source m <> Chord.mode_target m) modes ->
  let st' := Chord.cycleTicks modes (Datatypes.S n) st in
  Chord.currentModeIndex st'
  = ((Chord.currentModeIndex st + Datatypes.S n) mod List.length modes)%nat
  /\ nth_error modes (Chord.currentModeIndex st')
     = Some (Chord.mkMode (Chord.currentSource st') (Chord.currentTarget st')).
Proof.
  intros Hne Hnd Hall. cbn zeta. revert st.
  assert (List.length modes <> 0)%nat as Hlen.
  { destruct modes; [congruence|cbn; lia]. }
  induction n as [|n IH]; intros st.
  - cbn [Chord.cycleTicks].
    destruct (cycleTick_advances modes st Hne Hnd Hall) as [m [Hm ->]].
    cbn [Chord.currentModeIndex Chord.currentSource Chord.currentTarget].
    split; [reflexivity|]. rewrite Hm. now destruct m.
  - change (Chord.cycleTicks modes (Datatypes.S (Datatypes.S n)) st)
      with (Chord.cycleTicks modes (Datatypes.S n)
              (match Chord.cycleTick modes st with
               | Some st' => st' | None => st end)).
    destruct (cycleTick_advances modes st Hne Hnd Hall) as [m [Hm ->]].
    destruct (IH (Chord.mkCycle
                    ((Chord.currentModeIndex st + 1) mod List.length modes)
                    (Chord.mode_source m) (Chord.mode_target m))) as [H1 H2].
    split; [|exact H2]. rewrite H1. cbn [Chord.currentModeIndex].
    rewrite Nat.Div0.add_mod_idemp_l. f_equal. lia.
Qed.

Lemma rotation_advances_witness :
  Chord.currentModeIndex
    (Chord.cycleTicks MoreSamples.threeModes 4
                      (Chord.mkCycle 0 "years_at_medtronic" "learning_style"))
  = 1%nat.
Proof.
  refine (proj1 (rotation_advances MoreSamples.threeModes 3
                   (Chord.mkCycle 0 "years_at_medtronic" "learning_style") _ _ _)).
  - discriminate.
  - repeat constructor; cbn; intuition discriminate.
  - repeat constructor; cbn; discriminate.
Defined.

(** ** The sequencer under hover and field switches *)





Section SequencerHover.
Variable sourceCount : string -> nat.
Variable dataLength : nat.

Let step := Sequencer.step sourceCount dataLength.
Let run := Sequencer.run sourceCount dataLength.

(** The pending list once the tracked timer, if any, is cancelled. *)
Let untracked (st : State) : list (nat * Callback) :=
  match timer (anim st) with
  | Some id => filter (fun p => negb (fst p =? id)%nat) (pending st)
  | None => pending st
  end.


(** X7 -- Pausing cancels the tracked timer only.  Two hovers in a row on
    elements that carry the handlers of the handler effect, the second
    before the first resume timer has expired, leave two resume timers
    pending, and neither is the tracked one: nothing in the code can
    cancel them, and each calls [animate] when it expires. *)
Theorem repeated_hover_leaves_two_timers (st : State) (el1 el2 el3 : Element) :
  running (anim st) = true -> isPaused (anim st) = false ->
  let n := sourceCount (currentSource (view st)) in
  let twice := run st [HoverEnter HandlerEffect el1; HoverLeave HandlerEffect el1;
                       HoverEnter HandlerEffect el2; HoverLeave HandlerEffect el2] in
  pending twice
  = (untracked st ++ [(nextTimerId st, ContinueTimer n);
                      (Datatypes.S (nextTimerId st), ContinueTimer n)])%list
  /\ timer (anim twice) = None
  /\ running (anim twice) = true /\ isPaused (anim twice) = false
  /\ pending (step twice Unmount) = pending twice
  /\ pending (step twice (HoverEnter HandlerEffect el3)) = pending twice.
Proof.
  intros Hr Hp.
  destruct st as [[t r si ti p c] [ap cs ct hov ph fo] pd nid hl].
  cbn in Hr, Hp. subst r p. cbn zeta.
  assert (run (mkState (mkAnim t true si ti false c) (mkView ap cs ct hov ph fo)
                       pd nid hl)
              [HoverEnter HandlerEffect el1; HoverLeave HandlerEffect el1;
               HoverEnter HandlerEffect el2; HoverLeave HandlerEffect el2]
          = mkState (mkAnim None true si ti false c)
                    (mkView ap cs ct None full fo)
                    ((untracked (mkState (mkAnim t true si ti false c)
                                         (mkView ap cs ct hov ph fo) pd nid hl)
                        ++ [(nid, ContinueTimer (sourceCount cs))])
                       ++ [(Datatypes.S nid, ContinueTimer (sourceCount cs))])
                    (Datatypes.S (Datatypes.S nid)) hl) as ->.
  { unfold untracked. destruct t, el1, el2; reflexivity. }
  rewrite <- app_assoc. cbn [app anim pending timer running isPaused view
                             currentSource nextTimerId].
  repeat (split; [reflexivity|]). split; reflexivity.
Qed.
End SequencerHover.


Lemma repeated_hover_leaves_two_timers_witness :
  pending (Sequencer.run MoreSamples.threeSources 10
             (Sequencer.started MoreSamples.threeSources 10)
             [HoverEnter HandlerEffect (OnLink 1); HoverLeave HandlerEffect (OnLink 1);
              HoverEnter HandlerEffect OnTargetNode;
              HoverLeave HandlerEffect OnTargetNode])
  = [(2%nat, ContinueTimer 3); (3%nat, ContinueTimer 3)].
Proof.
  refine (proj1 (repeated_hover_leaves_two_timers MoreSamples.threeSources 10
                   (Sequencer.started MoreSamples.threeSources 10)
                   (OnLink 1) OnTargetNode OnTargetNode _ _)).
  - reflexivity.
  - reflexivity.
Defined.

Section SequencerSwitch.
Variable sourceCount : string -> nat.
Variable dataLength : nat.

Let step := Sequencer.step sourceCount dataLength.
Let run := Sequencer.run sourceCount dataLength.
Let runCallback := Sequencer.runCallback sourceCount dataLength.

Let untracked (st : State) : list (nat * Callback) :=
  match timer (anim st) with
  | Some id => filter (fun p => negb (fst p =? id)%nat) (pending st)
  | None => pending st
  end.

(** The follow-up timer of a field switch or of a resume is live on
    every running, unpaused sequencer: when it expires it announces a
    highlight, whichever run of the effect created it. *)
Lemma continue_timer_live (n : nat) (st : State) :
  running (anim st) = true -> isPaused (anim st) = false ->
  (0 < dataLength)%nat ->
  highlights (runCallback (ContinueTimer n) st)
  = (highlights st
       ++ [if (1000 <? cycleCount (anim st))%nat then 0%nat
           else currentSourceIndex (anim st)])%list.
Proof.
  intros Hr Hp Hd.
  destruct st as [[t r si ti p c] [ap cs ct hov ph fo] pd nid hl].
  cbn in Hr, Hp. subst r p.
  unfold runCallback, Sequencer.runCallback. cbn [anim running isPaused negb andb].
  unfold animate. cbn [anim isPaused running negb orb].
  assert ((dataLength =? 0)%nat = false) as -> by (apply Nat.eqb_neq; lia).
  cbn [cycleCount].
  destruct (1000 <? c)%nat;
    cbn [withAnim withView anim view pending nextTimerId highlights
         setCycleCount setAnimationPhase setIsInFullOpacityState
         setHoveredSourceIndex setSourceIndex setTargetIndex
         timer running currentSourceIndex
         currentTargetIndex isPaused cycleCount autoPlayOn currentSource
         currentTarget hoveredSourceIndex animationPhase isInFullOpacityState];
    destruct (_ <? _)%Z; try reflexivity;
      destruct (_ <? _)%Z; destruct t; reflexivity.
Qed.

Ltac switched count s' t' n nid hl rest :=
  transitivity
    (if (0 <? Z.of_nat (count s') - 1)%Z
     then mkState (mkAnim (Some (Datatypes.S nid)) true 0 0 false 1)
                  (mkView true s' t' (Some 0%nat) highlighting false)
                  (rest ++ [(Datatypes.S nid, StepTimer (count s'))])
                  (Datatypes.S (Datatypes.S nid)) (hl ++ [0%nat])
     else mkState (mkAnim (Some (Datatypes.S nid)) true 0 0 false 1)
                  (mkView true s' t' (Some 0%nat) highlighting false)
                  (rest ++ [(Datatypes.S nid,
                             TargetTimer (count s') (targetOptionsFor s'))])
                  (Datatypes.S (Datatypes.S nid)) (hl ++ [0%nat]));
  [reflexivity|].

Lemma source_switch_closed (n : nat) (t : option nat) (si ti c : nat)
      (cs s' t' ct : string) (hov : option nat) (ph : Phase) (fo : bool)
      (pd : list (nat * Callback)) (nid : nat) (hl : list nat) :
  (0 < dataLength)%nat ->
  (forall id, t = Some id -> (id < nid)%nat) ->
  In (cs, (s', t'))
     [("years_at_medtronic", ("learning_style", "years_at_medtronic"));
      ("learning_style", ("shaped_by", "years_at_medtronic"));
      ("shaped_by", ("peak_performance", "years_at_medtronic"));
      ("peak_performance", ("motivation", "years_at_medtronic"));
      ("motivation", ("years_at_medtronic", "learning_style"))] ->
  runCallback (SourceTimer n)
              (mkState (mkAnim t true si ti false c)
                       (mkView true cs ct hov ph fo) pd nid hl)
  = mkState (mkAnim (Some (Datatypes.S nid)) true 0 0 false 1)
            (mkView true s' t' (Some 0%nat) highlighting false)
            (untracked (mkState (mkAnim t true si ti false c)
                                (mkView true cs ct hov ph fo) pd nid hl)
               ++ [(nid, ContinueTimer n);
                   (Datatypes.S nid,
                    if (0 <? Z.of_nat (sourceCount s') - 1)%Z
                    then StepTimer (sourceCount s')
                    else TargetTimer (sourceCount s') (targetOptionsFor s'))])
            (Datatypes.S (Datatypes.S nid)) (hl ++ [0%nat]).
Proof.
  intros Hd Ht Hin.
  destruct dataLength as [|d] eqn:Hdl; [lia|].
  unfold untracked. cbn [anim timer pending].
  cbn [In] in Hin.
  destruct Hin as [H | [H | [H | [H | [H | []]]]]];
    injection H as <- <- <-;
    (destruct t as [id|];
     [ specialize (Ht id eq_refl);
       match goal with
       | |- _ = mkState _ (mkView _ ?s' ?t' _ _ _) _ _ _ =>
           switched sourceCount s' t' n nid hl
                    (filter (fun p : nat * Callback => negb (fst p =? id)%nat)
                            (pd ++ [(nid, ContinueTimer n)]))
       end;
       rewrite filter_app; cbn [filter fst];
       assert ((nid =? id)%nat = false) as -> by (apply Nat.eqb_neq; lia);
       cbn [negb]; rewrite <- !app_assoc; cbn [app];
       destruct (_ <? _)%Z; reflexivity
     | match goal with
       | |- _ = mkState _ (mkView _ ?s' ?t' _ _ _) _ _ _ =>
           switched sourceCount s' t' n nid hl (pd ++ [(nid, ContinueTimer n)])%list
       end;
       rewrite <- !app_assoc; cbn [app];
       destruct (_ <? _)%Z; reflexivity ]).
Qed.

(** X8 -- When the last target of a source field is done, the sequencer moves
    to the next source field in the order of [availableFields], wrapping
    at the end, pairs it with the first field other than it, and resets
    both indices.  The change of source restarts the animation effect,
    which announces the first node and keeps its own timer; the follow-up
    timer that the callback itself created stays pending beside it,
    untracked and live, so two timers drive the sequencer after a source
    switch. *)
Theorem source_switch_starts_second_timer (n : nat) (st : State) :
  running (anim st) = true -> isPaused (anim st) = false ->
  autoPlayOn (view st) = true -> (0 < dataLength)%nat ->
  (forall id, timer (anim st) = Some id -> (id < nextTimerId st)%nat) ->
  In (currentSource (view st)) availableFields ->
  let st' := runCallback (SourceTimer n) st in
  let s' := currentSource (view st') in
  In (currentSource (view st), s')
     [("years_at_medtronic", "learning_style"); ("learning_style", "shaped_by");
      ("shaped_by", "peak_performance"); ("peak_performance", "motivation");
      ("motivation", "years_at_medtronic")]
  /\ currentTarget (view st')
     = (if s' =? "years_at_medtronic" then "learning_style"
        else "years_at_medtronic")
  /\ anim st' = mkAnim (Some (Datatypes.S (nextTimerId st))) true 0 0 false 1
  /\ highlights st' = (highlights st ++ [0%nat])%list
  /\ pending st'
     = (untracked st
          ++ [(nextTimerId st, ContinueTimer n);
              (Datatypes.S (nextTimerId st),
               if (0 <? Z.of_nat (sourceCount s') - 1)%Z
               then StepTimer (sourceCount s')
               else TargetTimer (sourceCount s') (targetOptionsFor s'))])%list
  /\ (forall later : State,
         running (anim later) = true -> isPaused (anim later) = false ->
         highlights (runCallback (ContinueTimer n) later)
         = (highlights later
              ++ [if (1000 <? cycleCount (anim later))%nat then 0%nat
                  else currentSourceIndex (anim later)])%list).
Proof.
  intros Hr Hp Ha Hd Ht Hin.
  assert (forall later : State,
         running (anim later) = true -> isPaused (anim later) = false ->
         highlights (runCallback (ContinueTimer n) later)
         = (highlights later
              ++ [if (1000 <? cycleCount (anim later))%nat then 0%nat
                  else currentSourceIndex (anim later)])%list) as Hlive.
  { intros later H1 H2. now apply continue_timer_live. }
  destruct st as [[t r si ti p c] [ap cs ct hov ph fo] pd nid hl].
  cbn in Hr, Hp, Ha, Ht, Hin. subst r p ap.
  unfold availableFields in Hin. cbn [In] in Hin. cbn zeta.
  destruct Hin as [<- | [<- | [<- | [<- | [<- | []]]]]].
  - rewrite (source_switch_closed n t si ti c "years_at_medtronic"
               "learning_style" "years_at_medtronic" ct hov ph fo pd nid hl Hd Ht)
      by (cbn; tauto).
    cbn [view anim currentSource currentTarget highlights pending nextTimerId].
    repeat (split; [first [reflexivity | cbn; tauto]|]). exact Hlive.
  - rewrite (source_switch_closed n t si ti c "learning_style"
               "shaped_by" "years_at_medtronic" ct hov ph fo pd nid hl Hd Ht)
      by (cbn; tauto).
    cbn [view anim currentSource currentTarget highlights pending nextTimerId].
    repeat (split; [first [reflexivity | cbn; tauto]|]). exact Hlive.
  - rewrite (source_switch_closed n t si ti c "shaped_by"
               "peak_performance" "years_at_medtronic" ct hov ph fo pd nid hl Hd Ht)
      by (cbn; tauto).
    cbn [view anim currentSource currentTarget highlights pending nextTimerId].
    repeat (split; [first [reflexivity | cbn; tauto]|]). exact Hlive.
  - rewrite (source_switch_closed n t si ti c "peak_performance"
               "motivation" "years_at_medtronic" ct hov ph fo pd nid hl Hd Ht)
      by (cbn; tauto).
    cbn [view anim currentSource currentTarget highlights pending nextTimerId].
    repeat (split; [first [reflexivity | cbn; tauto]|]). exact Hlive.
  - rewrite (source_switch_closed n t si ti c "motivation"
               "years_at_medtronic" "learning_style" ct hov ph fo pd nid hl Hd Ht)
      by (cbn; tauto).
    cbn [view anim currentSource currentTarget highlights pending nextTimerId].
    repeat (split; [first [reflexivity | cbn; tauto]|]). exact Hlive.
Qed.
End SequencerSwitch.

Lemma source_switch_starts_second_timer_witness :
  pending (Sequencer.runCallback MoreSamples.threeSources 10 (SourceTimer 3)
             (mkState (mkAnim (Some 7%nat) true 2 3 false 12)
                      (mkView true "motivation" "shaped_by" (Some 2%nat)
                              highlighting false)
                      [] 8 [2%nat]))
  = [(8%nat, ContinueTimer 3); (9%nat, StepTimer 3)].
Proof.
  refine (proj1 (proj2 (proj2 (proj2 (proj2
            (source_switch_starts_second_timer MoreSamples.threeSources 10 3
               (mkState (mkAnim (Some 7%nat) true 2 3 false 12)
                        (mkView true "motivation" "shaped_by" (Some 2%nat)
                                highlighting false)
                        [] 8 [2%nat]) _ _ _ _ _ _)))))).
  - reflexivity.
  - reflexivity.
  - reflexivity.
  - lia.
  - cbn. intros id H. injection H as <-. lia.
  - cbn. tauto.
Defined.

Section SequencerCounter.
Variable sourceCount : string -> nat.
Variable dataLength : nat.

Let step := Sequencer.step sourceCount dataLength.
Let run := Sequencer.run sourceCount dataLength.

Lemma cycleCount_clearTracked (st : State) :
  cycleCount (anim (clearTracked st)) = cycleCount (anim st).
Proof. unfold clearTracked. destruct (timer (anim st)); reflexivity. Qed.

Lemma cycleCount_animate (n : nat) (st : State) :
  (cycleCount (anim st) <= 1001)%nat ->
  (cycleCount (anim (animate dataLength n st)) <= 1001)%nat.
Proof.
  intros H. unfold animate.
  destruct (isPaused (anim st)); [exact H|].
  destruct (negb (running (anim st)) || (dataLength =? 0)%nat); [exact H|].
  assert (forall s : State, (cycleCount (anim s) <= 1000)%nat ->
            (cycleCount (anim (withAnim (fun a => setCycleCount
                                 (Datatypes.S (cycleCount a)) a) s)) <= 1001)%nat)
    as Hinc by (intros s Hs; cbn; lia).
  destruct (1000 <? cycleCount (anim st))%nat eqn:E.
  - destruct (_ <? _)%Z; [cbn; lia|].
    destruct (_ <? _)%Z; cbn [scheduleTracked anim setTimer cycleCount];
      rewrite cycleCount_clearTracked; cbn; lia.
  - apply Nat.ltb_ge in E.
    destruct (_ <? _)%Z; [cbn; lia|].
    destruct (_ <? _)%Z; cbn [scheduleTracked anim setTimer cycleCount];
      rewrite cycleCount_clearTracked; cbn; lia.
Qed.

Lemma cycleCount_cleanup (st : State) :
  cycleCount (anim (cleanup st)) = cycleCount (anim st).
Proof.
  unfold cleanup. cbn [withView withAnim anim setRunning cycleCount].
  apply cycleCount_clearTracked.
Qed.

Lemma cycleCount_effectBody (st : State) :
  (cycleCount (anim st) <= 1001)%nat ->
  (cycleCount (anim (effectBody sourceCount dataLength st)) <= 1001)%nat.
Proof.
  intros H. unfold effectBody.
  destruct (negb (autoPlayOn (view st))).
  - cbn [withView withAnim anim setRunning cycleCount].
    now rewrite cycleCount_clearTracked.
  - destruct (dataLength =? 0)%nat; [exact H|].
    apply cycleCount_animate. cbn. lia.
Qed.

Lemma cycleCount_runCallback (cb : Callback) (st : State) :
  (cycleCount (anim st) <= 1001)%nat ->
  (cycleCount (anim (Sequencer.runCallback sourceCount dataLength cb st)) <= 1001)%nat.
Proof.
  intros H. destruct cb as [n | n opts | n | n]; unfold Sequencer.runCallback.
  - destruct (negb (running (anim st)) || isPaused (anim st)); [exact H|].
    apply cycleCount_animate. exact H.
  - destruct (negb (running (anim st)) || isPaused (anim st)); [exact H|].
    exact H.
  - destruct (negb (running (anim st)) || isPaused (anim st)); [exact H|].
    cbv zeta. destruct (_ =? _); [exact H|].
    unfold effectRerun. apply cycleCount_effectBody.
    rewrite cycleCount_cleanup. exact H.
  - destruct (running (anim st) && negb (isPaused (anim st))); [|exact H].
    apply cycleCount_animate. exact H.
Qed.

Lemma cycleCount_step (st : State) (e : Event) :
  (cycleCount (anim st) <= 1001)%nat ->
  (cycleCount (anim (step st e)) <= 1001)%nat.
Proof.
  intros H.
  assert (forall id, (cycleCount (anim (fire sourceCount dataLength id st)) <= 1001)%nat)
    as Hfire.
  { intros id. unfold fire. destruct (lookupTimer id (pending st)); [|exact H].
    apply cycleCount_runCallback. exact H. }
  destruct e as [id | | bound el | bound el | on |]; unfold step, Sequencer.step.
  - apply Hfire.
  - destruct (pending st) as [|[id cb] rest] eqn:E; [exact H|].
    apply Hfire.
  - cbn [withView anim]. destruct bound; [exact H|]. unfold pauseAnimation.
    destruct (_ && _); [|exact H]. now rewrite cycleCount_clearTracked.
  - cbn [withView anim]. destruct bound; [exact H|]. unfold resumeAnimation.
    destruct (_ && _); exact H.
  - destruct (Bool.eqb _ _); [exact H|].
    apply cycleCount_effectBody. cbn [withView anim].
    now rewrite cycleCount_cleanup.
  - now rewrite cycleCount_cleanup.
Qed.

(** X9 -- Whatever happens to a mounted sequencer (timers expiring in any
    order, hovers, the autoplay switch, a teardown), its safety counter
    never exceeds 1001: [animate] resets it, together with both indices,
    as soon as it has passed 1000. *)
Theorem cycle_count_bounded (autoPlay : bool) (events : list Event) :
  (cycleCount (anim (run (effectBody sourceCount dataLength (initialState autoPlay))
                         events)) <= 1001)%nat.
Proof.
  assert (forall st, (cycleCount (anim st) <= 1001)%nat ->
                     (cycleCount (anim (run st events)) <= 1001)%nat) as Hrun.
  { induction events as [|e es IH]; intros st H; [exact H|].
    unfold run, Sequencer.run. cbn [fold_left]. apply IH.
    now apply cycleCount_step. }
  apply Hrun. apply cycleCount_effectBody. cbn. lia.
Qed.

(** X10 -- Once the counter has passed 1000, the next call of [animate] on a
    running sequencer starts over: it announces source index 0 and
    leaves both indices at 0 and the counter at 1, wherever the cursor
    was. *)
Theorem cycle_limit_resets_cursor (n : nat) (st : State) :
  running (anim st) = true -> isPaused (anim st) = false ->
  (0 < dataLength)%nat -> (1000 < cycleCount (anim st))%nat ->
  let st' := animate dataLength n st in
  highlights st' = (highlights st ++ [0%nat])%list
  /\ currentSourceIndex (anim st') = 0%nat
  /\ currentTargetIndex (anim st') = 0%nat
  /\ cycleCount (anim st') = 1%nat.
Proof.
  intros Hr Hp Hd Hc.
  destruct st as [[t r si ti p c] [ap cs ct hov ph fo] pd nid hl].
  cbn in Hr, Hp, Hc. subst r p. cbn zeta.
  unfold animate. cbn [anim isPaused running negb orb].
  assert ((dataLength =? 0)%nat = false) as -> by (apply Nat.eqb_neq; lia).
  cbn [cycleCount].
  assert ((1000 <? c)%nat = true) as -> by (apply Nat.ltb_lt; exact Hc).
  cbn [withAnim withView anim view pending nextTimerId highlights
       setCycleCount setAnimationPhase setIsInFullOpacityState
       setHoveredSourceIndex setSourceIndex setTargetIndex
       timer running currentSourceIndex
       currentTargetIndex isPaused cycleCount autoPlayOn currentSource
       currentTarget hoveredSourceIndex animationPhase isInFullOpacityState].
  destruct (_ <? _)%Z; [repeat split; reflexivity|].
  destruct (_ <? _)%Z; destruct t; repeat split; reflexivity.
Qed.
End SequencerCounter.

Lemma cycle_limit_resets_cursor_witness :
  highlights (animate 10 3
                (mkState (mkAnim (Some 7%nat) true 2 3 false 1001)
                         (mkView true "motivation" "shaped_by" (Some 2%nat)
                                 highlighting false)
                         [] 8 [2%nat]))
  = [2%nat; 0%nat].
Proof.
  refine (proj1 (cycle_limit_resets_cursor 10 3
                   (mkState (mkAnim (Some 7%nat) true 2 3 false 1001)
                            (mkView true "motivation" "shaped_by" (Some 2%nat)
                                    highlighting false)
                            [] 8 [2%nat]) _ _ _ _)).
  - reflexivity.
  - reflexivity.
  - lia.
  - cbn. lia.
Defined.

(** ** Chart sizing and timings *)

Lemma qmax_spec (a b : Q) :
  (a <= b /\ Sizing.qmax a b = b) \/ (b < a /\ Sizing.qmax a b = a).
Proof.
  unfold Sizing.qmax. destruct (Qle_bool a b) eqn:E.
  - left. split; [now apply Qle_bool_iff|reflexivity].
  - right. split; [|reflexivity].
    apply Qnot_le_lt. intros H. apply Qle_bool_iff in H. congruence.
Qed.

Lemma qmin_spec (a b : Q) :
  (a <= b /\ Sizing.qmin a b = a) \/ (b < a /\ Sizing.qmin a b = b).
Proof.
  unfold Sizing.qmin. destruct (Qle_bool a b) eqn:E.
  - left. split; [now apply Qle_bool_iff|reflexivity].
  - right. split; [|reflexivity].
    apply Qnot_le_lt. intros H. apply Qle_bool_iff in H. congruence.
Qed.

Ltac qclamp :=
  repeat match goal with
         | |- context [Sizing.qmax ?a ?b] =>
             let H := fresh "H" in let E := fresh "E" in
             destruct (qmax_spec a b) as [[H E] | [H E]]; rewrite E in *; clear E
         | |- context [Sizing.qmin ?a ?b] =>
             let H := fresh "H" in let E := fresh "E" in
             destruct (qmin_spec a b) as [[H E] | [H E]]; rewrite E in *; clear E
         | _ : context [Sizing.qmax ?a ?b] |- _ =>
             let H := fresh "H" in let E := fresh "E" in
             destruct (qmax_spec a b) as [[H E] | [H E]]; rewrite E in *; clear E
         | _ : context [Sizing.qmin ?a ?b] |- _ =>
             let H := fresh "H" in let E := fresh "E" in
             destruct (qmin_spec a b) as [[H E] | [H E]]; rewrite E in *; clear E
         end.

Ltac qlin := unfold Qdiv in *; cbn [Qinv Qnum Qden] in *; lra.

Lemma availableHeight_bounds (containerHeight : Q) (n : nat) :
  180 <= Sizing.availableHeight containerHeight n <= 700
  /\ ((n <= 3)%nat -> Sizing.availableHeight containerHeight n <= 320)
  /\ ((10 <= n)%nat -> 500 <= Sizing.availableHeight containerHeight n).
Proof.
  unfold Sizing.availableHeight, Sizing.MIN_CHART_HEIGHT, Sizing.MAX_CHART_HEIGHT.
  destruct (Nat.leb_spec n 3) as [E3 | E3];
    destruct (Nat.leb_spec 10 n) as [E10 | E10]; try lia;
    qclamp; repeat split; intros; try lia; lra.
Qed.

Lemma ofNat_le (a b : nat) : (a <= b)%nat -> Sizing.ofNat a <= Sizing.ofNat b.
Proof.
  intros H. unfold Sizing.ofNat. rewrite <- Zle_Qle. lia.
Qed.

Lemma nodeCount_pos (ns nt : nat) : (1 <= Sizing.nodeCount ns nt)%nat.
Proof. unfold Sizing.nodeCount. lia. Qed.

Lemma nodeHeight_bounds (H : Q) (n : nat) :
  (16 <= Sizing.nodeHeight H n <= 48)%Z
  /\ ((n <= 3)%nat -> (Sizing.nodeHeight H n <= 36)%Z).
Proof.
  unfold Sizing.nodeHeight, Sizing.minNodeHeight, Sizing.maxNodeHeight.
  destruct (Nat.leb_spec n 3); split; intros; lia.
Qed.

(** X11 -- The chart height stays between 180 and 700 pixels whatever the
    container measures, at most 320 for three nodes or fewer and at
    least 500 for ten or more.  Nodes are between 16 and 48 pixels high
    (36 when sparse), the padding is never below 8, and the label font
    size lies between 12 and 24: it is half the node height, rounded
    down, and never reaches the clamp of 28 that the code names. *)
Theorem chart_height_bounds (containerHeight : Q) (sourcesLength targetsLength : nat) :
  let n := Sizing.nodeCount sourcesLength targetsLength in
  let H := Sizing.availableHeight containerHeight n in
  let h := Sizing.nodeHeight H n in
  180 <= H <= 700
  /\ ((n <= 3)%nat -> H <= 320)
  /\ ((10 <= n)%nat -> 500 <= H)
  /\ (16 <= h <= 48)%Z
  /\ ((n <= 3)%nat -> (h <= 36)%Z)
  /\ 8 <= Sizing.nodePadding H n
  /\ (12 <= Sizing.labelFontSize h <= 24)%Z
  /\ Sizing.labelFontSize h = Z.max 12 (h / 2).
Proof.
  cbn zeta.
  set (n := Sizing.nodeCount sourcesLength targetsLength).
  set (H := Sizing.availableHeight containerHeight n).
  destruct (availableHeight_bounds containerHeight n) as [H1 [H2 H3]].
  destruct (nodeHeight_bounds H n) as [H4 H5].
  split; [exact H1|]. split; [exact H2|]. split; [exact H3|].
  split; [exact H4|]. split; [exact H5|].
  split.
  { unfold Sizing.nodePadding, Sizing.minPadding. qclamp; lra. }
  assert (Qfloor (inject_Z (Sizing.nodeHeight H n) * 0.5)
          = (Sizing.nodeHeight H n / 2)%Z) as Hhalf.
  { set (h := Sizing.nodeHeight H n).
    assert (inject_Z h * 0.5 == h # 2) as ->.
    { unfold Qeq. cbn. lia. }
    reflexivity. }
  unfold Sizing.labelFontSize. rewrite Hhalf.
  assert (8 <= Sizing.nodeHeight H n / 2 <= 24)%Z.
  { split; [apply Z.div_le_lower_bound | apply Z.div_le_upper_bound]; lia. }
  split; lia.
Qed.

(** X12 -- The nodes of an axis, stacked with the minimum padding of 8 pixels
    above, between and below them, fit the chart height exactly when the
    height is at least 24 pixels per node plus 8.  Otherwise the node
    height is pinned at its minimum of 16 and the stack is taller than
    the chart; with 29 nodes or more on an axis this is always so. *)
Theorem node_stack_fits (containerHeight : Q) (sourcesLength targetsLength : nat) :
  let n := Sizing.nodeCount sourcesLength targetsLength in
  let H := Sizing.availableHeight containerHeight n in
  let h := Sizing.nodeHeight H n in
  let stack := Sizing.ofNat n * inject_Z h + (Sizing.ofNat n + 1) * 8 in
  (24 * Sizing.ofNat n + 8 <= H -> stack <= H)
  /\ (H < 24 * Sizing.ofNat n + 8 -> h = 16%Z /\ H < stack)
  /\ ((29 <= n)%nat -> h = 16%Z /\ H < stack).
Proof.
  cbn zeta.
  set (n := Sizing.nodeCount sourcesLength targetsLength).
  set (H := Sizing.availableHeight containerHeight n).
  pose proof (nodeCount_pos sourcesLength targetsLength) as Hn. fold n in Hn.
  assert (1 <= Sizing.ofNat n) as HN.
  { change 1 with (Sizing.ofNat 1). now apply ofNat_le. }
  set (N := Sizing.ofNat n) in *.
  set (x := (H - (N + 1) * Sizing.minPadding) / N).
  assert (x * N == H - (N + 1) * 8) as Hx.
  { unfold x, Sizing.minPadding. field. lra. }
  assert (Sizing.nodeHeight H n
          = Z.max 16 (Z.min (Qfloor x) (Sizing.maxNodeHeight n))) as Hh by reflexivity.
  assert (36 <= Sizing.maxNodeHeight n)%Z as Hmx.
  { unfold Sizing.maxNodeHeight. destruct (n <=? 3)%nat; lia. }
  assert (24 * N + 8 <= H -> N * inject_Z (Sizing.nodeHeight H n) + (N + 1) * 8 <= H)
    as Hfit.
  { intros Hroom.
    assert (16 <= x) as H16.
    { apply Qnot_lt_le. intros Hlt.
      assert (x * N < 16 * N) by (apply Qmult_lt_compat_r; lra). lra. }
    assert (16 <= Qfloor x)%Z as Hf.
    { change 16%Z with (Qfloor 16). now apply Qfloor_resp_le. }
    assert (Sizing.nodeHeight H n <= Qfloor x)%Z as Hle by (rewrite Hh; lia).
    assert (inject_Z (Sizing.nodeHeight H n) <= x) as Hq.
    { eapply Qle_trans; [|apply Qfloor_le]. now rewrite <- Zle_Qle. }
    assert (inject_Z (Sizing.nodeHeight H n) * N <= x * N)
      by (apply Qmult_le_compat_r; lra).
    lra. }
  assert (H < 24 * N + 8 ->
          Sizing.nodeHeight H n = 16%Z
          /\ H < N * inject_Z (Sizing.nodeHeight H n) + (N + 1) * 8) as Hover.
  { intros Htight.
    assert (x < 16) as H16.
    { apply Qnot_le_lt. intros Hle.
      assert (16 * N <= x * N) by (apply Qmult_le_compat_r; lra). lra. }
    assert (Qfloor x < 16)%Z as Hf.
    { rewrite Zlt_Qlt. eapply Qle_lt_trans; [apply Qfloor_le|exact H16]. }
    assert (Sizing.nodeHeight H n = 16%Z) as H16' by (rewrite Hh; lia).
    split; [exact H16'|]. rewrite H16'. change (inject_Z 16) with 16. lra. }
  split; [exact Hfit|]. split; [exact Hover|].
  intros Hmany. apply Hover.
  destruct (availableHeight_bounds containerHeight n) as [[_ Hmax] _]. fold H in Hmax.
  assert (Sizing.ofNat 29 <= N) as H29 by (now apply ofNat_le).
  assert (Sizing.ofNat 29 == 29) as E29 by reflexivity.
  lra.
Qed.

Lemma node_stack_fits_witness :
  Sizing.nodeHeight (Sizing.availableHeight 600 (Sizing.nodeCount 30 4))
                    (Sizing.nodeCount 30 4) = 16%Z.
Proof.
  refine (proj1 (proj2 (proj2 (node_stack_fits 600 30 4)) _)).
  vm_compute. lia.
Defined.

Lemma chart_height_bounds_witness :
  Sizing.availableHeight 1000 (Sizing.nodeCount 2 3) <= 320.
Proof.
  refine (proj1 (proj2 (chart_height_bounds 1000 2 3)) _).
  vm_compute. lia.
Defined.

Lemma maxLabelWidth_bounds (labelWidths : list Q) :
  80 <= Sizing.maxLabelWidth labelWidths
  /\ forall w, In w labelWidths -> w <= Sizing.maxLabelWidth labelWidths.
Proof.
  unfold Sizing.maxLabelWidth.
  induction labelWidths as [|w ws [IH1 IH2]]; cbn [fold_right].
  - split; [lra|]. intros w [].
  - split.
    + qclamp; lra.
    + intros w' [<- | Hin].
      * qclamp; lra.
      * specialize (IH2 w' Hin). qclamp; lra.
Qed.

(** X13 -- The chart is between 320 and 1400 pixels wide whatever the container
    and the labels measure, at most 480 for three nodes or fewer and at
    least 900 for ten or more.  Each side margin is the widest label, or
    80 if that is more, plus 24; when the container leaves the chart at
    least 320 pixels, chart and margins together are no wider than the
    container, unless the chart is dense. *)
Theorem chart_width_bounds (containerWidth : Q) (labelWidths : list Q) (n : nat) :
  let W := Sizing.chartWidth containerWidth labelWidths n in
  let margin := Sizing.maxLabelWidth labelWidths + 24 in
  320 <= W <= 1400
  /\ ((n <= 3)%nat -> W <= 480)
  /\ ((10 <= n)%nat -> 900 <= W)
  /\ 104 <= margin
  /\ (forall w, In w labelWidths -> w + 24 <= margin)
  /\ ((n < 10)%nat -> 320 <= containerWidth - 2 * margin ->
      W + 2 * margin <= containerWidth).
Proof.
  cbn zeta.
  destruct (maxLabelWidth_bounds labelWidths) as [Hm1 Hm2].
  unfold Sizing.chartWidth, Sizing.MIN_CHART_WIDTH, Sizing.MAX_CHART_WIDTH,
    Sizing.labelPadding.
  set (m := Sizing.maxLabelWidth labelWidths) in *.
  split; [|split; [|split; [|split; [|split]]]].
  - destruct (Nat.leb_spec n 3); destruct (Nat.leb_spec 10 n); try lia;
      qclamp; lra.
  - intros Hs. destruct (Nat.leb_spec n 3); destruct (Nat.leb_spec 10 n); try lia.
    qclamp; lra.
  - intros Hd. destruct (Nat.leb_spec n 3); destruct (Nat.leb_spec 10 n); try lia.
    qclamp; lra.
  - lra.
  - intros w Hin. specialize (Hm2 w Hin). lra.
  - intros Hs Hroom.
    destruct (Nat.leb_spec n 3); destruct (Nat.leb_spec 10 n); try lia;
      qclamp; lra.
Qed.

Lemma chart_width_bounds_witness :
  Sizing.chartWidth 2000 [120; 95.5] 3 <= 480.
Proof.
  refine (proj1 (proj2 (chart_width_bounds 2000 [120; 95.5] 3)) _).
  lia.
Defined.

Lemma orDefault_cases (speed fallback : Q) :
  (speed == 0 /\ Durations.orDefault speed fallback = fallback)
  \/ (~ speed == 0 /\ Durations.orDefault speed fallback = speed).
Proof.
  unfold Durations.orDefault. destruct (Qeq_bool speed 0) eqn:E.
  - left. split; [now apply Qeq_bool_iff|reflexivity].
  - right. split; [|reflexivity]. intros H. apply Qeq_bool_iff in H. congruence.
Qed.

(** X14 -- Whatever speed is configured, a highlight step of the alluvial
    sequencer lasts at least 800 ms, its pause at least 400 ms and a
    category pause at least 1500 ms.  The timeout between two source
    nodes (step plus pause) is always shorter than a category pause, so
    after a source switch the timer of the restarted effect expires
    before the older follow-up timer, which waits one and a half
    category pauses.  Reduced motion never lengthens a duration. *)
Theorem alluvial_durations_ordered (autoPlaySpeed : Q) (prefersReducedMotion : bool) :
  let d := Durations.animationDurations autoPlaySpeed prefersReducedMotion in
  let normal := Durations.animationDurations autoPlaySpeed false in
  let reduced := Durations.animationDurations autoPlaySpeed true in
  800 <= Durations.stepDuration d
  /\ 400 <= Durations.pauseDuration d
  /\ 1500 <= Durations.categoryPauseDuration d
  /\ Durations.stepTimeout d < Durations.categoryTimeout d
  /\ Durations.categoryTimeout d < Durations.sourceFollowUp d
  /\ Durations.stepDuration reduced <= Durations.stepDuration normal
  /\ Durations.pauseDuration reduced <= Durations.pauseDuration normal
  /\ Durations.categoryPauseDuration reduced <= Durations.categoryPauseDuration normal
  /\ Durations.linkTransitionDuration reduced <= Durations.linkTransitionDuration normal.
Proof.
  cbn zeta.
  unfold Durations.stepTimeout, Durations.categoryTimeout, Durations.sourceFollowUp,
    Durations.animationDurations.
  cbn [Durations.stepDuration Durations.pauseDuration Durations.categoryPauseDuration
       Durations.linkTransitionDuration].
  set (b := Durations.orDefault autoPlaySpeed 3000).
  destruct prefersReducedMotion;
    repeat split; qclamp; qlin.
Qed.

(** X15 -- The chord diagram highlights an arc for at least 1500 ms and pauses
    for at least 300 ms, never longer than the step itself.  One
    rotation interval is shorter than four arc timeouts: the pair on
    display changes before a fifth arc is reached. *)
Theorem chord_durations_ordered (autoPlaySpeed : Q) :
  1500 <= Durations.chordStepDuration autoPlaySpeed
  /\ 300 <= Durations.chordPauseDuration autoPlaySpeed
  /\ Durations.chordPauseDuration autoPlaySpeed
     <= Durations.chordStepDuration autoPlaySpeed
  /\ Durations.chordInterval autoPlaySpeed
     < 4 * Durations.chordStepTimeout autoPlaySpeed.
Proof.
  unfold Durations.chordStepTimeout, Durations.chordPauseDuration,
    Durations.chordStepDuration, Durations.chordInterval.
  destruct (orDefault_cases autoPlaySpeed 3000) as [[H0 ->] | [H0 ->]];
    destruct (orDefault_cases autoPlaySpeed 6000) as [[H1 ->] | [H1 ->]];
    try contradiction;
    repeat split; qclamp; qlin.
Qed.

(** ** The chord diagram's arc highlighting *)

Module ChordArcsFacts.
Import ChordArcs.

Lemma clearTracked_tracked (st : State) :
  allTracked st ->
  pending (clearTracked st) = [] /\ timer (anim (clearTracked st)) = None
  /\ running (anim (clearTracked st)) = running (anim st)
  /\ isPaused (anim (clearTracked st)) = isPaused (anim st).
Proof.
  unfold allTracked, clearTracked. intros [H | [id [cb [H Ht]]]].
  - destruct (timer (anim st)) as [id|] eqn:E; cbn; rewrite ?H, ?E; auto.
  - rewrite Ht. cbn. rewrite H. cbn. rewrite Nat.eqb_refl. auto.
Qed.

Lemma animate_tracked (source target : string) (st : State) :
  pending st = [] ->
  allTracked (animate source target st)
  /\ running (anim (animate source target st)) = running (anim st)
  /\ isPaused (anim (animate source target st)) = isPaused (anim st).
Proof.
  intros H. unfold animate.
  destruct (negb (running (anim st)) || isPaused (anim st));
    [split; [now left|split; reflexivity]|].
  destruct (_ <=? _)%nat; destruct (_ <? _)%Z;
    (split; [right; eexists _, _; cbn; rewrite H; split; reflexivity
            | split; reflexivity]).
Qed.

Lemma restart_tracked (leftLength rightLength : nat) (st : State) :
  pending st = [] ->
  allTracked (restartMainAnimation leftLength rightLength st)
  /\ running (anim (restartMainAnimation leftLength rightLength st))
     = running (anim st)
  /\ isPaused (anim (restartMainAnimation leftLength rightLength st))
     = isPaused (anim st).
Proof.
  intros H. unfold restartMainAnimation.
  destruct (negb (running (anim st)) || isPaused (anim st));
    [split; [now left|split; reflexivity]|].
  split; [right; eexists _, _; cbn; rewrite H; split; reflexivity
         | split; reflexivity].
Qed.

Ltac by_animate H :=
  match goal with
  | |- context [animate ?s ?t ?x] =>
      let H1 := fresh in let H2 := fresh in let H3 := fresh in
      destruct (animate_tracked s t x H) as [H1 [H2 H3]];
      split; [exact H1 | split; [exact H2 | exact H3]]
  | |- context [restartMainAnimation ?l ?r ?x] =>
      let H1 := fresh in let H2 := fresh in let H3 := fresh in
      destruct (restart_tracked l r x H) as [H1 [H2 H3]];
      split; [exact H1 | split; [exact H2 | exact H3]]
  end.

Lemma runCallback_tracked (cb : Callback) (st : State) :
  pending st = [] ->
  allTracked (runCallback cb st)
  /\ running (anim (runCallback cb st)) = running (anim st)
  /\ isPaused (anim (runCallback cb st)) = isPaused (anim st).
Proof.
  intros H. destruct cb as [s t | s t | s t | len l r]; unfold runCallback;
    (destruct (running (anim st) && negb (isPaused (anim st)));
     [|split; [now left|split; reflexivity]]).
  - by_animate H.
  - destruct (currentSide (anim st)).
    + by_animate H.
    + split; [right; eexists _, _; cbn; rewrite H; split; reflexivity
             | split; reflexivity].
  - by_animate H.
  - cbv zeta. destruct (_ <? _)%Z; [|destruct (currentSide (anim st))];
      by_animate H.
Qed.

(** The invariant of the arc animation: every pending timer is tracked,
    and a paused animation has no pending timer. *)
Lemma step_tracked (st : State) (e : Event) :
  allTracked st ->
  (running (anim st) = true -> isPaused (anim st) = true -> pending st = []) ->
  allTracked (step st e)
  /\ (running (anim (step st e)) = true -> isPaused (anim (step st e)) = true ->
      pending (step st e) = []).
Proof.
  intros Ht Hp.
  assert (forall id,
             allTracked (fire id st)
             /\ (running (anim (fire id st)) = true ->
                 isPaused (anim (fire id st)) = true ->
                 pending (fire id st) = [])) as Hfire.
  { intros id. unfold fire.
    destruct (lookupTimer id (pending st)) as [cb|] eqn:E; [|split; assumption].
    assert (pending (clearTimeout id st) = []) as Hnil.
    { destruct Ht as [H | [id' [cb' [H _]]]]; cbn; rewrite H in *; cbn in *;
        [discriminate|].
      destruct (id' =? id)%nat; [reflexivity|discriminate]. }
    destruct (runCallback_tracked cb (clearTimeout id st) Hnil) as [H1 [H2 H3]].
    split; [exact H1|]. rewrite H2, H3. cbn [clearTimeout anim]. intros Hr Hq.
    specialize (Hp Hr Hq). rewrite Hp in E. discriminate. }
  destruct e as [id | | | l r | enabled s t |]; unfold step.
  - apply Hfire.
  - destruct (pending st) as [|[id cb] rest] eqn:E; [split; [exact Ht|intros _ _; exact E]|].
    apply Hfire.
  - unfold pauseAnimation.
    destruct (running (anim st) && negb (isPaused (anim st))); [|split; assumption].
    assert (allTracked (withAnim (setPaused true) st)) as Ht' by exact Ht.
    destruct (clearTracked_tracked _ Ht') as [H1 _].
    split; [now left|]. intros _ _. exact H1.
  - unfold resumeAnimation.
    destruct (running (anim st) && isPaused (anim st)) eqn:E; [|split; assumption].
    apply andb_true_iff in E. destruct E as [Hr Hq].
    destruct (restart_tracked l r (withAnim (setPaused false) st) (Hp Hr Hq))
      as [H1 [_ H3]].
    split; [exact H1|]. rewrite H3. cbn. discriminate.
  - assert (pending (cleanup st) = []) as Hnil.
    { unfold cleanup. cbn [showFull withAnim pending].
      now destruct (clearTracked_tracked st Ht). }
    unfold effectBody. destruct (negb enabled).
    + assert (allTracked (showFull (cleanup st))) as Ht' by (now left).
      destruct (clearTracked_tracked _ Ht') as [H1 _].
      cbn [withAnim pending anim setRunning running].
      split; [now left|]. discriminate.
    + destruct (negb (running (anim (cleanup st)))) eqn:E.
      * match goal with
        | |- context [animate s t ?x] =>
            destruct (animate_tracked s t x Hnil) as [H1 [_ H3]]
        end.
        split; [exact H1|]. rewrite H3. cbn. discriminate.
      * split; [now left|]. intros _ _. exact Hnil.
  - assert (pending (cleanup st) = []) as Hnil.
    { unfold cleanup. cbn [showFull withAnim pending].
      now destruct (clearTracked_tracked st Ht). }
    split; [now left|]. intros _ _. exact Hnil.
Qed.

Lemma run_tracked (events : list Event) (st : State) :
  allTracked st ->
  (running (anim st) = true -> isPaused (anim st) = true -> pending st = []) ->
  allTracked (run st events).
Proof.
  revert st. induction events as [|e es IH]; intros st Ht Hp; [exact Ht|].
  unfold run. cbn [fold_left].
  destruct (step_tracked st e Ht Hp) as [H1 H2]. now apply IH.
Qed.

End ChordArcsFacts.

(** X16 -- The arc animation of the chord diagram keeps every timer it creates
    in [animationRef.current.timer].  Whatever happens after the mount
    (timers expiring, hovers, restarts of the effect, in any order), at
    most one timer is pending and it is the tracked one; so the cleanup
    leaves no timer behind, and nothing that expires afterwards can
    change the state. *)
Theorem chord_timers_all_tracked
        (enabled : bool) (source target : string)
        (events : list ChordArcs.Event) (ids : list nat) :
  let st := ChordArcs.run (ChordArcs.effectBody enabled source target
                                                ChordArcs.initialState) events in
  let stopped := ChordArcs.step st ChordArcs.Unmount in
  ChordArcs.allTracked st
  /\ (List.length (ChordArcs.pending st) <= 1)%nat
  /\ ChordArcs.pending stopped = []
  /\ ChordArcs.running (ChordArcs.anim stopped) = false
  /\ ChordArcs.run stopped (map ChordArcs.Fire ids) = stopped.
Proof.
  cbn zeta.
  set (st := ChordArcs.run _ events).
  assert (ChordArcs.allTracked st) as Ht.
  { apply ChordArcsFacts.run_tracked.
    - unfold ChordArcs.effectBody. destruct enabled; cbn [negb].
      + cbn [ChordArcs.running ChordArcs.anim ChordArcs.initialState negb].
        apply ChordArcsFacts.animate_tracked. reflexivity.
      + now left.
    - unfold ChordArcs.effectBody. destruct enabled; cbn [negb].
      + cbn [ChordArcs.running ChordArcs.anim ChordArcs.initialState negb].
        match goal with
        | |- context [ChordArcs.animate source target ?x] =>
            destruct (ChordArcsFacts.animate_tracked source target x eq_refl)
              as [_ [_ H3]]
        end.
        rewrite H3. cbn. discriminate.
      + cbn. discriminate. }
  split; [exact Ht|].
  split.
  { destruct Ht as [-> | [id [cb [-> _]]]]; cbn; lia. }
  assert (ChordArcs.pending (ChordArcs.step st ChordArcs.Unmount) = []) as Hnil.
  { cbn [ChordArcs.step]. unfold ChordArcs.cleanup.
    cbn [ChordArcs.showFull ChordArcs.withAnim ChordArcs.pending].
    now destruct (ChordArcsFacts.clearTracked_tracked st Ht). }
  split; [exact Hnil|]. split; [reflexivity|].
  induction ids as [|id ids IH]; [reflexivity|].
  cbn [map]. unfold ChordArcs.run in *. cbn [fold_left].
  assert (ChordArcs.step (ChordArcs.step st ChordArcs.Unmount) (ChordArcs.Fire id)
          = ChordArcs.step st ChordArcs.Unmount) as ->; [|exact IH].
  cbn [ChordArcs.step] in *. unfold ChordArcs.fire. now rewrite Hnil.
Qed.

Section ArcCycle.
Import ChordArcs.
Variable source target : string.

Let L := List.length (allCategories source).
Let R := List.length (allCategories target).
Let arcs (side : Side) (first count : nat) : list (Side * nat) :=
  map (fun j => (side, j)) (seq first count).

Lemma arc_run_app (st : State) (l1 l2 : list Event) :
  run st (l1 ++ l2) = run (run st l1) l2.
Proof. unfold run. apply fold_left_app. Qed.

Lemma arc_fire_single (a : Anim) (v : View) (id : nat) (cb : Callback) (next : nat)
      (shown : list (Side * nat)) :
  step (mkState a v [(id, cb)] next shown) FireNext
  = runCallback cb (mkState a v [] next shown).
Proof.
  unfold step, fire, clearTimeout. cbn [pending lookupTimer filter fst].
  rewrite Nat.eqb_refl. reflexivity.
Qed.

Lemma animate_arc (tm : option nat) (side : Side) (i id c : nat) (v : View)
      (tr : list (Side * nat)) :
  (i < sideLength side L R)%nat ->
  animate source target (mkState (mkAnim tm true i side false c) v [] id tr)
  = arcState source target side i id c (tr ++ [(side, i)]).
Proof.
  intros Hi. unfold animate. cbn [anim running isPaused negb orb currentSide currentIndex].
  fold L R.
  assert ((sideLength side L R <=? i)%nat = false) as -> by (apply Nat.leb_gt; exact Hi).
  unfold arcState, arcTimer. fold L R.
  cbn [highlight anim currentIndex currentSide].
  destruct (_ <? _)%Z; reflexivity.
Qed.

Lemma step_arc_next (side : Side) (i id c : nat) (tr : list (Side * nat)) :
  (Datatypes.S i < sideLength side L R)%nat ->
  step (arcState source target side i id c tr) FireNext
  = arcState source target side (Datatypes.S i) (Datatypes.S id) c
             (tr ++ [(side, Datatypes.S i)]).
Proof.
  intros Hi. unfold arcState at 1. rewrite arc_fire_single.
  unfold arcTimer. fold L R.
  assert ((Z.of_nat i <? Z.of_nat (sideLength side L R) - 1)%Z = true) as ->
      by (apply Z.ltb_lt; lia).
  unfold runCallback. cbn [anim running isPaused negb andb].
  cbn [withAnim anim view pending nextTimerId trace setIndex timer running
       currentIndex currentSide isPaused cycleCount].
  now apply animate_arc.
Qed.

Lemma run_arc_next (side : Side) (k i id c : nat) (tr : list (Side * nat)) :
  (i + k < sideLength side L R)%nat ->
  run (arcState source target side i id c tr) (repeat FireNext k)
  = arcState source target side (i + k) (id + k) c
             (tr ++ arcs side (Datatypes.S i) k).
Proof.
  revert i id tr. induction k as [|k IH]; intros i id tr Hk.
  - cbn. rewrite !Nat.add_0_r, app_nil_r. reflexivity.
  - cbn [repeat]. unfold run. cbn [fold_left]. fold (run
      (step (arcState source target side i id c tr) FireNext) (repeat FireNext k)).
    rewrite step_arc_next by lia. rewrite IH by lia.
    unfold arcs. cbn [seq map]. rewrite <- app_assoc. cbn [app].
    replace (Datatypes.S i + k)%nat with (i + Datatypes.S k)%nat by lia.
    replace (Datatypes.S id + k)%nat with (id + Datatypes.S k)%nat by lia.
    reflexivity.
Qed.

Lemma step_arc_switch_left (i id c : nat) (tr : list (Side * nat)) :
  Datatypes.S i = L -> (0 < R)%nat ->
  step (arcState source target left i id c tr) FireNext
  = arcState source target right 0 (Datatypes.S id) c (tr ++ [(right, 0%nat)]).
Proof.
  intros Hi HR. unfold arcState at 1. rewrite arc_fire_single.
  unfold arcTimer. fold L R. cbn [sideLength].
  assert ((Z.of_nat i <? Z.of_nat L - 1)%Z = false) as ->
      by (apply Z.ltb_ge; lia).
  unfold runCallback. cbn [anim running isPaused negb andb currentSide].
  cbn [withAnim anim view pending nextTimerId trace setIndex setSide timer running
       currentIndex currentSide isPaused cycleCount].
  now apply animate_arc.
Qed.

Lemma step_arc_switch_right (i id c : nat) (tr : list (Side * nat)) :
  Datatypes.S i = R ->
  step (arcState source target right i id c tr) FireNext
  = mkState (mkAnim (Some (Datatypes.S id)) true i right false (Datatypes.S c))
            (mkView full None None)
            [(Datatypes.S id, RestartTimer source target)]
            (Datatypes.S (Datatypes.S id)) tr.
Proof.
  intros Hi. unfold arcState at 1. rewrite arc_fire_single.
  unfold arcTimer. fold L R. cbn [sideLength].
  assert ((Z.of_nat i <? Z.of_nat R - 1)%Z = false) as ->
      by (apply Z.ltb_ge; lia).
  reflexivity.
Qed.

Lemma step_arc_restart (i id c : nat) (tr : list (Side * nat)) :
  (0 < L)%nat ->
  step (mkState (mkAnim (Some id) true i right false c) (mkView full None None)
                [(id, RestartTimer source target)] (Datatypes.S id) tr) FireNext
  = arcState source target left 0 (Datatypes.S id) c (tr ++ [(left, 0%nat)]).
Proof.
  intros HL. rewrite arc_fire_single.
  unfold runCallback. cbn [anim running isPaused negb andb currentSide].
  cbn [withAnim anim view pending nextTimerId trace setIndex setSide timer running
       currentIndex currentSide isPaused cycleCount].
  now apply animate_arc.
Qed.

Lemma started_arc :
  (0 < L)%nat ->
  started source target = arcState source target left 0 1 0 [(left, 0%nat)].
Proof.
  intros HL.
  change (started source target)
    with (animate source target
                  (mkState (mkAnim None true 0 left false 0)
                           (mkView full None None) [] 1 [])).
  rewrite (animate_arc None left 0 1 0 (mkView full None None) []) by exact HL.
  reflexivity.
Qed.

(** X17 -- One cycle of the arc animation, started for a pair whose two
    category lists are not empty and left alone by hovers: it announces
    the arcs of the left side in index order, then those of the right
    side, every index below the length of its category list; then it
    shows the full diagram, counts the cycle, and starts over at the
    first left arc. *)
Theorem arc_cycle_order (id c : nat) (tr : list (Side * nat)) :
  (0 < L)%nat -> (0 < R)%nat ->
  let start := arcState source target left 0 id c tr in
  started source target = arcState source target left 0 1 0 [(left, 0%nat)]
  /\ (forall k, (k < L)%nat ->
        run start (repeat FireNext k)
        = arcState source target left k (id + k) c (tr ++ arcs left 1 k))
  /\ (forall k, (k < R)%nat ->
        run start (repeat FireNext (L + k))
        = arcState source target right k (id + L + k) c
                   (tr ++ arcs left 1 (L - 1) ++ arcs right 0 (Datatypes.S k)))
  /\ view (run start (repeat FireNext (L + R))) = mkView full None None
  /\ trace (run start (repeat FireNext (L + R)))
     = (tr ++ arcs left 1 (L - 1) ++ arcs right 0 R)%list
  /\ run start (repeat FireNext (L + R + 1))
     = arcState source target left 0 (id + L + R + 1) (Datatypes.S c)
                (tr ++ arcs left 1 (L - 1) ++ arcs right 0 R ++ [(left, 0%nat)]).
Proof.
  intros HL HR. cbn zeta.
  assert (forall k, (k < L)%nat ->
        run (arcState source target left 0 id c tr) (repeat FireNext k)
        = arcState source target left k (id + k) c (tr ++ arcs left 1 k)) as Hleft.
  { intros k Hk. apply (run_arc_next left k 0 id c tr). exact Hk. }
  assert (forall k, (k < R)%nat ->
        run (arcState source target left 0 id c tr) (repeat FireNext (L + k))
        = arcState source target right k (id + L + k) c
                   (tr ++ arcs left 1 (L - 1) ++ arcs right 0 (Datatypes.S k)))
    as Hright.
  { intros k Hk.
    replace (L + k)%nat with ((L - 1) + (1 + k))%nat by lia.
    rewrite repeat_app, arc_run_app, Hleft by lia.
    cbn [repeat Nat.add]. unfold run at 1. cbn [fold_left].
    fold (run (step (arcState source target left (L - 1) (id + (L - 1)) c
                              (tr ++ arcs left 1 (L - 1))) FireNext)
              (repeat FireNext k)).
    rewrite step_arc_switch_left by lia.
    rewrite (run_arc_next right k 0) by exact Hk.
    unfold arcs. cbn [seq map Nat.add]. rewrite <- !app_assoc. cbn [app].
    replace (id + L + k)%nat with (Datatypes.S (id + (L - 1) + k)%nat) by lia.
    reflexivity. }
  assert (run (arcState source target left 0 id c tr) (repeat FireNext (L + R))
          = mkState (mkAnim (Some (id + L + R)%nat) true (R - 1)%nat right false
                            (Datatypes.S c))
                    (mkView full None None)
                    [((id + L + R)%nat, RestartTimer source target)]
                    (Datatypes.S (id + L + R)%nat)
                    (tr ++ arcs left 1 (L - 1) ++ arcs right 0 R)) as Hfull.
  { replace (L + R)%nat with ((L + (R - 1)) + 1)%nat by lia.
    rewrite repeat_app, arc_run_app, Hright by lia.
    cbn [repeat]. unfold run. cbn [fold_left].
    rewrite step_arc_switch_right by lia.
    replace (Datatypes.S (R - 1)%nat) with R by lia.
    replace (id + L + R)%nat with (Datatypes.S (id + L + (R - 1))%nat) by lia.
    reflexivity. }
  split; [exact (started_arc HL)|].
  split; [exact Hleft|]. split; [exact Hright|].
  split; [now rewrite Hfull|]. split; [now rewrite Hfull|].
  rewrite repeat_app, arc_run_app, Hfull.
  cbn [repeat]. unfold run. cbn [fold_left].
  rewrite step_arc_restart by exact HL.
  rewrite <- !app_assoc.
  replace (Datatypes.S (id + L + R)%nat) with (id + L + R + 1)%nat by lia.
  reflexivity.
Qed.

(** X29 -- The arc animation walks the catalogue of its field, while the arcs
    on display are those of the values found in the rows.  When the rows
    hold fewer values of the left field than its catalogue lists, the
    animation announces, as its last left arc, an index at which no arc
    is drawn. *)
Theorem arc_animation_outruns_arcs
        (getYearsCategory : jsval -> string) (rows : list SurveyResponse) :
  (List.length (ChordRender.sideArcs getYearsCategory rows source) < L)%nat ->
  let st := run (started source target) (repeat FireNext (L - 1)) in
  highlightedSide (view st) = Some left
  /\ highlightedArcIndex (view st) = Some (L - 1)%nat
  /\ animationPhase (view st) = highlighting
  /\ nth_error (ChordRender.sideArcs getYearsCategory rows source) (L - 1) = None.
Proof.
  intros Hfew. cbn zeta.
  assert (0 < L)%nat as HL by lia.
  rewrite (started_arc HL).
  rewrite (run_arc_next left (L - 1) 0 1 0 [(left, 0%nat)]) by (cbn; lia).
  cbn [arcState view highlightedSide highlightedArcIndex animationPhase Nat.add].
  repeat (split; [reflexivity|]).
  apply nth_error_None. lia.
Qed.
End ArcCycle.

Lemma arc_animation_outruns_arcs_witness :
  ChordArcs.highlightedArcIndex
    (ChordArcs.view
       (ChordArcs.run (ChordArcs.started "learning_style" "years_at_medtronic")
                      (repeat ChordArcs.FireNext 3)))
  = Some 3%nat
  /\ nth_error (ChordRender.sideArcs getYearsCategory Samples.scenario
                                     "learning_style") 3 = None.
Proof.
  destruct (arc_animation_outruns_arcs "learning_style" "years_at_medtronic"
              getYearsCategory Samples.scenario)
    as [_ [H2 [_ H4]]].
  - vm_compute. lia.
  - split; [exact H2|exact H4].
Defined.

Lemma arc_cycle_order_witness :
  ChordArcs.trace
    (ChordArcs.run (ChordArcs.started "years_at_medtronic" "learning_style")
                   (repeat ChordArcs.FireNext 9))
  = [(ChordArcs.left, 0%nat); (ChordArcs.left, 1%nat); (ChordArcs.left, 2%nat);
     (ChordArcs.left, 3%nat); (ChordArcs.left, 4%nat);
     (ChordArcs.right, 0%nat); (ChordArcs.right, 1%nat); (ChordArcs.right, 2%nat);
     (ChordArcs.right, 3%nat)].
Proof.
  destruct (arc_cycle_order "years_at_medtronic" "learning_style" 1 0
                            [(ChordArcs.left, 0%nat)])
    as [H1 [_ [_ [_ [H5 _]]]]].
  - cbn. lia.
  - cbn. lia.
  - rewrite H1. exact H5.
Defined.

Section ResumeChain.
Import ChordArcs.
Variable leftLength rightLength : nat.

(** A state of the chain that [resumeAnimation] starts. *)
Let resumedShape (c n : nat) (st : State) : Prop :=
  exists i side id len shown,
    st = mkState (mkAnim (Some id) true i side false c)
                 (mkView highlighting (Some i) (Some side))
                 [(id, ResumeTimer len leftLength rightLength)]
                 (Datatypes.S id) shown
    /\ List.length shown = n.

Lemma restart_shape (tm : option nat) (i : nat) (side : Side) (c nid : nat)
      (v : View) (shown : list (Side * nat)) :
  resumedShape c (Datatypes.S (List.length shown))
    (restartMainAnimation leftLength rightLength
       (mkState (mkAnim tm true i side false c) v [] nid shown)).
Proof.
  unfold resumedShape, restartMainAnimation.
  cbn [anim running isPaused negb orb].
  exists i, side, nid, (sideLength side leftLength rightLength),
    (shown ++ [(side, i)])%list.
  split; [reflexivity|].
  rewrite length_app. cbn. lia.
Qed.

Lemma step_shape (c n : nat) (st : State) :
  resumedShape c n st -> resumedShape c (Datatypes.S n) (step st FireNext).
Proof.
  intros [i [side [id [len [shown [-> Hn]]]]]].
  unfold step, fire, clearTimeout. cbn [pending lookupTimer filter fst].
  rewrite Nat.eqb_refl. cbn [negb anim view nextTimerId trace].
  unfold runCallback. cbn [anim running isPaused negb andb currentIndex currentSide].
  rewrite <- Hn.
  destruct (_ <? _)%Z; [|destruct side]; apply restart_shape.
Qed.

Lemma run_shape (c k n : nat) (st : State) :
  resumedShape c n st ->
  resumedShape c (n + k) (run st (repeat FireNext k)).
Proof.
  revert n st. induction k as [|k IH]; intros n st Hs.
  - rewrite Nat.add_0_r. exact Hs.
  - cbn [repeat]. unfold run. cbn [fold_left].
    replace (n + Datatypes.S k)%nat with (Datatypes.S n + k)%nat by lia.
    apply IH. now apply step_shape.
Qed.

(** X18 -- Resuming after a hover announces the arc that was on display at
    once and hands the animation to a different timer chain.  From then
    on every expiry announces an arc; the chain never shows the full
    diagram between two cycles and never counts a cycle, unlike the
    chain that the effect starts. *)
Theorem resumed_chain_skips_full_phase (st : State) (k : nat) :
  running (anim st) = true -> isPaused (anim st) = true -> pending st = [] ->
  let resumed := step st (Resume leftLength rightLength) in
  let later := run resumed (repeat FireNext k) in
  trace resumed
  = (trace st ++ [(currentSide (anim st), currentIndex (anim st))])%list
  /\ animationPhase (view later) = highlighting
  /\ cycleCount (anim later) = cycleCount (anim st)
  /\ List.length (trace later) = (List.length (trace st) + 1 + k)%nat
  /\ exists id len,
      pending later = [(id, ResumeTimer len leftLength rightLength)]
      /\ timer (anim later) = Some id.
Proof.
  intros Hr Hp Hq. cbn zeta.
  destruct st as [[tm r i side p c] v pd nid shown].
  cbn in Hr, Hp, Hq. subst r p pd.
  assert (step (mkState (mkAnim tm true i side true c) v [] nid shown)
               (Resume leftLength rightLength)
          = restartMainAnimation leftLength rightLength
              (mkState (mkAnim tm true i side false c) v [] nid shown)) as -> by reflexivity.
  split; [reflexivity|].
  pose proof (run_shape c k _ _ (restart_shape tm i side c nid v shown)) as Hshape.
  destruct Hshape as [i' [side' [id [len [shown' [-> Hn]]]]]].
  cbn [view anim animationPhase cycleCount trace pending timer].
  split; [reflexivity|]. split; [reflexivity|]. split; [lia|].
  exists id, len. split; reflexivity.
Qed.
End ResumeChain.

Lemma resumed_chain_skips_full_phase_witness :
  ChordArcs.animationPhase
    (ChordArcs.view
       (ChordArcs.run
          (ChordArcs.step
             (ChordArcs.step (ChordArcs.started "years_at_medtronic" "learning_style")
                             ChordArcs.Pause)
             (ChordArcs.Resume 5 3))
          (repeat ChordArcs.FireNext 8)))
  = ChordArcs.highlighting.
Proof.
  refine (proj1 (proj2
            (resumed_chain_skips_full_phase 5 3
               (ChordArcs.step (ChordArcs.started "years_at_medtronic" "learning_style")
                               ChordArcs.Pause) 8 _ _ _))).
  - reflexivity.
  - reflexivity.
  - reflexivity.
Defined.

(** ** The chord diagram's ribbons *)

Section ChordRibbons.
Import ChordRender.
Variable getYearsCategory : jsval -> string.
Variable rows : list SurveyResponse.
Variables cs ct : string.

Let cell (s t : string) : nat :=
  List.length
    (filter (fun d => strict_equal (rowValue getYearsCategory cs d) (VStr s)
                      && strict_equal (rowValue getYearsCategory ct d) (VStr t))
            rows).

Lemma connectionMatrix_cell (i j : nat) (s t : string) :
  nth_error (sideArray getYearsCategory rows cs) i = Some s ->
  nth_error (sideArray getYearsCategory rows ct) j = Some t ->
  nth j (nth i (connectionMatrix getYearsCategory rows cs ct) []) 0%nat = cell s t.
Proof.
  intros Hs Ht. unfold connectionMatrix.
  erewrite (nth_error_nth (map _ (sideArray getYearsCategory rows cs)) i []).
  2:{ rewrite nth_error_map, Hs. reflexivity. }
  erewrite nth_error_nth; [reflexivity|].
  rewrite nth_error_map, Ht. reflexivity.
Qed.

Lemma collect_some (matrix : list (list nat)) (leftArcs rightArcs : list Arc)
      (cells : list (nat * nat)) (found : list Connection) :
  collect matrix leftArcs rightArcs cells = Some found ->
  forall c, In c found ->
    In (sourceIndex c, targetIndex c) cells
    /\ connection_value c = nth (targetIndex c) (nth (sourceIndex c) matrix []) 0%nat
    /\ (0 < connection_value c)%nat
    /\ nth_error leftArcs (sourceIndex c) = Some (connection_left c)
    /\ nth_error rightArcs (targetIndex c) = Some (connection_right c).
Proof.
  revert found. induction cells as [|[i j] cells IH]; intros found H c Hc.
  - cbn in H. inversion H; subst. destruct Hc.
  - cbn [collect] in H.
    destruct (0 <? nth j (nth i matrix []) 0)%nat eqn:E.
    + destruct (nth_error leftArcs i) as [l|] eqn:El; [|discriminate].
      destruct (nth_error rightArcs j) as [r|] eqn:Er; [|discriminate].
      destruct (collect matrix leftArcs rightArcs cells) as [rest|]; [|discriminate].
      inversion H; subst. destruct Hc as [<- | Hc].
      * cbn. apply Nat.ltb_lt in E. repeat split; auto.
      * destruct (IH rest eq_refl c Hc) as [H1 H2]. split; [now right|exact H2].
    + destruct (IH found H c Hc) as [H1 H2]. split; [now right|exact H2].
Qed.

Lemma collect_none (matrix : list (list nat)) (leftArcs rightArcs : list Arc)
      (cells : list (nat * nat)) (i j : nat) :
  In (i, j) cells ->
  (0 < nth j (nth i matrix []) 0)%nat ->
  nth_error leftArcs i = None \/ nth_error rightArcs j = None ->
  collect matrix leftArcs rightArcs cells = None.
Proof.
  intros Hin Hv Hmiss. induction cells as [|[i' j'] cells IH]; [destruct Hin|].
  cbn [collect]. destruct Hin as [E | Hin].
  - inversion E; subst. apply Nat.ltb_lt in Hv. rewrite Hv.
    destruct Hmiss as [-> | Hr]; [reflexivity|].
    rewrite Hr. now destruct (nth_error leftArcs i).
  - rewrite (IH Hin).
    destruct (0 <? _)%nat; [|reflexivity].
    destruct (nth_error leftArcs i'); [|reflexivity].
    now destruct (nth_error rightArcs j').
Qed.

(** X19 -- A ribbon is indexed by the sorted category lists but attached to the
    arcs by position in the value lists.  Its value is the number of
    rows of the categories at its two indices in [sourceArray] and
    [targetArray]; its ends are the arcs at the same two indices of
    [leftArcs] and [rightArcs], whatever their names are.  The two agree
    only where the value lists happen to be in sorted order. *)
Theorem ribbons_attach_by_position (found : list Connection) (c : Connection) :
  connections getYearsCategory rows cs ct = Some found ->
  In c found ->
  exists s t,
    nth_error (sideArray getYearsCategory rows cs) (sourceIndex c) = Some s
    /\ nth_error (sideArray getYearsCategory rows ct) (targetIndex c) = Some t
    /\ connection_value c = cell s t
    /\ (0 < connection_value c)%nat
    /\ nth_error (sideArcs getYearsCategory rows cs) (sourceIndex c)
       = Some (connection_left c)
    /\ nth_error (sideArcs getYearsCategory rows ct) (targetIndex c)
       = Some (connection_right c).
Proof.
  unfold connections. intros H Hc.
  destruct (collect_some _ _ _ _ _ H c Hc) as [Hcell [Hv [Hpos [Hl Hr]]]].
  apply in_prod_iff in Hcell. destruct Hcell as [Hi Hj].
  apply in_seq in Hi, Hj. cbn in Hi, Hj.
  destruct (nth_error (sideArray getYearsCategory rows cs) (sourceIndex c))
    as [s|] eqn:Es; [|apply nth_error_None in Es; lia].
  destruct (nth_error (sideArray getYearsCategory rows ct) (targetIndex c))
    as [t|] eqn:Et; [|apply nth_error_None in Et; lia].
  exists s, t. rewrite Hv in *.
  rewrite (connectionMatrix_cell _ _ s t Es Et) in *.
  repeat split; auto.
Qed.

(** X20 -- When a pair of categories has rows and one of its two indices lies
    beyond the arcs of its side, collecting the ribbons reads a property
    of a missing arc and the render effect ends with a [TypeError]. *)
Theorem ribbons_throw_beyond_arcs (i j : nat) (s t : string) :
  nth_error (sideArray getYearsCategory rows cs) i = Some s ->
  nth_error (sideArray getYearsCategory rows ct) j = Some t ->
  (0 < cell s t)%nat ->
  (List.length (sideArcs getYearsCategory rows cs) <= i)%nat
  \/ (List.length (sideArcs getYearsCategory rows ct) <= j)%nat ->
  connections getYearsCategory rows cs ct = None.
Proof.
  intros Hs Ht Hv Hout. unfold connections.
  apply (collect_none _ _ _ _ i j).
  - apply in_prod_iff. split; apply in_seq; cbn.
    + split; [lia|]. apply nth_error_Some. congruence.
    + split; [lia|]. apply nth_error_Some. congruence.
  - now rewrite (connectionMatrix_cell i j s t Hs Ht).
  - destruct Hout as [H | H]; [left | right]; now apply nth_error_None.
Qed.
End ChordRibbons.

Lemma ribbons_attach_by_position_witness :
  exists c s t,
    nth_error (ChordRender.sideArray getYearsCategory Samples.scenario
                                     "years_at_medtronic")
              (ChordRender.sourceIndex c) = Some s
    /\ nth_error (ChordRender.sideArray getYearsCategory Samples.scenario
                                        "learning_style")
                 (ChordRender.targetIndex c) = Some t
    /\ s = "11-15" /\ t = "visual"
    /\ ChordRender.arc_name (ChordRender.connection_left c) = VStr "6-10"
    /\ ChordRender.arc_name (ChordRender.connection_right c) = VStr "kinesthetic".
Proof.
  pose (c := ChordRender.mkConnection 1 2 1
               (ChordRender.mkArc (VStr "6-10") 3)
               (ChordRender.mkArc (VStr "kinesthetic") 1)).
  destruct (ribbons_attach_by_position
              getYearsCategory Samples.scenario "years_at_medtronic" "learning_style"
              (match ChordRender.connections getYearsCategory Samples.scenario
                       "years_at_medtronic" "learning_style" with
               | Some l => l | None => [] end) c)
    as [s [t [Hs [Ht _]]]].
  - vm_compute. reflexivity.
  - vm_compute. right. left. reflexivity.
  - exists c, s, t. split; [exact Hs|]. split; [exact Ht|].
    vm_compute in Hs, Ht. inversion Hs. inversion Ht.
    repeat split; reflexivity.
Defined.

Lemma ribbons_throw_beyond_arcs_witness :
  ChordRender.connections getYearsCategory Samples.missingMotivation
                          "motivation" "learning_style" = None.
Proof.
  apply (ribbons_throw_beyond_arcs getYearsCategory Samples.missingMotivation
           "motivation" "learning_style" 1 1 "growth" "visual").
  - reflexivity.
  - reflexivity.
  - vm_compute. lia.
  - left. vm_compute. lia.
Defined.

(** ** The chord diagram's totals and connection matrix *)

Lemma strict_equal_str (v : jsval) (s : string) :
  ChordRender.strict_equal v (VStr s) = same_value_zero v (VStr s).
Proof. destruct v as [| | b | [| | |q] | x]; reflexivity. Qed.

Lemma set_add_incl (v x : jsval) (seen : list jsval) :
  In v (set_add x seen) -> In v seen \/ v = x.
Proof.
  induction seen as [|w seen IH]; cbn.
  - intros [H | []]; auto.
  - destruct (same_value_zero w x); cbn; [tauto|].
    intros [H | H]; [tauto|]. destruct (IH H); tauto.
Qed.

Lemma set_from_incl (v : jsval) (l : list jsval) :
  In v (set_from l) -> In v l.
Proof.
  unfold set_from.
  assert (forall acc, In v (fold_left (fun seen x => set_add x seen) l acc) ->
                      In v acc \/ In v l) as H.
  { induction l as [|x l IH]; cbn; intros acc Hin; [tauto|].
    destruct (IH _ Hin) as [H | H]; [|tauto].
    destruct (set_add_incl _ _ _ H); auto. }
  intros Hin. destruct (H [] Hin) as [[] | Hl]. exact Hl.
Qed.

Lemma fold_left_add_sumOver (l : list nat) (a : nat) :
  fold_left (fun sum val => (sum + val)%nat) l a = (a + sumOver (fun x => x) l)%nat.
Proof.
  revert a. induction l as [|x l IH]; intros a; cbn [fold_left].
  - cbn. lia.
  - rewrite IH. unfold sumOver. cbn [fold_right]. lia.
Qed.

Lemma sumOver_map {A B : Type} (f : B -> nat) (g : A -> B) (l : list A) :
  sumOver f (map g l) = sumOver (fun x => f (g x)) l.
Proof. induction l as [|x l IH]; cbn; auto. Qed.

Lemma count_partition {A : Type} (f : A -> bool) (l : list A) :
  (count f l + count (fun x => negb (f x)) l)%nat = List.length l.
Proof.
  unfold count. induction l as [|x l IH]; cbn; [reflexivity|].
  destruct (f x); cbn; lia.
Qed.

Lemma count_and_le {A : Type} (f g : A -> bool) (l : list A) :
  (count (fun x => f x && g x) l <= count f l)%nat.
Proof.
  unfold count. induction l as [|x l IH]; cbn; [lia|].
  destruct (f x); cbn; [destruct (g x); cbn; lia|exact IH].
Qed.

Section ChordTotals.
Import ChordRender.
Variable getYearsCategory : jsval -> string.
Variable rows : list SurveyResponse.

Lemma label_values (field : string) (d : SurveyResponse) :
  labelColumn field rows = true -> In d rows ->
  (exists s, getField d field = VStr s /\ s <> ""
             /\ truthy (getField d field) = true)
  \/ ((forall s, same_value_zero (getField d field) (VStr s) = true -> s = "")
      /\ truthy (getField d field) = false).
Proof.
  unfold labelColumn. rewrite forallb_forall. intros H Hd. specialize (H d Hd).
  destruct (getField d field) as [| | b | n | s]; try discriminate.
  - right. split; [intros s Hs; discriminate|reflexivity].
  - right. split; [intros s Hs; discriminate|reflexivity].
  - destruct (String.eqb_spec s "") as [-> | Hne].
    + right. split; [|reflexivity]. intros s Hs.
      apply same_value_zero_str in Hs. now inversion Hs.
    + left. exists s. split; [reflexivity|]. split; [exact Hne|].
      cbn. apply String.eqb_neq in Hne. now rewrite Hne.
Qed.

Lemma sideArray_categorical (field : string) :
  (field =? "years_at_medtronic") = false ->
  labelColumn field rows = true ->
  NoDup (sideArray getYearsCategory rows field)
  /\ (forall s, In s (sideArray getYearsCategory rows field) -> s <> "")
  /\ (forall d s, In d rows -> getField d field = VStr s -> s <> "" ->
                  In s (sideArray getYearsCategory rows field)).
Proof.
  intros Hcat Hlab. unfold sideArray. rewrite Hcat.
  set (V := map (fun d => or_else (getField d field) (VStr "Unknown")) rows).
  assert (forall v, In v V -> Alluvial.is_label v = true) as Hall.
  { intros v Hv. apply in_map_iff in Hv. destruct Hv as [d [<- Hd]].
    destruct (label_values field d Hlab Hd) as [[s [E [Hne Ht]]] | [_ Ht]];
      unfold or_else; rewrite Ht; [|reflexivity].
    rewrite E. cbn. destruct s; [congruence|reflexivity]. }
  assert (filter Alluvial.is_label (set_from V) = set_from V) as Hfilter.
  { apply filter_all. intros v Hv. apply Hall. now apply set_from_incl. }
  pose proof (labels_set_from_NoDup V) as Hnd. rewrite Hfilter in Hnd.
  pose proof (sort_by_perm str_leb (map Alluvial.as_string (set_from V))) as Hperm.
  unfold sort_strings.
  split; [|split].
  - eapply Permutation_NoDup; [apply Permutation_sym; exact Hperm|exact Hnd].
  - intros s Hs Hempty. subst s.
    apply (Permutation_in _ Hperm) in Hs. apply in_map_iff in Hs.
    destruct Hs as [v [Hv Hin]]. apply set_from_incl in Hin.
    specialize (Hall v Hin). destruct v; try discriminate.
    cbn in Hv. subst. discriminate.
  - intros d s Hd E Hne.
    apply (Permutation_in _ (Permutation_sym Hperm)).
    apply in_map_iff. exists (VStr s). split; [reflexivity|].
    apply set_from_in_str. unfold V. apply in_map_iff. exists d. split; [|exact Hd].
    unfold or_else. rewrite E. cbn. apply String.eqb_neq in Hne. now rewrite Hne.
Qed.

(** The rows that the categories of a label column count, beside a
    second test [P]. *)
Lemma present_sum (field : string) (P : SurveyResponse -> bool) :
  (field =? "years_at_medtronic") = false ->
  labelColumn field rows = true ->
  sumOver (fun cat =>
             count (fun d => same_value_zero (getField d field) (VStr cat) && P d) rows)
          (sideArray getYearsCategory rows field)
  = count (fun d => truthy (getField d field) && P d) rows.
Proof.
  intros Hcat Hlab.
  destruct (sideArray_categorical field Hcat Hlab) as [Hnd [Hne Hin]].
  rewrite (sumOver_count_exclusive
             (fun cat d => same_value_zero (getField d field) (VStr cat) && P d)).
  - apply count_ext_in. intros d Hd.
    destruct (label_values field d Hlab Hd) as [[s [E [Hs Ht]]] | [Hnone Ht]];
      rewrite Ht.
    + destruct (P d); cbn.
      * apply existsb_exists. exists s. split; [now apply (Hin d)|].
        rewrite E. cbn. now rewrite String.eqb_refl.
      * apply not_true_is_false. intros H. apply existsb_exists in H.
        destruct H as [x [_ Hx]]. now rewrite andb_false_r in Hx.
    + cbn. apply not_true_is_false. intros H. apply existsb_exists in H.
      destruct H as [x [Hx Hv]]. apply andb_true_iff in Hv. destruct Hv as [Hv _].
      apply Hnone in Hv. subst x. now apply (Hne "").
  - exact Hnd.
  - intros d x y Hx Hy. apply andb_true_iff in Hx, Hy.
    destruct Hx as [Hx _], Hy as [Hy _].
    apply same_value_zero_str in Hx, Hy. congruence.
Qed.

(** X21 -- For a label column, the totals of the categories add up to the
    number of rows that have a value: a row without one is counted in
    no total, although it puts the category "Unknown" on the axis.  The
    arcs' own counts add up to the same number, so the shares that size
    the arcs add up to one. *)
Theorem chord_totals_count_present_rows (field : string) :
  (field =? "years_at_medtronic") = false ->
  labelColumn field rows = true ->
  sideTotalSum getYearsCategory rows field
  = count (fun d => truthy (getField d field)) rows
  /\ sumOver arc_value (sideArcs getYearsCategory rows field)
     = sideTotalSum getYearsCategory rows field
  /\ (sideTotalSum getYearsCategory rows field
      + count (fun d => negb (truthy (getField d field))) rows)%nat
     = List.length rows.
Proof.
  intros Hcat Hlab.
  assert (sideTotalSum getYearsCategory rows field
          = count (fun d => truthy (getField d field)) rows) as Htotal.
  { unfold sideTotalSum, sideTotals. rewrite fold_left_add_sumOver, sumOver_map.
    cbn [Nat.add]. rewrite <- (count_ext_in
      (fun d => truthy (getField d field) && true) _ rows)
      by (intros d _; apply andb_true_r).
    rewrite <- (present_sum field (fun _ => true) Hcat Hlab).
    apply sumOver_ext_in. intros cat _. unfold count. f_equal.
    apply filter_ext. intros d. unfold rowValue. rewrite Hcat, strict_equal_str.
    now rewrite andb_true_r. }
  split; [exact Htotal|]. split.
  - rewrite Htotal. unfold sideArcs, sideValues. rewrite Hcat, sumOver_map.
    cbn [arc_value].
    set (W := map (fun d => getField d field) rows).
    assert (forall v, In v (set_from W) ->
                      truthy v = Alluvial.is_label v
                      /\ (truthy v = true -> v = VStr (Alluvial.as_string v)))
      as Hvals.
    { intros v Hv. apply set_from_incl in Hv. apply in_map_iff in Hv.
      destruct Hv as [d [<- Hd]].
      destruct (label_values field d Hlab Hd) as [[s [E [Hs Ht]]] | [_ Ht]].
      - rewrite E. cbn. split; [|reflexivity].
        destruct s; [congruence|reflexivity].
      - rewrite Ht. split; [|discriminate].
        unfold labelColumn in Hlab. rewrite forallb_forall in Hlab.
        specialize (Hlab d Hd).
        destruct (getField d field) as [| | b | n | s]; try discriminate; auto.
        cbn in Ht. apply negb_false_iff, String.eqb_eq in Ht. now subst. }
    assert (filter truthy (set_from W)
            = map VStr (map Alluvial.as_string
                            (filter Alluvial.is_label (set_from W)))) as Hmap.
    { rewrite (filter_ext_in truthy Alluvial.is_label)
        by (intros v Hv; apply (Hvals v Hv)).
      rewrite map_map. rewrite <- (map_id (filter _ _)) at 1.
      apply map_ext_in. intros v Hv. apply filter_In in Hv. destruct Hv as [Hv Hl].
      destruct (Hvals v Hv) as [Ht Hs]. apply Hs. now rewrite Ht. }
    rewrite Hmap, sumOver_map.
    set (labels := map Alluvial.as_string (filter Alluvial.is_label (set_from W))).
    rewrite (sumOver_ext_in _
      (fun s => count (fun d => same_value_zero (getField d field) (VStr s)) rows)).
    2:{ intros s _. unfold count. f_equal. apply filter_ext. intros d.
        unfold rowValue. now rewrite Hcat, strict_equal_str. }
    rewrite (sumOver_count_exclusive
               (fun s d => same_value_zero (getField d field) (VStr s))).
    + apply count_ext_in. intros d Hd.
      destruct (label_values field d Hlab Hd) as [[s [E [Hs Ht]]] | [Hnone Ht]];
        rewrite Ht.
      * apply existsb_exists. exists s. split.
        -- unfold labels. apply labels_in. split; [|exact Hs].
           apply set_from_in_str. unfold W. apply in_map_iff. exists d. now split.
        -- rewrite E. cbn. apply String.eqb_refl.
      * apply not_true_is_false. intros H. apply existsb_exists in H.
        destruct H as [x [Hx Hv]]. apply Hnone in Hv. subst x.
        unfold labels in Hx. apply labels_in in Hx. now destruct Hx.
    + apply labels_set_from_NoDup.
    + intros d x y Hx Hy. apply same_value_zero_str in Hx, Hy. congruence.
  - rewrite Htotal. apply count_partition.
Qed.

(** X22 -- For two label columns, the cells of the connection matrix add up to
    the number of rows that have a value in both columns, and the cells
    of one matrix row never add up to more than the total of its
    category: the difference is the rows of the category that lack a
    value on the other axis. *)
Theorem chord_matrix_sums (cs ct : string) :
  (cs =? "years_at_medtronic") = false ->
  (ct =? "years_at_medtronic") = false ->
  labelColumn cs rows = true -> labelColumn ct rows = true ->
  sumOver (sumOver (fun x => x)) (connectionMatrix getYearsCategory rows cs ct)
  = count (fun d => truthy (getField d cs) && truthy (getField d ct)) rows
  /\ forall i row total,
      nth_error (connectionMatrix getYearsCategory rows cs ct) i = Some row ->
      nth_error (sideTotals getYearsCategory rows cs) i = Some total ->
      (sumOver (fun x => x) row <= total)%nat.
Proof.
  intros Hs Ht Hls Hlt.
  assert (forall sourceCat,
             sumOver (fun x => x)
               (map (fun targetCat =>
                       List.length
                         (filter (fun d =>
                                    strict_equal (rowValue getYearsCategory cs d)
                                                 (VStr sourceCat)
                                    && strict_equal (rowValue getYearsCategory ct d)
                                                    (VStr targetCat)) rows))
                    (sideArray getYearsCategory rows ct))
             = count (fun d => same_value_zero (getField d cs) (VStr sourceCat)
                               && truthy (getField d ct)) rows) as Hrow.
  { intros sourceCat. rewrite sumOver_map.
    rewrite <- (count_ext_in
      (fun d => truthy (getField d ct)
                && same_value_zero (getField d cs) (VStr sourceCat)) _ rows)
      by (intros d _; apply andb_comm).
    rewrite <- (present_sum ct _ Ht Hlt).
    apply sumOver_ext_in. intros cat _. unfold count. f_equal.
    apply filter_ext. intros d. unfold rowValue.
    rewrite Hs, Ht, !strict_equal_str. apply andb_comm. }
  split.
  - unfold connectionMatrix. rewrite sumOver_map.
    rewrite (sumOver_ext_in _ _ _ (fun x _ => Hrow x)).
    apply (present_sum cs (fun d => truthy (getField d ct)) Hs Hls).
  - intros i row total Hr Htot. unfold connectionMatrix, sideTotals in *.
    rewrite nth_error_map in Hr, Htot.
    destruct (nth_error (sideArray getYearsCategory rows cs) i) as [s|];
      [|discriminate].
    cbn in Hr, Htot. inversion Hr. inversion Htot. subst. clear Hr Htot.
    fold (count (fun d => strict_equal (rowValue getYearsCategory cs d) (VStr s)) rows).
    rewrite Hrow.
    rewrite (count_ext_in
               (fun d => strict_equal (rowValue getYearsCategory cs d) (VStr s))
               (fun d => same_value_zero (getField d cs) (VStr s)) rows)
      by (intros d _; unfold rowValue; now rewrite Hs, strict_equal_str).
    apply count_and_le.
Qed.
End ChordTotals.

Lemma chord_totals_count_present_rows_witness :
  ChordRender.sideTotalSum getYearsCategory Samples.missingMotivation "motivation"
  = 1%nat.
Proof.
  refine (proj1 (chord_totals_count_present_rows
                   getYearsCategory Samples.missingMotivation "motivation" _ _)).
  - reflexivity.
  - reflexivity.
Defined.

Lemma chord_matrix_sums_witness :
  sumOver (sumOver (fun x => x))
          (ChordRender.connectionMatrix getYearsCategory Samples.missingMotivation
                                        "learning_style" "motivation")
  = 1%nat.
Proof.
  refine (proj1 (chord_matrix_sums
                   getYearsCategory Samples.missingMotivation
                   "learning_style" "motivation" _ _ _ _)).
  - reflexivity.
  - reflexivity.
  - reflexivity.
  - reflexivity.
Defined.

(** ** Colour settings *)

Section Colours.
Import AppContext.

Lemma own_assign_same {A : Type} (k : string) (v : A) (o : Obj A) :
  own k (assign k v o) = Some v.
Proof.
  induction o as [|[k' v'] o IH]; cbn.
  - now rewrite String.eqb_refl.
  - destruct (k' =? k) eqn:E; cbn.
    + now rewrite String.eqb_refl.
    + now rewrite E.
Qed.

Lemma own_assign_other {A : Type} (k k' : string) (v : A) (o : Obj A) :
  k' <> k -> own k' (assign k v o) = own k' o.
Proof.
  intros Hne. induction o as [|[k0 v0] o IH]; cbn.
  - apply not_eq_sym, String.eqb_neq in Hne. now rewrite Hne.
  - destruct (k0 =? k) eqn:E; cbn.
    + apply String.eqb_eq in E. subst k0.
      apply not_eq_sym, String.eqb_neq in Hne. now rewrite Hne.
    + destruct (k0 =? k'); [reflexivity|exact IH].
Qed.

Lemma getNodeColor_known (nodeName category : string) (colors : ThemeAwareColors)
      (darkMode : bool) :
  In category colorCategories ->
  exists fallback,
    getNodeColor nodeName category colors darkMode
    = colorOr (if darkMode then dark colors else light colors)
              category nodeName fallback.
Proof.
  unfold colorCategories. cbn [In].
  intros [<- | [<- | [<- | [<- | [<- | []]]]]]; eexists; reflexivity.
Qed.

(** The target theme of an update, as a dark-mode flag: the given theme,
    or the mode of the settings the callback was created with. *)
Let targetDark (theme : option Theme) (settings : VisualizationSettings) : bool :=
  match theme with
  | Some ThemeDark => true
  | Some ThemeLight => false
  | None => isDarkMode settings
  end.

Lemma update_target (settings : VisualizationSettings)
      (category answer color : string) (theme : option Theme)
      (prev : VisualizationSettings) :
  let themeColors :=
    if targetDark theme settings then dark (categoryColors prev)
    else light (categoryColors prev) in
  let next :=
    categoryColors (updateCategoryColor settings category answer color theme prev) in
  (if targetDark theme settings then dark next else light next)
  = assign category (assign answer color (categoryOf themeColors category)) themeColors
  /\ (if targetDark theme settings then light next else dark next)
     = (if targetDark theme settings then light (categoryColors prev)
        else dark (categoryColors prev)).
Proof.
  unfold updateCategoryColor, targetDark.
  destruct theme as [[|]|]; [| |destruct (isDarkMode settings)]; split; reflexivity.
Qed.

(** An update queued behind [toggleDarkMode] in the same render: the
    callback still sees the light mode, the updater runs on the toggled
    state, so the light palette is rewritten and the colour read in the
    theme now current is the old one. *)
Example color_update_behind_toggle :
  let next := updateCategoryColor defaultSettings "learning_style" "visual" "#123456"
                                  None (toggleDarkMode defaultSettings) in
  isDarkMode next = true
  /\ getNodeColor "visual" "learning_style" (categoryColors next) (isDarkMode next)
     = getNodeColor "visual" "learning_style" (categoryColors defaultSettings) true
  /\ getNodeColor "visual" "learning_style" (categoryColors next) false
     = Color "#123456".
Proof. repeat split. Qed.

(** X23 -- A colour set through [updateCategoryColor] is the colour that the
    chord diagram's [getNodeColor] returns for that answer in the theme
    that was updated: the given theme, or, when none is given, the mode
    of the settings the callback was created with, whatever state the
    update is applied to.  When no theme is given and the update is
    applied to a state in that same mode, this is the theme current
    after the update.  The other settings are those of the state the
    update is applied to.  The colour must not be the empty string,
    which reads as unset. *)
Theorem color_update_round_trip
        (settings : VisualizationSettings)
        (category answer color : string) (theme : option Theme)
        (prev : VisualizationSettings) :
  In category colorCategories -> color <> "" ->
  let next := updateCategoryColor settings category answer color theme prev in
  getNodeColor answer category (categoryColors next) (targetDark theme settings)
  = Color color
  /\ (theme = None -> isDarkMode prev = isDarkMode settings ->
      getNodeColor answer category (categoryColors next) (isDarkMode next)
      = Color color)
  /\ isDarkMode next = isDarkMode prev
  /\ useTestData next = useTestData prev
  /\ isAutoPlayEnabled next = isAutoPlayEnabled prev
  /\ autoPlaySpeed next = autoPlaySpeed prev.
Proof.
  intros Hcat Hcolor. cbn zeta.
  assert (getNodeColor answer category
            (categoryColors (updateCategoryColor settings category answer color
                                                 theme prev))
            (targetDark theme settings) = Color color) as Hread.
  { destruct (getNodeColor_known answer category
                (categoryColors (updateCategoryColor settings category answer color
                                                     theme prev))
                (targetDark theme settings) Hcat) as [fallback ->].
    destruct (update_target settings category answer color theme prev) as [-> _].
    unfold colorOr, get. rewrite !own_assign_same.
    apply String.eqb_neq in Hcolor. now rewrite Hcolor. }
  split; [exact Hread|].
  split; [|repeat split; reflexivity].
  intros -> Hmode.
  change (isDarkMode (updateCategoryColor settings category answer color None prev))
    with (isDarkMode prev).
  rewrite Hmode. exact Hread.
Qed.

(** X24 -- An update changes nothing outside the answer it names, in
    whatever state it is applied to: the theme that is not the target
    (the target is the given theme or, when none is given, the mode of
    the settings the callback was created with) keeps all its colours,
    and within the target theme every other answer of a category that
    already has colours, and every answer of another category, reads as
    before. *)
Theorem color_update_frame
        (settings : VisualizationSettings)
        (category answer color : string) (theme : option Theme)
        (prev : VisualizationSettings) (category' answer' : string) :
  let next := updateCategoryColor settings category answer color theme prev in
  let before := categoryColors prev in
  (forall nodeName cat,
      getNodeColor nodeName cat (categoryColors next) (negb (targetDark theme settings))
      = getNodeColor nodeName cat before (negb (targetDark theme settings)))
  /\ (category' <> category ->
      getNodeColor answer' category' (categoryColors next) (targetDark theme settings)
      = getNodeColor answer' category' before (targetDark theme settings))
  /\ (answer' <> answer ->
      own category (if targetDark theme settings then dark before else light before)
      <> None ->
      getNodeColor answer' category (categoryColors next) (targetDark theme settings)
      = getNodeColor answer' category before (targetDark theme settings)).
Proof.
  cbn zeta.
  destruct (update_target settings category answer color theme prev) as [Hnew Hold].
  cbn zeta in Hnew, Hold.
  set (next := categoryColors (updateCategoryColor settings category answer color
                                                   theme prev)) in *.
  set (tc := if targetDark theme settings then dark (categoryColors prev)
             else light (categoryColors prev)) in *.
  split; [|split].
  - intros nodeName cat. unfold getNodeColor.
    destruct (targetDark theme settings); cbn [negb]; now rewrite Hold.
  - intros Hne.
    assert (forall fallback,
               colorOr (if targetDark theme settings then dark next else light next)
                       category' answer' fallback
               = colorOr tc category' answer' fallback) as Hc.
    { intros fallback. rewrite Hnew. unfold colorOr.
      now rewrite own_assign_other by exact Hne. }
    unfold getNodeColor. fold tc.
    repeat match goal with
           | |- context [category' =? ?lit] =>
               destruct (String.eqb_spec category' lit) as [-> | ?]; [apply Hc|]
           end.
    reflexivity.
  - intros Hne Hpresent. change (own category tc <> None) in Hpresent.
    assert (forall fallback,
               colorOr (if targetDark theme settings then dark next else light next)
                       category answer' fallback
               = colorOr tc category answer' fallback) as Hc.
    { intros fallback. rewrite Hnew. unfold colorOr, get, categoryOf.
      rewrite own_assign_same.
      destruct (own category tc) as [o|]; [|congruence].
      now rewrite own_assign_other by exact Hne. }
    unfold getNodeColor. fold tc.
    repeat match goal with
           | |- context [category =? ?lit] =>
               destruct (String.eqb_spec category lit) as [-> | ?]; [apply Hc|]
           end.
    reflexivity.
Qed.

(** X25 -- Under the default settings every category of the chord diagram's
    catalogue has a colour of its own in both themes, so no arc of the
    catalogue is drawn in a fallback colour. *)
Theorem default_palette_covers_catalog
        (darkMode : bool) (category nodeName : string) :
  In category colorCategories ->
  In nodeName (ChordArcs.allCategories category) ->
  exists c,
    own category (if darkMode then defaultDarkColors else defaultLightColors)
    = Some c
    /\ exists color,
      own nodeName c = Some color /\ color <> ""
      /\ getNodeColor nodeName category (categoryColors defaultSettings) darkMode
         = Color color.
Proof.
  unfold colorCategories. cbn [In].
  intros [<- | [<- | [<- | [<- | [<- | []]]]]] Hn; cbn in Hn;
    repeat (destruct Hn as [<- | Hn];
            [destruct darkMode; eexists; (split; [reflexivity|]);
             eexists; (split; [reflexivity|]); (split; [discriminate|reflexivity])|]);
    destruct Hn.
Qed.
End Colours.

Lemma color_update_round_trip_witness :
  AppContext.getNodeColor "visual" "learning_style"
    (AppContext.categoryColors
       (AppContext.updateCategoryColor AppContext.defaultSettings
                                       "learning_style" "visual" "#123456" None
                                       (AppContext.toggleDarkMode
                                          AppContext.defaultSettings)))
    false
  = AppContext.Color "#123456"
  /\ AppContext.getNodeColor "visual" "learning_style"
       (AppContext.categoryColors
          (AppContext.updateCategoryColor AppContext.defaultSettings
                                          "learning_style" "visual" "#123456" None
                                          AppContext.defaultSettings))
       (AppContext.isDarkMode
          (AppContext.updateCategoryColor AppContext.defaultSettings
                                          "learning_style" "visual" "#123456" None
                                          AppContext.defaultSettings))
     = AppContext.Color "#123456".
Proof.
  split.
  - refine (proj1 (color_update_round_trip AppContext.defaultSettings
                     "learning_style" "visual" "#123456" None
                     (AppContext.toggleDarkMode AppContext.defaultSettings) _ _)).
    + cbn. tauto.
    + discriminate.
  - refine (proj1 (proj2 (color_update_round_trip AppContext.defaultSettings
                     "learning_style" "visual" "#123456" None
                     AppContext.defaultSettings _ _)) _ _).
    + cbn. tauto.
    + discriminate.
    + reflexivity.
    + reflexivity.
Defined.

Lemma color_update_frame_witness :
  AppContext.getNodeColor "auditory" "learning_style"
    (AppContext.categoryColors
       (AppContext.updateCategoryColor AppContext.defaultSettings
                                       "learning_style" "visual" "#123456" None
                                       (AppContext.toggleDarkMode
                                          AppContext.defaultSettings)))
    false
  = AppContext.Color "#fd79a8".
Proof.
  refine (eq_trans (proj2 (proj2 (color_update_frame AppContext.defaultSettings
                     "learning_style" "visual"
                     "#123456" None
                     (AppContext.toggleDarkMode AppContext.defaultSettings)
                     "motivation" "auditory")) _ _) _).
  - discriminate.
  - discriminate.
  - reflexivity.
Defined.

Lemma default_palette_covers_catalog_witness :
  exists color,
    AppContext.getNodeColor "20+" "years_at_medtronic"
      (AppContext.categoryColors AppContext.defaultSettings) true
    = AppContext.Color color.
Proof.
  destruct (default_palette_covers_catalog true "years_at_medtronic" "20+")
    as [c [_ [color [_ [_ H]]]]].
  - cbn. tauto.
  - cbn. tauto.
  - exists color. exact H.
Defined.

(** ** The targets of the first source field *)

Section TargetPhases.
Import SequencerPhases.
Variable sourceCount : string -> nat.
Variable dataLength : nat.
Variable n : nat.
Variable source : string.

Hypothesis Hdata : (0 < dataLength)%nat.

Let step := Sequencer.step sourceCount dataLength.
Let run := Sequencer.run sourceCount dataLength.

Lemma animate_phase (t : option nat) (ti k id cycles : nat) (shown : list nat)
      (tgt : string) (hovered : option nat) (phase : Phase) (opaque : bool) :
  (cycles <= 1000)%nat ->
  animate dataLength n
          (mkState (mkAnim t true k ti false cycles)
                   (mkView true source tgt hovered phase opaque) [] id shown)
  = mkState (mkAnim (Some id) true k ti false (Datatypes.S cycles))
            (mkView true source tgt (Some k) highlighting false)
            [(id, phaseTimer source n ti k)] (Datatypes.S id) (shown ++ [k]).
Proof.
  intros Hc. unfold animate. cbn [anim isPaused running negb orb].
  assert ((dataLength =? 0)%nat = false) as -> by (apply Nat.eqb_neq; lia).
  cbn [cycleCount].
  assert ((1000 <? cycles)%nat = false) as -> by (apply Nat.ltb_ge; exact Hc).
  unfold phaseTimer.
  cbn [withAnim withView anim view pending nextTimerId highlights
       setCycleCount setAnimationPhase setIsInFullOpacityState
       setHoveredSourceIndex timer running currentSourceIndex
       currentTargetIndex isPaused cycleCount autoPlayOn currentSource
       currentTarget hoveredSourceIndex animationPhase isInFullOpacityState].
  destruct (Z.of_nat k <? Z.of_nat n - 1)%Z; [reflexivity|].
  destruct (_ <? _)%Z; destruct t; reflexivity.
Qed.

Lemma step_phase_next (ti k id cycles : nat) (shown : list nat) :
  (Datatypes.S k < n)%nat -> (cycles <= 1000)%nat ->
  step (phaseState source n ti k id cycles shown) FireNext
  = phaseState source n ti (Datatypes.S k) (Datatypes.S id) (Datatypes.S cycles)
               (shown ++ [Datatypes.S k]).
Proof.
  intros Hk Hc.
  change (step (phaseState source n ti k id cycles shown) FireNext)
    with (Sequencer.fire sourceCount dataLength id
            (mkState (mkAnim (Some id) true k ti false cycles)
                     (mkView true source (nth ti (targetOptionsFor source) "undefined")
                             (Some k) highlighting false)
                     [(id, phaseTimer source n ti k)] (Datatypes.S id) shown)).
  rewrite fire_single. unfold phaseTimer at 1.
  assert ((Z.of_nat k <? Z.of_nat n - 1)%Z = true) as -> by (apply Z.ltb_lt; lia).
  unfold Sequencer.runCallback. cbn [anim running isPaused negb orb].
  apply (animate_phase (Some id) ti (Datatypes.S k) (Datatypes.S id) cycles shown
                       _ (Some k) highlighting false Hc).
Qed.

Lemma run_phase (j : nat) :
  forall ti k id cycles shown,
  (k + j < n)%nat -> (cycles + j <= 1001)%nat ->
  run (phaseState source n ti k id cycles shown) (repeat FireNext j)
  = phaseState source n ti (k + j) (id + j) (cycles + j)
               (shown ++ seq (Datatypes.S k) j).
Proof.
  induction j as [|j IH]; intros ti k id cycles shown Hk Hc.
  - cbn [repeat seq]. rewrite !Nat.add_0_r, app_nil_r. reflexivity.
  - change (run (phaseState source n ti k id cycles shown)
                (repeat FireNext (Datatypes.S j)))
      with (run (step (phaseState source n ti k id cycles shown) FireNext)
                (repeat FireNext j)).
    rewrite step_phase_next by lia. rewrite IH by lia.
    cbn [seq]. rewrite <- app_assoc. cbn [app].
    f_equal; lia.
Qed.

(** The end of a target: the target timer moves to the next target and
    its follow-up timer announces source index 0. *)
Lemma step_phase_target (ti k id cycles : nat) (shown : list nat) :
  (n <= Datatypes.S k)%nat ->
  (Datatypes.S (Datatypes.S ti) <= List.length (targetOptionsFor source))%nat ->
  (cycles <= 1000)%nat ->
  run (phaseState source n ti k id cycles shown) [FireNext; FireNext]
  = phaseState source n (Datatypes.S ti) 0 (Datatypes.S (Datatypes.S id))
               (Datatypes.S cycles) (shown ++ [0%nat]).
Proof.
  intros Hk Hti Hc.
  change (run (phaseState source n ti k id cycles shown) [FireNext; FireNext])
    with (step (Sequencer.fire sourceCount dataLength id
            (mkState (mkAnim (Some id) true k ti false cycles)
                     (mkView true source (nth ti (targetOptionsFor source) "undefined")
                             (Some k) highlighting false)
                     [(id, phaseTimer source n ti k)] (Datatypes.S id) shown))
               FireNext).
  rewrite fire_single. unfold phaseTimer at 1.
  assert ((Z.of_nat k <? Z.of_nat n - 1)%Z = false) as -> by (apply Z.ltb_ge; lia).
  assert ((Z.of_nat ti <? Z.of_nat (List.length (targetOptionsFor source)) - 1)%Z
          = true) as -> by (apply Z.ltb_lt; lia).
  assert (Sequencer.runCallback sourceCount dataLength
            (TargetTimer n (targetOptionsFor source))
            (mkState (mkAnim (Some id) true k ti false cycles)
                     (mkView true source (nth ti (targetOptionsFor source) "undefined")
                             (Some k) highlighting false)
                     [] (Datatypes.S id) shown)
          = mkState (mkAnim (Some id) true 0 (Datatypes.S ti) false cycles)
                    (mkView true source
                            (nth (Datatypes.S ti) (targetOptionsFor source) "undefined")
                            (Some k) transitioning false)
                    [(Datatypes.S id, ContinueTimer n)]
                    (Datatypes.S (Datatypes.S id)) shown) as -> by reflexivity.
  change (step ?st FireNext)
    with (Sequencer.fire sourceCount dataLength (Datatypes.S id) st).
  rewrite fire_single.
  unfold Sequencer.runCallback. cbn [anim running isPaused negb andb].
  apply (animate_phase (Some id) (Datatypes.S ti) 0 (Datatypes.S (Datatypes.S id))
                       cycles shown _ (Some k) transitioning false Hc).
Qed.
End TargetPhases.

Section FirstSource.
Import SequencerPhases.
Variable sourceCount : string -> nat.
Variable dataLength : nat.
Variable n : nat.

Hypothesis Hcount : sourceCount "years_at_medtronic" = n.
Hypothesis Hdata : (0 < dataLength)%nat.
Hypothesis Hn : (1 <= n)%nat.
Hypothesis Hmax : (4 * n <= 1000)%nat.

Let run := Sequencer.run sourceCount dataLength.
Let started := Sequencer.started sourceCount dataLength.
Let rounds (ti : nat) : list nat := List.concat (repeat (seq 0 n) ti).

Lemma sequencer_run_app (st : State) (l1 l2 : list Event) :
  run st (l1 ++ l2) = run (run st l1) l2.
Proof. unfold run, Sequencer.run. apply fold_left_app. Qed.

Lemma rounds_succ (ti : nat) :
  rounds (Datatypes.S ti) = (rounds ti ++ seq 0 n)%list.
Proof.
  unfold rounds. induction ti as [|ti IH].
  - cbn. now rewrite app_nil_r.
  - change (repeat (seq 0 n) (Datatypes.S (Datatypes.S ti)))
      with (seq 0 n :: repeat (seq 0 n) (Datatypes.S ti)).
    cbn [List.concat]. rewrite IH at 1.
    change (repeat (seq 0 n) (Datatypes.S ti))
      with (seq 0 n :: repeat (seq 0 n) ti).
    cbn [List.concat]. now rewrite app_assoc.
Qed.

Lemma phase_start (ti : nat) :
  (ti < 4)%nat ->
  run started (repeat FireNext (ti * (n + 1)))
  = phaseState "years_at_medtronic" n ti 0 (1 + ti * (n + 1)) (1 + ti * n)
               (rounds ti ++ [0%nat]).
Proof.
  induction ti as [|ti IH]; intros Hti.
  - cbn [Nat.mul repeat Nat.add]. unfold run, Sequencer.run. cbn [fold_left].
    unfold started. rewrite (started_cycling sourceCount dataLength n Hcount Hdata).
    reflexivity.
  - replace (Datatypes.S ti * (n + 1))%nat
      with (ti * (n + 1) + ((n - 1) + 2))%nat by lia.
    rewrite !repeat_app, !sequencer_run_app, IH by lia.
    unfold run.
    rewrite (run_phase sourceCount dataLength n "years_at_medtronic" Hdata (n - 1))
      by nia.
    cbn [repeat].
    rewrite (step_phase_target sourceCount dataLength n "years_at_medtronic" Hdata)
      by (cbn; nia).
    rewrite rounds_succ.
    replace (seq 0 n) with (0%nat :: seq 1 (n - 1))
      by (destruct n; [lia|cbn; now rewrite Nat.sub_0_r]).
    rewrite <- !app_assoc. cbn [app].
    f_equal; nia.
Qed.

(** X26 -- Mounted with autoplay on and left alone, the sequencer walks the
    first source field through its four targets in the order of
    [availableFields] without the source itself.  For every target it
    announces the source indices 0 to n-1 in order, one per timer; a
    target switch takes two timers.  After the last index of the last
    target the pending timer is the one that switches the source. *)
Theorem first_source_visits_targets_in_order (ti k : nat) :
  (ti < 4)%nat -> (k < n)%nat ->
  let st := run started (repeat FireNext (ti * (n + 1) + k)) in
  st = phaseState "years_at_medtronic" n ti k (1 + ti * (n + 1) + k) (1 + ti * n + k)
                  (rounds ti ++ seq 0 (Datatypes.S k))
  /\ currentSource (view st) = "years_at_medtronic"
  /\ currentTarget (view st)
     = nth ti ["learning_style"; "shaped_by"; "peak_performance"; "motivation"] ""
  /\ currentTargetIndex (anim st) = ti
  /\ highlights st = (rounds ti ++ seq 0 (Datatypes.S k))%list
  /\ (ti = 3%nat -> Datatypes.S k = n ->
      pending st = [((1 + ti * (n + 1) + k)%nat, SourceTimer n)]).
Proof.
  intros Hti Hk. cbn zeta.
  assert (run started (repeat FireNext (ti * (n + 1) + k))
          = phaseState "years_at_medtronic" n ti k (1 + ti * (n + 1) + k)
                       (1 + ti * n + k) (rounds ti ++ seq 0 (Datatypes.S k))) as ->.
  { rewrite repeat_app, sequencer_run_app, phase_start by exact Hti.
    unfold run.
    rewrite (run_phase sourceCount dataLength n "years_at_medtronic" Hdata k) by nia.
    cbn [seq]. rewrite <- app_assoc. cbn [app Nat.add]. reflexivity. }
  split; [reflexivity|]. split; [reflexivity|].
  split.
  { cbn [phaseState view currentTarget].
    destruct ti as [|[|[|[|ti]]]]; try lia; reflexivity. }
  split; [reflexivity|]. split; [reflexivity|].
  intros -> Hlast. cbn [phaseState pending]. unfold phaseTimer.
  assert ((Z.of_nat k <? Z.of_nat n - 1)%Z = false) as -> by (apply Z.ltb_ge; lia).
  reflexivity.
Qed.
End FirstSource.

Lemma first_source_visits_targets_in_order_witness :
  highlights (Sequencer.run MoreSamples.threeSources 10
                (Sequencer.started MoreSamples.threeSources 10)
                (repeat FireNext 9))
  = [0; 1; 2; 0; 1; 2; 0; 1]%nat
  /\ currentTarget (view (Sequencer.run MoreSamples.threeSources 10
                            (Sequencer.started MoreSamples.threeSources 10)
                            (repeat FireNext 9)))
     = "peak_performance".
Proof.
  destruct (first_source_visits_targets_in_order MoreSamples.threeSources 10 3
              eq_refl) with (ti := 2%nat) (k := 1%nat)
    as [_ [_ [H3 [_ [H5 _]]]]]; try lia.
  split; [exact H5|exact H3].
Defined.

(** ** The secondary chord matrix *)

Lemma combine_seq_nth {A : Type} (l : list A) (s i : nat) (d : A) :
  (i < List.length l)%nat ->
  nth_error (combine (seq s (List.length l)) l) i = Some ((s + i)%nat, nth i l d).
Proof.
  revert s i. induction l as [|x l IH]; intros s i Hi; cbn in Hi; [lia|].
  cbn [List.length seq combine]. destruct i as [|i]; cbn [nth_error nth].
  - now rewrite Nat.add_0_r.
  - rewrite IH by lia. f_equal. f_equal. lia.
Qed.

Lemma mapIndexed_length {A B : Type} (f : A -> nat -> B) (l : list A) :
  List.length (ChordRender.mapIndexed f l) = List.length l.
Proof.
  unfold ChordRender.mapIndexed.
  rewrite length_map, length_combine, length_seq. lia.
Qed.

Lemma mapIndexed_nth {A B : Type} (f : A -> nat -> B) (l : list A) (i : nat)
      (d : A) (e : B) :
  (i < List.length l)%nat ->
  nth i (ChordRender.mapIndexed f l) e = f (nth i l d) i.
Proof.
  intros Hi. unfold ChordRender.mapIndexed.
  apply nth_error_nth. rewrite nth_error_map.
  rewrite (combine_seq_nth l 0 i d Hi). reflexivity.
Qed.

(** X27 -- The matrix of the secondary chord is only built when at least five
    rows have a peak-performance value.  It is square, with one row per
    years category and per performance category; it is symmetric; and
    it connects years with performance only: every cell within the
    years block and within the performance block is 0. *)
Theorem secondary_matrix_symmetric
        (getYearsCategory : jsval -> string) (filteredData : list SurveyResponse)
        (matrix : list (list nat)) :
  ChordRender.secondaryMatrix getYearsCategory filteredData = Some matrix ->
  let size := (5 + List.length (ChordRender.peakPerfCategories filteredData))%nat in
  (5 <= List.length (ChordRender.secondaryData filteredData))%nat
  /\ List.length matrix = size
  /\ (forall i, (i < size)%nat -> List.length (nth i matrix []) = size)
  /\ (forall i j, nth j (nth i matrix []) 0%nat = nth i (nth j matrix []) 0%nat)
  /\ (forall i j, (i < 5)%nat -> (j < 5)%nat -> nth j (nth i matrix []) 0%nat = 0%nat)
  /\ (forall i j, (5 <= i)%nat -> (5 <= j)%nat ->
                  nth j (nth i matrix []) 0%nat = 0%nat).
Proof.
  unfold ChordRender.secondaryMatrix.
  destruct (Nat.ltb_spec (List.length (ChordRender.secondaryData filteredData)) 5)
    as [Hlt | Hge]; [discriminate|].
  intros H. inversion H as [Hm]. clear H. subst matrix. cbn zeta.
  set (all := ChordRender.allCategories filteredData) in *.
  assert (List.length all
          = (5 + List.length (ChordRender.peakPerfCategories filteredData))%nat)
    as Hall.
  { unfold all, ChordRender.allCategories. now rewrite length_app. }
  set (cellOf := fun (sourceCategory : string) (sourceIndex : nat)
                     (targetCategory : string) (targetIndex : nat) =>
                   let sourceIsYears :=
                     (sourceIndex <? List.length ChordRender.yearsCategories)%nat in
                   let targetIsYears :=
                     (targetIndex <? List.length ChordRender.yearsCategories)%nat in
                   if Bool.eqb sourceIsYears targetIsYears then 0%nat
                   else
                     let yearsCat :=
                       if sourceIsYears then sourceCategory else targetCategory in
                     let perfCat :=
                       if sourceIsYears then targetCategory else sourceCategory in
                     List.length
                       (filter
                          (fun d =>
                             ChordRender.strict_equal
                               (VStr (getYearsCategory
                                        (or_else (years_at_medtronic d) (num 0))))
                               (VStr yearsCat)
                             && ChordRender.strict_equal (peak_performance d)
                                                         (VStr perfCat))
                          (ChordRender.secondaryData filteredData))).
  set (M := ChordRender.mapIndexed
              (fun sourceCategory sourceIndex =>
                 ChordRender.mapIndexed (cellOf sourceCategory sourceIndex) all) all).
  assert (forall i, (i < List.length all)%nat ->
                    nth i M [] = ChordRender.mapIndexed (cellOf (nth i all "") i) all)
    as Hrow.
  { intros i Hi. unfold M. now rewrite (mapIndexed_nth _ all i "" []). }
  assert (forall i j, (i < List.length all)%nat -> (j < List.length all)%nat ->
                      nth j (nth i M []) 0%nat
                      = cellOf (nth i all "") i (nth j all "") j) as Hcell.
  { intros i j Hi Hj. rewrite Hrow by exact Hi.
    now rewrite (mapIndexed_nth _ all j "" 0%nat). }
  assert (forall i j, (List.length all <= i)%nat \/ (List.length all <= j)%nat ->
                      nth j (nth i M []) 0%nat = 0%nat) as Hout.
  { intros i j [Hi | Hj].
    - rewrite (nth_overflow M) by (unfold M; now rewrite mapIndexed_length).
      now destruct j.
    - destruct (Nat.lt_ge_cases i (List.length all)) as [Hi | Hi].
      + rewrite Hrow by exact Hi. apply nth_overflow. now rewrite mapIndexed_length.
      + rewrite (nth_overflow M) by (unfold M; now rewrite mapIndexed_length).
        now destruct j. }
  assert (forall a i b j, cellOf a i b j = cellOf b j a i) as Hsym.
  { intros a i b j. unfold cellOf. cbv zeta.
    destruct (i <? _)%nat, (j <? _)%nat; reflexivity. }
  split; [exact Hge|]. rewrite <- Hall.
  split; [unfold M; apply mapIndexed_length|].
  split; [intros i Hi; rewrite Hrow by exact Hi; apply mapIndexed_length|].
  split.
  { intros i j.
    destruct (Nat.lt_ge_cases i (List.length all)) as [Hi | Hi];
      destruct (Nat.lt_ge_cases j (List.length all)) as [Hj | Hj].
    - rewrite !Hcell by assumption. apply Hsym.
    - rewrite !Hout by auto. reflexivity.
    - rewrite !Hout by auto. reflexivity.
    - rewrite !Hout by auto. reflexivity. }
  split.
  { intros i j Hi Hj. rewrite Hcell by lia. unfold cellOf. cbv zeta.
    cbn [List.length ChordRender.yearsCategories].
    assert ((i <? 5)%nat = true) as -> by (apply Nat.ltb_lt; lia).
    assert ((j <? 5)%nat = true) as -> by (apply Nat.ltb_lt; lia).
    reflexivity. }
  intros i j Hi Hj.
  destruct (Nat.lt_ge_cases i (List.length all)) as [Hi' | Hi'];
    [|now apply Hout; left].
  destruct (Nat.lt_ge_cases j (List.length all)) as [Hj' | Hj'];
    [|now apply Hout; right].
  rewrite Hcell by assumption. unfold cellOf. cbv zeta.
  cbn [List.length ChordRender.yearsCategories].
  assert ((i <? 5)%nat = false) as -> by (apply Nat.ltb_ge; lia).
  assert ((j <? 5)%nat = false) as -> by (apply Nat.ltb_ge; lia).
  reflexivity.
Qed.

Lemma secondary_matrix_symmetric_witness :
  exists matrix,
    ChordRender.secondaryMatrix getYearsCategory MoreSamples.fivePerf = Some matrix
    /\ List.length matrix = 8%nat.
Proof.
  eexists. split; [reflexivity|].
  exact (proj1 (proj2 (secondary_matrix_symmetric getYearsCategory
                         MoreSamples.fivePerf _ eq_refl))).
Defined.

(** ** The years axis of the chord diagram *)

Lemma strs_set_add (s : string) (seen : list jsval) :
  map Alluvial.as_string (set_add (VStr s) seen) = map Alluvial.as_string seen
  \/ (~ In (VStr s) seen
      /\ map Alluvial.as_string (set_add (VStr s) seen)
         = (map Alluvial.as_string seen ++ [s])%list).
Proof.
  induction seen as [|w seen IH]; cbn.
  - right. split; [tauto|reflexivity].
  - destruct (same_value_zero w (VStr s)) eqn:E; cbn; [now left|].
    destruct IH as [IH | [Hn IH]].
    + left. now rewrite IH.
    + right. split.
      * intros [H | H]; [|contradiction]. subst w. cbn in E.
        now rewrite String.eqb_refl in E.
      * now rewrite IH.
Qed.

Lemma strs_set_from_NoDup (l : list string) :
  NoDup (map Alluvial.as_string (set_from (map VStr l)))
  /\ forall s, In s (map Alluvial.as_string (set_from (map VStr l))) <-> In s l.
Proof.
  unfold set_from.
  assert (forall acc : list jsval,
             (forall v, In v acc -> exists s, v = VStr s) ->
             NoDup (map Alluvial.as_string acc) ->
             let r := fold_left (fun seen v => set_add v seen) (map VStr l) acc in
             (forall v, In v r -> exists s, v = VStr s)
             /\ NoDup (map Alluvial.as_string r)
             /\ forall s, In s (map Alluvial.as_string r)
                          <-> In s (map Alluvial.as_string acc) \/ In s l) as H.
  { induction l as [|x l IH]; cbn [map fold_left]; intros acc Hstr Hnd.
    - cbn zeta. split; [exact Hstr|]. split; [exact Hnd|]. intros s. cbn. tauto.
    - assert (forall v, In v (set_add (VStr x) acc) -> exists s, v = VStr s) as Hstr'.
      { intros v Hv. destruct (set_add_incl _ _ _ Hv) as [Hin | ->]; eauto. }
      assert (In x (map Alluvial.as_string (set_add (VStr x) acc))) as Hx.
      { apply in_map_iff. exists (VStr x). split; [reflexivity|].
        apply set_add_in_str. now right. }
      destruct (strs_set_add x acc) as [E | [Hn E]].
      + destruct (IH (set_add (VStr x) acc) Hstr') as [H1 [H2 H3]];
          [now rewrite E|].
        split; [exact H1|]. split; [exact H2|].
        intros s. rewrite H3, E. rewrite E in Hx. cbn [In].
        split; [tauto|]. intros [H | [<- | H]]; auto.
      + assert (~ In x (map Alluvial.as_string acc)) as Hfresh.
        { intros Hin. apply in_map_iff in Hin. destruct Hin as [v [Hv Hin]].
          destruct (Hstr v Hin) as [s ->]. cbn in Hv. subst s. contradiction. }
        destruct (IH (set_add (VStr x) acc) Hstr') as [H1 [H2 H3]].
        { rewrite E. apply NoDup_app; auto.
          - repeat constructor. intros [].
          - intros y Hy [<- | []]. contradiction. }
        split; [exact H1|]. split; [exact H2|].
        intros s. rewrite H3, E, in_app_iff. cbn. tauto. }
  destruct (H [] (fun v (Hv : In v []) => match Hv with end) (NoDup_nil _))
    as [_ [H2 H3]].
  split; [exact H2|]. intros s. rewrite H3. cbn. tauto.
Qed.

(** X28 -- On the years axis every row is counted in exactly one total: the
    totals of the categories add up to the number of rows.  A row
    without a years value is not left out; it is counted in the bucket
    of 0 years.  The five arcs of the axis count the rows whose bucket
    is one of the five fixed groups, so their counts add up to the same
    number exactly when every row falls in one of the groups. *)
Theorem chord_years_totals_count_every_row
        (getYearsCategory : jsval -> string) (rows : list SurveyResponse) :
  let bucket d := getYearsCategory (or_else (years_at_medtronic d) (num 0)) in
  ChordRender.sideTotalSum getYearsCategory rows "years_at_medtronic"
  = List.length rows
  /\ sumOver ChordRender.arc_value
             (ChordRender.sideArcs getYearsCategory rows "years_at_medtronic")
     = count (fun d => existsb (String.eqb (bucket d)) ChordRender.YEARS_GROUPS) rows
  /\ (forall d, In d rows -> years_at_medtronic d = VNull ->
                bucket d = getYearsCategory (num 0)
                /\ In (bucket d)
                      (ChordRender.sideArray getYearsCategory rows
                                             "years_at_medtronic")).
Proof.
  cbn zeta.
  set (bucket := fun d => getYearsCategory (or_else (years_at_medtronic d) (num 0))).
  assert (ChordRender.sideArray getYearsCategory rows "years_at_medtronic"
          = sort_strings
              (map Alluvial.as_string (set_from (map VStr (map bucket rows)))))
    as Harr.
  { unfold ChordRender.sideArray. cbn [String.eqb Ascii.eqb Bool.eqb].
    now rewrite map_map. }
  destruct (strs_set_from_NoDup (map bucket rows)) as [Hnd Hin].
  pose proof (sort_by_perm str_leb
                (map Alluvial.as_string (set_from (map VStr (map bucket rows)))))
    as Hperm.
  split; [|split].
  - unfold ChordRender.sideTotalSum, ChordRender.sideTotals.
    rewrite fold_left_add_sumOver, sumOver_map. cbn [Nat.add]. rewrite Harr.
    rewrite (sumOver_ext_in _ (fun cat => count (fun d => bucket d =? cat) rows))
      by reflexivity.
    rewrite (sumOver_count_exclusive (fun cat d => bucket d =? cat)).
    + unfold count. rewrite filter_all; [reflexivity|].
      intros d Hd. apply existsb_exists. exists (bucket d).
      split; [|apply String.eqb_refl].
      apply (Permutation_in _ (Permutation_sym Hperm)). apply Hin.
      now apply in_map.
    + eapply Permutation_NoDup; [apply Permutation_sym; exact Hperm|exact Hnd].
    + intros d x y Hx Hy. apply String.eqb_eq in Hx, Hy. congruence.
  - unfold ChordRender.sideArcs, ChordRender.sideValues.
    cbn [String.eqb Ascii.eqb Bool.eqb]. rewrite !sumOver_map.
    cbn [ChordRender.arc_value].
    rewrite (sumOver_ext_in _ (fun cat => count (fun d => bucket d =? cat) rows))
      by reflexivity.
    rewrite (sumOver_count_exclusive (fun cat d => bucket d =? cat)).
    + apply count_ext_in. intros d _. reflexivity.
    + repeat constructor; cbn; intuition discriminate.
    + intros d x y Hx Hy. apply String.eqb_eq in Hx, Hy. congruence.
  - intros d Hd Hnull. split.
    + unfold bucket. now rewrite Hnull.
    + rewrite Harr. apply (Permutation_in _ (Permutation_sym Hperm)). apply Hin.
      now apply in_map.
Qed.

Lemma chord_years_totals_count_every_row_witness :
  In (getYearsCategory (or_else VNull (num 0)))
     (ChordRender.sideArray getYearsCategory
        [mkResponse VNull (VStr "visual") VNull VNull VNull (VBool false)]
        "years_at_medtronic").
Proof.
  refine (proj2 (proj2 (proj2 (chord_years_totals_count_every_row getYearsCategory
            [mkResponse VNull (VStr "visual") VNull VNull VNull (VBool false)]))
            (mkResponse VNull (VStr "visual") VNull VNull VNull (VBool false))
            _ _)).
  - left. reflexivity.
  - reflexivity.
Defined.

(** ** Monotonicity of the highlight sequence *)

Section PhaseHover.
Import SequencerPhases.
Variable sourceCount : string -> nat.
Variable dataLength : nat.
Variable n : nat.
Variable source : string.

Hypothesis Hcount : sourceCount source = n.
Hypothesis Hdata : (0 < dataLength)%nat.

Let step := Sequencer.step sourceCount dataLength.
Let run := Sequencer.run sourceCount dataLength.

End PhaseHover.


(** Phases of the later source fields are reached with a single chain
    too: in the run above the stale follow-up timer has expired after
    the third expiry, the tracked timer is the only pending one again,
    and the sequencer is in the phase state of index 2 of the second
    source field. *)
Example second_source_single_chain :
  Sequencer.run MoreSamples.threeSources 10
                (Sequencer.started MoreSamples.threeSources 10)
                (repeat FireNext 15 ++ [Fire 17; Fire 16; Fire 18])
  = SequencerPhases.phaseState "learning_style" 3 0 2 20 4
                               [0; 1; 2; 0; 1; 2; 0; 1; 2; 0; 1; 2; 0; 1; 1; 2]%nat.
Proof. vm_compute. reflexivity. Qed.


